(** * Training-step loss orchestration of the diffusion fine-tuning toolkit

    A shallow embedding of the training-step logic of

    - [jobs/process/BaseSDTrainProcess.py] (timestep sampling of
      [process_general_training_batch]),
    - [extensions_built_in/sd_trainer/SDTrainer.py] ([calculate_loss],
      [get_prior_prediction], the guidance methods and the loss handling of
      [hook_train_loop]),
    - [toolkit/guidance.py] (the guidance loss strategies),
    - [run.py] (the command line runner),
    - [jobs/process/BaseSDTrainProcess.py] again (the names of the saved
      files, [clean_up_saves], [get_latest_save_path] and the schedule of
      the training loop of [run]),
    - [toolkit/models/ilora.py] (the slicing of the generated weights and
      [migrate_weight_mapping]),

    followed by the properties of the specification that are about them,
    and by further properties of the code.

    Modelling conventions.

    - A tensor element is a canonical rational ([Qc]) or the one non-finite
      value [NaN]: arithmetic is exact, and a division by zero gives
      [NaN].  The rounding of [float32] is modelled apart, in [Binary32],
      for the two properties in which the order of the operations
      decides.
    - A tensor of shape (B, C, H, W) is a list of B items, each a list of C
      channels, each the list of its H*W pixels.  Binary operations stretch
      a dimension of size one, as broadcasting does.
    - The denoising model, its scheduler and the few numeric primitives the
      code takes from its libraries are an interface ([Backend]): every
      definition and theorem is parametric in it.
    - Python state that the code mutates (the network, the adapter, the
      grad mode, the train/eval mode of the unet) is threaded through a
      state-and-exception monad; an exception leaves the state as it was at
      the point of the raise. *)

From stdpp Require Import base numbers list strings pretty gmap sorting.
From Stdlib Require Import QArith Qcanon Lia Lra Psatz.

Local Open Scope Z_scope.
Local Open Scope Qc_scope.

(* ===================================================================== *)
(** * Exceptions *)
(* ===================================================================== *)

Inductive exn :=
  | ValueError (msg : string)
  | AssertionError
  | NotImplementedError (msg : string)
  | RuntimeError (msg : string)
  | AttributeError (msg : string)
  | NameError (msg : string).

Inductive result (A : Type) :=
  | Ok (a : A)
  | Raise (e : exn).
Arguments Ok {A} a.
Arguments Raise {A} e.

(** The value of a call that returned. *)
Definition returned {A} (r : result A) : option A :=
  match r with Ok a => Some a | Raise _ => None end.

(* ===================================================================== *)
(** * Numbers and tensors *)
(* ===================================================================== *)

(** A float: a finite value, or not a number. *)
Inductive fnum :=
  | Fin (q : Qc)
  | NaN.

Global Instance fnum_eq_dec : EqDecision fnum.
Proof. solve_decision. Defined.

Definition isnan (x : fnum) : bool :=
  match x with NaN => true | Fin _ => false end.

Definition flift2 (f : Qc → Qc → Qc) (x y : fnum) : fnum :=
  match x, y with
  | Fin a, Fin b => Fin (f a b)
  | _, _ => NaN
  end.

Definition fadd : fnum → fnum → fnum := flift2 Qcplus.
Definition fsub : fnum → fnum → fnum := flift2 Qcminus.
Definition fmul : fnum → fnum → fnum := flift2 Qcmult.

Definition fdiv (x y : fnum) : fnum :=
  match x, y with
  | Fin a, Fin b => if decide (b = 0) then NaN else Fin (a / b)
  | _, _ => NaN
  end.

Definition fneg (x : fnum) : fnum :=
  match x with Fin a => Fin (- a) | NaN => NaN end.

Definition fabs (x : fnum) : fnum :=
  match x with
  | Fin a => Fin (if decide (a < 0) then - a else a)
  | NaN => NaN
  end.

(** [torch.max] of two elements, and [x.clamp(lo, hi)]. *)
Definition fmax (x y : fnum) : fnum :=
  match x, y with
  | Fin a, Fin b => Fin (if decide (a < b) then b else a)
  | _, _ => NaN
  end.

Definition fclamp (lo hi : Qc) (x : fnum) : fnum :=
  match x with
  | Fin a => Fin (if decide (a < lo) then lo else if decide (hi < a) then hi else a)
  | NaN => NaN
  end.

(** [x ** 2]. *)
Definition fsquare (x : fnum) : fnum := fmul x x.

(** [x ** -2.0]. *)
Definition finv_square (x : fnum) : fnum := fdiv (Fin 1) (fsquare x).

Definition of_nat (n : nat) : fnum := Fin (Qc_of_Z (Z.of_nat n)).

(** A vector of shape (B,), and a tensor of shape (B, C, H, W) with the two
    spatial dimensions flattened. *)
Abbreviation fvec := (list fnum).
Abbreviation tensor := (list (list (list fnum))).

(** Elementwise combination of two dimensions; a dimension of size one is
    stretched to the size of the other one. *)
Definition bzip {A} (f : A → A → A) (xs ys : list A) : list A :=
  match xs, ys with
  | [x], _ => f x <$> ys
  | _, [y] => (λ x, f x y) <$> xs
  | _, _ => zip_with f xs ys
  end.

Definition vzip (f : fnum → fnum → fnum) : fvec → fvec → fvec := bzip f.
Definition tzip (f : fnum → fnum → fnum) : tensor → tensor → tensor :=
  bzip (bzip (bzip f)).
Definition tmap (f : fnum → fnum) (t : tensor) : tensor :=
  map (map (map f)) t.

Definition tadd := tzip fadd.
Definition tsub := tzip fsub.
Definition tmul := tzip fmul.
Definition tdiv := tzip fdiv.
(** Multiplication and addition of a tensor and a Python float. *)
Definition tscale (c : Qc) : tensor → tensor := tmap (λ x, fmul x (Fin c)).
Definition tshift (c : Qc) : tensor → tensor := tmap (λ x, fadd x (Fin c)).

Definition fsum (l : fvec) : fnum := foldr fadd (Fin 0) l.

(** [x.mean()] of a flat list of elements; the mean of no element is
    [0 / 0]. *)
Definition fmean (l : fvec) : fnum := fdiv (fsum l) (of_nat (length l)).

(** [t.mean([1, 2, 3])]: one mean per item. *)
Definition mean123 (t : tensor) : fvec := (λ item, fmean (concat item)) <$> t.

(** [t.max(dim=1, keepdim=True)[0].max(dim=2, ...)[0].max(dim=3, ...)[0]]:
    the largest element of each item. *)
Definition max123 (t : tensor) : tensor :=
  (λ item, match concat item with
           | [] => [[NaN]]
           | x :: l => [[foldr fmax x l]]
           end) <$> t.

(** [t.mean([2, 3], keepdim=True)]: one mean per item and channel. *)
Definition mean23 (t : tensor) : tensor :=
  map (map (λ px, [fmean px])) t.

(** [torch.isnan(t).any()]. *)
Definition any_nan (t : tensor) : bool :=
  existsb (existsb (existsb isnan)) t.

(** [torch.nn.functional.mse_loss(a, b, reduction="none")] and
    [l1_loss(a, b, reduction="none")]. *)
Definition mse_loss : tensor → tensor → tensor :=
  tzip (λ x y, fsquare (fsub x y)).
Definition l1_loss : tensor → tensor → tensor :=
  tzip (λ x y, fabs (fsub x y)).

(** [torch.chunk(t, 2, dim=0)] unpacked into two names: the chunks have
    [ceil(B / 2)] items; with fewer than two items there is one chunk only
    and the unpacking fails. *)
Definition chunk2 {A} (t : list A) : result (list A * list A) :=
  let k := Nat.div (length t + 1) 2 in
  if bool_decide (length t < 2)%nat
  then Raise (ValueError "not enough values to unpack (expected 2)")
  else Ok (take k t, drop k t).

(** [torch.ones((b, 1, 1, 1))]. *)
Definition ones (b : nat) : tensor := replicate b [[Fin 1]].

(** [m.expand(-1, c, -1, -1)] of a tensor with one channel. *)
Definition expand_channels (c : nat) (m : tensor) : tensor :=
  (λ item, match item with
           | [ch] => replicate c ch
           | _ => item
           end) <$> m.

(** Modelled from the spec: [toolkit.basic.value_map], applied to a tensor
    (see [Sampler.value_map]). *)
Definition tvalue_map (inputs : tensor) (min_in max_in min_out max_out : Qc)
    : tensor :=
  tmap (λ x, fadd (fdiv (fmul (fsub x (Fin min_in)) (Fin (max_out - min_out)))
                        (Fin (max_in - min_in)))
                  (Fin min_out)) inputs.

(* ===================================================================== *)
(** * Timestep sampling: [process_general_training_batch], lines 511-549 *)
(* ===================================================================== *)

Module Sampler.

(** The fields of [train_config] and of the scheduler configuration that
    the sampling code reads. *)
Record config := {
  content_or_style : string;
  min_denoising_steps : Z;
  max_denoising_steps : Z;
  num_train_timesteps : Z;
}.

(** Modelled from the spec: [toolkit.basic.value_map] is imported by the
    sources but its body is not among them; the specification says the
    warped value is "remapped into range", which is the linear map of
    [[min_in, max_in]] onto [[min_out, max_out]]. *)
Definition value_map (inputs min_in max_in min_out max_out : Qc) : Qc :=
  (inputs - min_in) * (max_out - min_out) / (max_in - min_in) + min_out.

(** [tensor.long()]: conversion of a float to an integer truncates toward
    zero. *)
Definition long (x : Qc) : Z := Z.quot (Qnum x) (Zpos (Qden x)).

(** [tensor.clamp(lo, hi)] is [min(max(x, lo), hi)]. *)
Definition clamp (lo hi x : Z) : Z := Z.min (Z.max x lo) hi.

(** Line 524: [timesteps ** 3 * num_train_timesteps]. *)
Definition style_warp (n u : Qc) : Qc := u ^ 3 * n.

(** Line 526: [(1 - timesteps ** 3) * num_train_timesteps]. *)
Definition content_warp (n u : Qc) : Qc := (1 - u ^ 3) * n.

(** Lines 528-538: remap from [[0, num_train_timesteps - 1]] to the
    denoising range, truncate, clamp. *)
Definition remap_and_clamp (cfg : config) (t : Qc) : Z :=
  let t := value_map t 0 (Qc_of_Z (num_train_timesteps cfg - 1))
             (Qc_of_Z (min_denoising_steps cfg))
             (Qc_of_Z (max_denoising_steps cfg)) in
  clamp (min_denoising_steps cfg + 1) (max_denoising_steps cfg - 1) (long t).

(** One element of the cubic branch (lines 521-538), for the uniform draw
    [u] that [torch.rand] produced for it. *)
Definition cubic_timestep (cfg : config) (u : Qc) : Z :=
  let n := Qc_of_Z (num_train_timesteps cfg) in
  let t := u in
  let t := if String.eqb (content_or_style cfg) "style" then style_warp n t
           else if String.eqb (content_or_style cfg) "content" then content_warp n t
           else t in
  remap_and_clamp cfg t.

(** What the random number generator hands out: [torch.rand] gives a
    float in [[0, 1)], [torch.randint(lo, hi)] an integer in [[lo, hi)]. *)
Definition rand_draw (u : Qc) : Prop := 0 ≤ u ∧ u < 1.
Definition randint_draw (lo hi r : Z) : Prop := (lo ≤ r ∧ r < hi)%Z.

(** The timesteps of a batch.  [rand] are the draws of [torch.rand], one
    per item, consumed by the cubic branch; [randint] are the draws of
    [torch.randint], consumed by the balanced branch. *)
Definition sample_timesteps (cfg : config) (rand : list Qc) (randint : list Z)
    : result (list Z) :=
  if bool_decide (content_or_style cfg ∈ ["style"; "content"]) then
    Ok (cubic_timestep cfg <$> rand)
  else if String.eqb (content_or_style cfg) "balanced" then
    if bool_decide (min_denoising_steps cfg < max_denoising_steps cfg)%Z then
      (* timesteps.long() of integers is the identity *)
      Ok randint
    else Raise (RuntimeError "random_ expects 'from' to be less than 'to'")
  else
    Raise (ValueError ("Unknown content_or_style " +:+ content_or_style cfg)).

(** A sample configuration: a schedule of 1000 steps, all of them open to
    training. *)
Definition default_config (policy : string) : config :=
  {| content_or_style := policy;
     min_denoising_steps := 0;
     max_denoising_steps := 1000;
     num_train_timesteps := 1000 |}.

Definition with_policy (policy : string) (cfg : config) : config :=
  {| content_or_style := policy;
     min_denoising_steps := min_denoising_steps cfg;
     max_denoising_steps := max_denoising_steps cfg;
     num_train_timesteps := num_train_timesteps cfg |}.

(** A sample of [n] equally spaced uniform draws, [0/n, 1/n, ..., (n-1)/n],
    standing for a large seed set. *)
Definition grid (n : nat) : list Qc :=
  (λ k : nat, Qc_of_Z (Z.of_nat k) / Qc_of_Z (Z.of_nat n)) <$> seq 0 n.

(** How many timesteps of a sample lie below a threshold. *)
Definition count_below (m : Z) (ts : list Z) : nat :=
  length (filter (λ t, t < m)%Z ts).

(** A sample skews low (high) when more than half of it lies in the lower
    (upper) half of the denoising range. *)
Definition midpoint (cfg : config) : Z :=
  (min_denoising_steps cfg + max_denoising_steps cfg) / 2.
Definition skews_low (cfg : config) (ts : list Z) : Prop :=
  (length ts < 2 * count_below (midpoint cfg) ts)%nat.
Definition skews_high (cfg : config) (ts : list Z) : Prop :=
  (2 * count_below (midpoint cfg) ts < length ts)%nat.

End Sampler.

(* ===================================================================== *)
(** * Strings *)
(* ===================================================================== *)

(** [s.replace(old, new)]: every occurrence of [old], left to right and
    without overlap; an empty [old] matches before every character and at
    the end.  [skip] counts the characters of a match still to be dropped. *)
Fixpoint replace_from (old new : string) (skip : nat) (s : string) : string :=
  match s with
  | EmptyString => EmptyString
  | String c s' =>
      match skip with
      | S k => replace_from old new k s'
      | O =>
          if String.prefix old s
          then new +:+ replace_from old new (String.length old - 1) s'
          else String c (replace_from old new 0 s')
      end
  end.

Fixpoint intersperse_string (new s : string) : string :=
  match s with
  | EmptyString => new
  | String c s' => new +:+ String c (intersperse_string new s')
  end.

Definition str_replace (old new s : string) : string :=
  match old with
  | EmptyString => intersperse_string new s
  | _ => replace_from old new 0 s
  end.

(* ===================================================================== *)
(** * Data of a training step *)
(* ===================================================================== *)

(** [PromptEmbeds]: the text embeddings have shape (B, tokens, dim). *)
Record PromptEmbeds := {
  text_embeds : tensor;
  pooled_embeds : option (list fvec);
}.

(** Modelled from the spec: [toolkit.prompt_utils.concat_prompt_embeds] is
    not among the sources; the strategies use it to build the embeddings of
    the "doubled batch", so it concatenates along the batch dimension. *)
Definition concat_prompt_embeds (l : list PromptEmbeds) : PromptEmbeds :=
  {| text_embeds := concat (text_embeds <$> l);
     pooled_embeds :=
       foldr (λ e acc, p ← pooled_embeds e; q ← acc; Some (p ++ q)) (Some []) l |}.

(** A Python slice [l[:stop]]; a negative [stop] counts from the end. *)
Definition slice_to {A} (stop : Z) (l : list A) : list A :=
  if bool_decide (0 ≤ stop)%Z then take (Z.to_nat stop) l
  else take (Z.to_nat (Z.of_nat (length l) + stop)) l.

(** The keyword arguments of the forward pass: adapter residuals by name. *)
Abbreviation pred_kwargs_t := (gmap string (list tensor)).

(** [DataLoaderBatchDTO], with the fields the modelled code reads.
    [mask_min_value] and [guidance_type] are those of
    [batch.file_items[0].dataset_config]. *)
Record Batch := {
  latents : tensor;
  unconditional_latents : option tensor;
  batch_tensor : option tensor;
  unaugmented_tensor : option tensor;
  mask_tensor : option tensor;
  sigmas : option tensor;
  caption_list : list string;
  is_reg_list : list bool;
  loss_multiplier_list : list Qc;
  network_weight_list : list Qc;
  mask_min_value : Qc;
  guidance_type : string;
}.

(** [self.train_config]. *)
Record TrainConfig := {
  loss_target : string;
  loss_type : string;
  match_noise_norm : bool;
  pred_scaler : Qc;
  correct_pred_norm : bool;
  correct_pred_norm_multiplier : Qc;
  inverted_mask_prior : bool;
  inverted_mask_prior_multiplier : Qc;
  do_prior_divergence : bool;
  train_turbo : bool;
  learnable_snr_gos : bool;
  snr_gamma : option Qc;
  min_snr_gamma : option Qc;
  latent_multiplier : Qc;
  cfg_scale : Qc;
  cfg_rescale : bool;
  reg_weight : Qc;
}.

(** [self.embed_config] and [self.adapter_config], as far as the prior
    prediction reads them. *)
Record TriggerConfig := {
  trigger : string;
  num_tokens : nat;
  trigger_class_name : option string;
}.

(** What a training step reads of [self] and of [self.sd] without changing
    it. *)
Record Settings := {
  train_config : TrainConfig;
  prediction_type : string;            (* sd.prediction_type *)
  scheduler_prediction_type : string;  (* sd.noise_scheduler.config.prediction_type *)
  is_v3 : bool;                        (* sd.is_v3 *)
  has_embedding : bool;                (* self.embedding is not None *)
  embed_config : option TriggerConfig;
  adapter_config : option TriggerConfig;
  has_assistant_adapter : bool;        (* self.assistant_adapter is not None *)
  do_prior_prediction : bool;
  do_guided_loss : bool;
  do_long_prompts : bool;
  is_grad_accumulation_step : bool;
  params_are_groups : bool;            (* isinstance(self.params[0], dict) *)
  param_groups : nat;                  (* len(self.params) *)
}.

(* ===================================================================== *)
(** * Mutable state, and the monad that threads it *)
(* ===================================================================== *)

(** [network.multiplier] holds a float or a list of per-item floats. *)
Inductive multiplier_value :=
  | MScalar (x : Qc)
  | MList (l : list Qc).

(** NetworkState: the trainable network's activation state. *)
Record Network := {
  is_active : bool;
  multiplier : multiplier_value;
}.

Inductive adapter_kind :=
  | T2IAdapter
  | ControlNetModel
  | IPAdapter
  | ReferenceAdapter
  | CustomAdapter
  | ClipVisionAdapter.

Global Instance adapter_kind_eq_dec : EqDecision adapter_kind.
Proof. solve_decision. Defined.

Record Adapter := {
  kind : adapter_kind;
  adapter_is_active : bool;
  additional_loss : option fvec;
}.

(** One call of [sd.predict_noise]: its arguments, and the state of the
    model at the moment of the call. *)
Record forward_call := {
  fc_latents : tensor;
  fc_conditional_embeddings : PromptEmbeds;
  fc_unconditional_embeddings : option PromptEmbeds;
  fc_timestep : list Z;
  fc_guidance_scale : Qc;
  fc_rescale_cfg : bool;
  fc_kwargs : pred_kwargs_t;
  fc_grad_enabled : bool;
  fc_network : option Network;
  fc_adapter : option Adapter;
  fc_unet_training : bool;
}.

(** What a step does that is visible outside the values it computes. *)
Inductive event :=
  | EvForward (c : forward_call)
  | EvEncodePrompt (prompts : list string)
  | EvBackward (value : fnum) (into_params : bool)
  | EvPrint (msg : string)
  | EvClipGradNorm
  | EvOptimizerStep
  | EvZeroGrad
  | EvSchedulerStep
  | EvRestoreEmbeddings
  | EvRestoreAdapterEmbeddings.

Record trainer := {
  network : option Network;
  adapter : option Adapter;
  unet_training : bool;
  grad_enabled : bool;
  trace : list event;
}.

Definition M (A : Type) : Type := trainer → result A * trainer.

Global Instance M_ret : MRet M := λ A a s, (Ok a, s).
Global Instance M_bind : MBind M := λ A B f m s,
  match m s with
  | (Ok a, s') => f a s'
  | (Raise e, s') => (Raise e, s')
  end.

Definition raise {A} (e : exn) : M A := λ s, (Raise e, s).
Definition get : M trainer := λ s, (Ok s, s).
Definition modify (f : trainer → trainer) : M unit := λ s, (Ok (), f s).
Definition lift {A} (r : result A) : M A := λ s, (r, s).

Definition set_network (n : option Network) (s : trainer) : trainer :=
  {| network := n; adapter := adapter s; unet_training := unet_training s;
     grad_enabled := grad_enabled s; trace := trace s |}.
Definition set_adapter (a : option Adapter) (s : trainer) : trainer :=
  {| network := network s; adapter := a; unet_training := unet_training s;
     grad_enabled := grad_enabled s; trace := trace s |}.
Definition set_unet_training (b : bool) (s : trainer) : trainer :=
  {| network := network s; adapter := adapter s; unet_training := b;
     grad_enabled := grad_enabled s; trace := trace s |}.
Definition set_grad_enabled (b : bool) (s : trainer) : trainer :=
  {| network := network s; adapter := adapter s; unet_training := unet_training s;
     grad_enabled := b; trace := trace s |}.
Definition log (e : event) (s : trainer) : trainer :=
  {| network := network s; adapter := adapter s; unet_training := unet_training s;
     grad_enabled := grad_enabled s; trace := trace s ++ [e] |}.

(** [with torch.no_grad():] the grad mode is off inside the block and is
    put back when the block is left, by return or by exception. *)
Definition no_grad {A} (body : M A) : M A := λ s,
  let prev := grad_enabled s in
  let '(r, s') := body (set_grad_enabled false s) in
  (r, set_grad_enabled prev s').

(** [sd.unet.train()] and [sd.unet.eval()]. *)
Definition unet_train : M unit := modify (set_unet_training true).
Definition unet_eval : M unit := modify (set_unet_training false).

(** [network.is_active = b] and [network.multiplier = m]; on a missing
    network ([None]) the assignment raises. *)
Definition set_network_is_active (b : bool) : M unit := λ s,
  match network s with
  | Some n => (Ok (), set_network (Some {| is_active := b; multiplier := multiplier n |}) s)
  | None => (Raise (AttributeError "'NoneType' object has no attribute 'is_active'"), s)
  end.
Definition set_network_multiplier (m : multiplier_value) : M unit := λ s,
  match network s with
  | Some n => (Ok (), set_network (Some {| is_active := is_active n; multiplier := m |}) s)
  | None => (Raise (AttributeError "'NoneType' object has no attribute 'multiplier'"), s)
  end.

(** [adapter.is_active = b], for an adapter that is there. *)
Definition set_adapter_is_active (b : bool) : M unit :=
  modify (λ s, set_adapter
    ((λ a, {| kind := kind a; adapter_is_active := b;
              additional_loss := additional_loss a |}) <$> adapter s) s).

(** A prediction, and whether autograd tracks it back to the trainable
    parameters. *)
Record prediction := {
  pred_data : tensor;
  pred_tracked : bool;
}.

(** A loss scalar.  [attached] says that its graph leads to the trainable
    parameters, so that [backward] accumulates into their gradients. *)
Record scalar := {
  value : fnum;
  requires_grad : bool;
  attached : bool;
}.

(** [loss.backward()]: a tensor that does not require grad has nothing to
    differentiate, and torch raises. *)
Definition backward (loss : scalar) : M unit :=
  if requires_grad loss
  then modify (log (EvBackward (value loss) (attached loss)))
  else raise (RuntimeError "element 0 of tensors does not require grad and does not have a grad_fn").

(** [loss.detach()] and [loss.requires_grad_(True)] (on a detached tensor). *)
Definition detach (loss : scalar) : scalar :=
  {| value := value loss; requires_grad := false; attached := false |}.
Definition requires_grad_ (b : bool) (loss : scalar) : scalar :=
  {| value := value loss; requires_grad := b; attached := attached loss |}.

(** [loss * c], with [c] a tensor outside the graph. *)
Definition loss_times (loss : scalar) (c : fnum) : scalar :=
  {| value := fmul (value loss) c; requires_grad := requires_grad loss;
     attached := attached loss |}.

(** [torch.zeros_like(loss)]. *)
Definition zeros_like (loss : scalar) : scalar :=
  {| value := Fin 0; requires_grad := false; attached := false |}.

(* ===================================================================== *)
(** * The denoising model and the library primitives *)
(* ===================================================================== *)

(** The collaborators of the step: the denoising model service ([sd]), its
    noise scheduler, and the helpers of [toolkit.train_tools].  A forward
    pass may fail; whatever it raises passes through the caller. *)
Class Backend := {
  (** the forward pass behind [sd.predict_noise] *)
  unet_forward : forward_call → result tensor;
  (** [sd.encode_prompt(prompts, long_prompts=...)] *)
  sd_encode_prompt : list string → bool → result PromptEmbeds;
  (** [sd.add_noise(latents, noise, timesteps)] *)
  add_noise : tensor → tensor → list Z → tensor;
  (** [sd.encode_images(pixels)] *)
  encode_images : option tensor → tensor;
  (** [sd.noise_scheduler.get_velocity(sample, noise, timesteps)] *)
  get_velocity : tensor → tensor → list Z → tensor;
  (** [torch.sqrt] *)
  fsqrt : fnum → fnum;
  (** [torch.nn.functional.interpolate(m, size=(h, w), mode='nearest')],
      to the spatial size of the second tensor *)
  interpolate_like : tensor → tensor → tensor;
  (** [self.process_output_for_turbo(pred, noisy_latents, timesteps, noise,
      batch)], lines 147-236: a scheduler step and a VAE decoding *)
  process_output_for_turbo : tensor → tensor → list Z → tensor → Batch → tensor * tensor;
  (** [apply_learnable_snr_gos(loss, timesteps, self.snr_gos)] *)
  apply_learnable_snr_gos : fvec → list Z → fvec;
  (** [apply_snr_weight(loss, timesteps, scheduler, gamma, fixed=...)] *)
  apply_snr_weight : fvec → list Z → Qc → bool → fvec;
  (** the per-item loss of the flow-matching branch ([sd.is_v3], lines
      371-391 and what follows them up to [loss.mean([1, 2, 3])]): the loss
      is reshaped to rank 2 there, and its broadcast against the mask is
      left to the backend *)
  flow_matching_item_loss : tensor → tensor → list Z → tensor → option tensor → fvec;
}.

(** [t.mean()]: the mean of all elements. *)
Definition mean_all (t : tensor) : fnum := fmean (concat (concat t)).

(** A tensor of shape (b, c, p). *)
Definition has_shape (b c p : nat) (t : tensor) : Prop :=
  length t = b ∧ Forall (λ item, length item = c ∧ Forall (λ ch, length ch = p) item) t.

(** A tensor without NaN, and a float that is a number and not negative. *)
Definition finite (t : tensor) : Prop :=
  Forall (Forall (Forall (λ x, isnan x = false))) t.
Definition nonneg (x : fnum) : Prop :=
  match x with Fin q => 0 ≤ q | NaN => False end.

(** What a call leaves of a network or an adapter that it switched off and
    did not switch on again. *)
Definition deactivated (n : Network) : Network :=
  {| is_active := false; multiplier := multiplier n |}.
Definition switched_off (a : Adapter) : Adapter :=
  match kind a with
  | IPAdapter | ReferenceAdapter | CustomAdapter =>
      {| kind := kind a; adapter_is_active := false;
         additional_loss := additional_loss a |}
  | _ => a
  end.

Definition is_forward (e : event) : Prop :=
  match e with EvForward _ => True | _ => False end.
Definition is_print (e : event) : Prop :=
  match e with EvPrint _ => True | _ => False end.

(** What a strategy that backpropagates on its own leaves behind: forward
    passes, then one backward pass into the parameters, on the value of the
    loss that it returns detached and requiring grad. *)
Definition backpropagated_inside (s s' : trainer) (loss : scalar) : Prop :=
  requires_grad loss = true ∧ attached loss = false ∧
  ∃ forwards, Forall is_forward forwards ∧
              trace s' = trace s ++ forwards ++ [EvBackward (value loss) true].

(** The weights of a polarized pair: the weights scaled by [k], followed by
    the weights scaled by [- k]. *)
Definition polarized (k : Qc) (weights : list Qc) : list Qc :=
  ((λ weight, weight * k) <$> weights) ++ ((λ weight, weight * - k) <$> weights).

(** The loss before its reduction: a tensor of the shape of the prediction,
    or, for a flow-matching model, the rank-2 tensor that is left to the
    backend. *)
Inductive unreduced :=
  | Elementwise (loss : tensor)
  | FlowMatching.

Section Trainer.
Context `{!Backend}.

(* =================================================================== *)
(** * The loss algebra: [SDTrainer.calculate_loss], lines 239-452 *)
(* =================================================================== *)

(** [torch.linalg.vector_norm(t, ord=2, dim=(1, 2, 3), keepdim=True)]. *)
Definition vector_norm (t : tensor) : tensor :=
  (λ item, [[fsqrt (fsum (fsquare <$> concat item))]]) <$> t.

(** [t.std([2, 3], keepdim=True)]: the unbiased estimate. *)
Definition fstd (px : fvec) : fnum :=
  let m := fmean px in
  fsqrt (fdiv (fsum ((λ x, fsquare (fsub x m)) <$> px))
              (of_nat (length px - 1))).
Definition std23 (t : tensor) : tensor := map (map (λ px, [fstd px])) t.

(** Lines 262-269: norm matching, then prediction scaling. *)
Definition scale_prediction (tc : TrainConfig) (noise noise_pred : tensor)
    : tensor :=
  let noise_pred :=
    if match_noise_norm tc then
      let noise_norm := vector_norm noise in
      let noise_pred_norm := vector_norm noise_pred in
      tmul noise_pred (tdiv noise_norm noise_pred_norm)
    else noise_pred in
  if bool_decide (pred_scaler tc ≠ 1)
  then tscale (pred_scaler tc) noise_pred
  else noise_pred.

(** Lines 277-295: the noise, moved to a mean and deviation between those
    of the prediction and those of the prior prediction. *)
Definition correct_noise_norm (tc : TrainConfig)
    (prior_pred noise_pred noise : tensor) : tensor :=
  let prior_mean := mean23 prior_pred in
  let prior_std := std23 prior_pred in
  let noise_mean := mean23 noise_pred in
  let noise_std := std23 noise_pred in
  let mean_adjust := tsub prior_mean noise_mean in
  let std_adjust := tsub prior_std noise_std in
  let mean_adjust := tscale (correct_pred_norm_multiplier tc) mean_adjust in
  let std_adjust := tscale (correct_pred_norm_multiplier tc) std_adjust in
  let target_mean := tadd noise_mean mean_adjust in
  let target_std := tadd noise_std std_adjust in
  let eps := Q2Qc (1 # 100000) in
  let noise := tdiv (tsub noise noise_mean) (tshift eps noise_std) in
  let noise := tadd (tmul noise (tshift eps target_std)) target_mean in
  noise.

(** Lines 271-329: the regression target.  The block also replaces
    [noise] (norm correction) and sets [prior_mask_multiplier]; the three
    are returned in this order. *)
Definition select_target (self : Settings) (noise_pred noise : tensor)
    (timesteps : list Z) (batch : Batch) (mask_multiplier : tensor)
    (prior_pred : option tensor)
    : result (tensor * tensor * option tensor) :=
  let tc := train_config self in
  let is_reg := existsb id (is_reg_list batch) in
  let has_mask := bool_decide (is_Some (mask_tensor batch)) in
  let has_prior := bool_decide (is_Some prior_pred) in
  (* the two last branches of the chain: velocity, else the raw noise *)
  let velocity_or_noise :=
    if String.eqb (prediction_type self) "v_prediction" then
      match batch_tensor batch with
      | Some imgs => Ok (get_velocity imgs noise timesteps, noise, None)
      | None => Raise (AttributeError "'NoneType' object has no attribute 'device'")
      end
    else Ok (noise, noise, None) in
  if correct_pred_norm tc || (inverted_mask_prior tc && has_prior && has_mask) then
    let noise :=
      if correct_pred_norm tc && negb is_reg then
        match prior_pred with
        | Some prior_pred => correct_noise_norm tc prior_pred noise_pred noise
        | None => noise
        end
      else noise in
    if inverted_mask_prior tc && has_prior && has_mask then
      if train_turbo tc then Raise AssertionError else
      let stretched_mask_multiplier :=
        tvalue_map mask_multiplier (mask_min_value batch) 1 0 1 in
      let prior_mask_multiplier :=
        tmap (λ x, fsub (Fin 1) x) stretched_mask_multiplier in
      (* target = noise *)
      Ok (noise, noise, Some prior_mask_multiplier)
    else
      (* target is None: target = noise *)
      Ok (noise, noise, None)
  else
    match prior_pred with
    | Some prior_pred =>
        if negb (do_prior_divergence tc) then
          if train_turbo tc then Raise AssertionError else
          Ok (prior_pred, noise, None)
        else velocity_or_noise
    | None => velocity_or_noise
    end.

(** Lines 338-396: the loss per element.  [noise_pred] is the scaled
    prediction, [pred] and [target] are those left by the turbo step. *)
Definition elementwise_loss (self : Settings)
    (noise_pred pred target noise noisy_latents : tensor)
    (timesteps : list Z) (batch : Batch) : result unreduced :=
  let tc := train_config self in
  if String.eqb (loss_target tc) "source" || String.eqb (loss_target tc) "unaugmented" then
    if train_turbo tc then Raise AssertionError else
    match sigmas batch with
    | None => Raise (ValueError "Batch sigmas is None. This should not happen")
    | Some sigmas =>
        let denoised_latents := tadd (tmul noise_pred (tmap fneg sigmas)) noisy_latents in
        let weighing := tmap finv_square sigmas in
        let finish target :=
          Ok (Elementwise (tmul weighing (tmap fsquare (tsub denoised_latents target)))) in
        if String.eqb (loss_target tc) "source" then
          finish (latents batch)
        else
          let unaugmented_latents := encode_images (unaugmented_tensor batch) in
          let unaugmented_latents := tscale (latent_multiplier tc) unaugmented_latents in
          let target := unaugmented_latents in
          if String.eqb (scheduler_prediction_type self) "epsilon" then
            finish target
          else if String.eqb (scheduler_prediction_type self) "v_prediction" then
            finish (get_velocity target noise timesteps)
          else Raise (ValueError ("Unknown prediction type " +:+ scheduler_prediction_type self))
    end
  else if is_v3 self then
    Ok FlowMatching
  else if String.eqb (loss_type tc) "mae" then
    Ok (Elementwise (l1_loss pred target))
  else
    Ok (Elementwise (mse_loss pred target)).

(** Lines 398-399: the prior-divergence term. *)
Definition prior_divergence (tc : TrainConfig) (pred : tensor)
    (prior_pred : option tensor) (loss : tensor) : tensor :=
  match prior_pred with
  | Some prior_pred =>
      if do_prior_divergence tc
      then tadd loss (tscale (-1) (mse_loss pred prior_pred))
      else loss
  | None => loss
  end.

(** Lines 407, 426 and 428: [loss = loss * mask_multiplier],
    [loss = loss.mean([1, 2, 3])], [loss = loss * loss_multiplier]. *)
Definition masked_item_loss (loss mask_multiplier : tensor)
    (loss_multiplier : fvec) : fvec :=
  let loss := tmul loss mask_multiplier in
  let loss := mean123 loss in
  vzip fmul loss loss_multiplier.

(** Lines 409-425: the loss against the prior prediction outside the
    mask. *)
Definition inverted_mask_prior_loss (tc : TrainConfig) (pred : tensor)
    (prior_pred prior_mask_multiplier : option tensor) : M (option fvec) :=
  match prior_pred, prior_mask_multiplier with
  | Some prior_pred, Some prior_mask_multiplier =>
      if inverted_mask_prior tc then
        if train_turbo tc then raise AssertionError else
        let prior_loss :=
          if String.eqb (loss_type tc) "mae"
          then l1_loss pred prior_pred
          else mse_loss pred prior_pred in
        let prior_loss :=
          tscale (inverted_mask_prior_multiplier tc)
                 (tmul prior_loss prior_mask_multiplier) in
        if any_nan prior_loss then
          modify (log (EvPrint "Prior loss is nan"));; mret None
        else mret (Some (mean123 prior_loss))
      else mret None
  | _, _ => mret None
  end.

(** Lines 432-442: at most one signal-to-noise reweighting. *)
Definition gamma_set (g : option Qc) : option Qc :=
  g' ← g; if bool_decide (Q2Qc (1 # 1000000) < g') then Some g' else None.

Definition snr_weighting (self : Settings) (loss : fvec) (timesteps : list Z)
    : fvec :=
  let tc := train_config self in
  if train_turbo tc then loss
  else if learnable_snr_gos tc then apply_learnable_snr_gos loss timesteps
  else match gamma_set (snr_gamma tc) with
       | Some g => apply_snr_weight loss timesteps g true
       | None =>
           match gamma_set (min_snr_gamma tc) with
           | Some g => apply_snr_weight loss timesteps g false
           | None => loss
           end
       end.

(** Lines 446-450: the loss an auxiliary module left on the adapter is
    added once and cleared. *)
Definition take_additional_loss (loss : fnum) : M fnum :=
  s ← get;
  match adapter s with
  | Some a =>
      match additional_loss a with
      | Some extra =>
          modify (set_adapter (Some {| kind := kind a;
                                       adapter_is_active := adapter_is_active a;
                                       additional_loss := None |}));;
          mret (fadd loss (fmean extra))
      | None => mret loss
      end
  | None => mret loss
  end.

(** Lines 239-452.  The loss that is returned follows the prediction in
    [requires_grad] and [attached]; that the additional loss of the
    adapter or the learnable offset of the signal-to-noise weighting can
    attach it on their own is not modelled. *)
Definition calculate_loss (self : Settings) (noise_pred : prediction)
    (noise noisy_latents : tensor) (timesteps : list Z) (batch : Batch)
    (mask_multiplier : tensor) (prior_pred : option tensor) : M scalar :=
  let tc := train_config self in
  let loss_multiplier := Fin <$> loss_multiplier_list batch in
  let tracked := pred_tracked noise_pred in
  let noise_pred := scale_prediction tc noise (pred_data noise_pred) in
  '(target, noise, prior_mask_multiplier) ←
    lift (select_target self noise_pred noise timesteps batch mask_multiplier prior_pred);
  let pred := noise_pred in
  let '(pred, target) :=
    if train_turbo tc
    then process_output_for_turbo pred noisy_latents timesteps noise batch
    else (pred, target) in
  loss ← lift (elementwise_loss self noise_pred pred target noise noisy_latents timesteps batch);
  let mask_multiplier :=
    if train_turbo tc
    then interpolate_like (map (drop 3) mask_multiplier) pred
    else mask_multiplier in
  let loss :=
    match loss with
    | Elementwise loss =>
        let loss := prior_divergence tc pred prior_pred loss in
        masked_item_loss loss mask_multiplier loss_multiplier
    | FlowMatching =>
        let loss := flow_matching_item_loss pred noisy_latents timesteps
                      mask_multiplier
                      (if do_prior_divergence tc then prior_pred else None) in
        vzip fmul loss loss_multiplier
    end in
  prior_loss ← inverted_mask_prior_loss tc pred prior_pred prior_mask_multiplier;
  let loss :=
    match prior_loss with
    | Some prior_loss => vzip fadd loss prior_loss
    | None => loss
    end in
  let loss := snr_weighting self loss timesteps in
  let loss := fmean loss in
  loss ← take_additional_loss loss;
  mret {| value := loss; requires_grad := tracked; attached := tracked |}.

(* =================================================================== *)
(** * The forward pass *)
(* =================================================================== *)

(** [sd.predict_noise(latents=..., conditional_embeddings=...,
    unconditional_embeddings=..., timestep=..., guidance_scale=...,
    rescale_cfg=..., **pred_kwargs)].  The call is recorded with the
    state of the model it runs on; its result is tracked by autograd when
    the grad mode is on. *)
Definition predict_noise (latents : tensor) (conditional_embeddings : PromptEmbeds)
    (unconditional_embeddings : option PromptEmbeds) (timestep : list Z)
    (guidance_scale : Qc) (rescale_cfg : bool) (kwargs : pred_kwargs_t)
    : M prediction := λ s,
  let call := {| fc_latents := latents;
                 fc_conditional_embeddings := conditional_embeddings;
                 fc_unconditional_embeddings := unconditional_embeddings;
                 fc_timestep := timestep;
                 fc_guidance_scale := guidance_scale;
                 fc_rescale_cfg := rescale_cfg;
                 fc_kwargs := kwargs;
                 fc_grad_enabled := grad_enabled s;
                 fc_network := network s;
                 fc_adapter := adapter s;
                 fc_unet_training := unet_training s |} in
  match unet_forward call with
  | Ok data => (Ok {| pred_data := data; pred_tracked := grad_enabled s |},
                log (EvForward call) s)
  | Raise e => (Raise e, log (EvForward call) s)
  end.

(** [sd.encode_prompt(prompts, long_prompts=...)]. *)
Definition encode_prompt (prompts : list string) (long_prompts : bool)
    : M PromptEmbeds := λ s,
  (sd_encode_prompt prompts long_prompts, log (EvEncodePrompt prompts) s).

(* =================================================================== *)
(** * The prior prediction: [SDTrainer.get_prior_prediction],
      lines 758-870 *)
(* =================================================================== *)

(** Line 780: the adapters whose [is_active] flag the oracle switches. *)
Definition can_disable (k : adapter_kind) : bool :=
  match k with
  | IPAdapter | ReferenceAdapter | CustomAdapter => true
  | _ => false
  end.

Definition is_kind (k : adapter_kind) (a : option Adapter) : bool :=
  match a with
  | Some a => bool_decide (kind a = k)
  | None => false
  end.

(** [f"{trigger}_{i}" for i in range(1, tokens)]. *)
Definition numbered_tokens (c : TriggerConfig) : list string :=
  (λ i : nat, trigger c +:+ "_" +:+ pretty i) <$> seq 1 (num_tokens c - 1).

(** Lines 795-820: the captions with the trigger words replaced by the
    class name. *)
Definition prior_prompts (self : Settings) (has_adapter : bool)
    (batch : Batch) : result (list string) :=
  let prompt_list := caption_list batch in
  let class_name := EmptyString in
  let triggers := ["[trigger]"; "[name]"] in
  let remove_tokens := [] in
  let '(triggers, remove_tokens, class_name) :=
    match embed_config self with
    | Some c => (triggers ++ [trigger c], remove_tokens ++ numbered_tokens c,
                 default class_name (trigger_class_name c))
    | None => (triggers, remove_tokens, class_name)
    end in
  let rewrite triggers remove_tokens class_name :=
    (λ prompt,
       let prompt := foldl (λ p remove_token, str_replace remove_token EmptyString p)
                           prompt remove_tokens in
       foldl (λ p trigger, str_replace trigger class_name p) prompt triggers)
    <$> prompt_list in
  if has_adapter then
    match adapter_config self with
    | Some c =>
        Ok (rewrite (triggers ++ [trigger c]) (remove_tokens ++ numbered_tokens c)
                    (default class_name (trigger_class_name c)))
    | None => Raise (AttributeError "'NoneType' object has no attribute 'trigger'")
    end
  else Ok (rewrite triggers remove_tokens class_name).

(** Lines 832-839: for an IP adapter the image tokens are cut off the
    embeddings. *)
Definition strip_image_tokens (self : Settings) (embeds_to_use : PromptEmbeds)
    (unconditional_embeds : option PromptEmbeds)
    : result (PromptEmbeds * option PromptEmbeds) :=
  match adapter_config self with
  | Some c =>
      let tokens := length (default [] (head (text_embeds embeds_to_use))) in
      let end_pos := (Z.of_nat tokens - Z.of_nat (num_tokens c))%Z in
      let cut e := {| text_embeds := slice_to end_pos <$> text_embeds e;
                      pooled_embeds := pooled_embeds e |} in
      Ok (cut embeds_to_use, cut <$> unconditional_embeds)
  | None => Raise (AttributeError "'NoneType' object has no attribute 'num_tokens'")
  end.

(** Lines 857-862: the residuals that only apply when matching the
    assistant adapter are deleted from the caller's dictionary. *)
Definition strip_residuals (match_adapter_assist : bool)
    (pred_kwargs : pred_kwargs_t) : pred_kwargs_t :=
  if match_adapter_assist then
    delete "mid_block_additional_residual"
      (delete "down_block_additional_residuals"
        (delete "down_intrablock_additional_residuals" pred_kwargs))
  else pred_kwargs.

(** The function returns [prior_pred]; the dictionary [pred_kwargs] is
    the caller's own object, so what is left of it is returned too. *)
Definition get_prior_prediction (self : Settings) (noisy_latents : tensor)
    (conditional_embeds : PromptEmbeds) (match_adapter_assist : bool)
    (network_weight_list : list Qc) (timesteps : list Z)
    (pred_kwargs : pred_kwargs_t) (batch : Batch) (noise : tensor)
    (unconditional_embeds : option PromptEmbeds)
    : M (tensor * pred_kwargs_t) :=
  s ← get;
  let was_unet_training := unet_training s in
  was_network_active ←
    match network s with
    | Some n => set_network_is_active false;; mret (is_active n)
    | None => mret false
    end;
  '(can_disable_adapter, was_adapter_active) ←
    (match adapter s with
     | Some a =>
         if can_disable (kind a)
         then set_adapter_is_active false;; mret (true, adapter_is_active a)
         else mret (false, false)
     | None => mret (false, false)
     end : M (bool * bool));
  no_grad (
    let embeds_to_use := conditional_embeds in
    embeds_to_use ←
      (if is_kind ClipVisionAdapter (adapter s) || has_embedding self then
         prompt_list ← lift (prior_prompts self
                               (bool_decide (is_Some (adapter s))) batch);
         encode_prompt prompt_list (do_long_prompts self)
       else mret embeds_to_use);
    unet_eval;;
    '(embeds_to_use, unconditional_embeds) ←
      (if is_kind IPAdapter (adapter s)
       then lift (strip_image_tokens self embeds_to_use unconditional_embeds)
       else mret (embeds_to_use, unconditional_embeds));
    prior_pred ← predict_noise noisy_latents embeds_to_use unconditional_embeds
                    timesteps (cfg_scale (train_config self))
                    (cfg_rescale (train_config self)) pred_kwargs;
    (if was_unet_training then unet_train else mret ());;
    let prior_pred := pred_data prior_pred in
    let pred_kwargs := strip_residuals match_adapter_assist pred_kwargs in
    (if can_disable_adapter : bool
     then set_adapter_is_active was_adapter_active
     else mret ());;
    (match network s with
     | Some _ => set_network_is_active was_network_active
     | None => mret ()
     end);;
    mret (prior_pred, pred_kwargs)).

(* =================================================================== *)
(** * The guidance strategies: [toolkit/guidance.py] *)
(* =================================================================== *)

(** [DIFFERENTIAL_SCALER = 0.2]. *)
Definition DIFFERENTIAL_SCALER : Qc := Q2Qc (2 # 10).

(** [batch.unconditional_latents.to(...)]: the attribute is [None] for a
    batch without unconditional images. *)
Definition unconditional_latents_of (batch : Batch) : M tensor :=
  match unconditional_latents batch with
  | Some t => mret t
  | None => raise (AttributeError "'NoneType' object has no attribute 'to'")
  end.

(** The end that the strategies share (for instance guidance.py lines
    374-381): [loss = loss.mean()], [loss.backward()], then the loss is
    detached and made to require grad again. *)
Definition backward_and_detach (loss : fvec) (tracked : bool) : M scalar :=
  let loss := {| value := fmean loss; requires_grad := tracked;
                 attached := tracked |} in
  backward loss;;
  let loss := detach loss in
  let loss := requires_grad_ true loss in
  mret loss.

(** guidance.py, lines 300-381. *)
Definition get_guided_loss_polarity (noisy_latents : tensor)
    (conditional_embeds : PromptEmbeds) (match_adapter_assist : bool)
    (network_weight_list : list Qc) (timesteps : list Z)
    (pred_kwargs : pred_kwargs_t) (batch : Batch) (noise : tensor)
    : M scalar :=
  '(cat_embeds, cat_latents, cat_timesteps) ← no_grad (
    let conditional_latents := latents batch in
    unconditional_latents ← unconditional_latents_of batch;
    let conditional_noisy_latents := add_noise conditional_latents noise timesteps in
    let unconditional_noisy_latents := add_noise unconditional_latents noise timesteps in
    (* double up everything to run it through all at once *)
    let cat_embeds := concat_prompt_embeds [conditional_embeds; conditional_embeds] in
    let cat_latents := conditional_noisy_latents ++ unconditional_noisy_latents in
    let cat_timesteps := timesteps ++ timesteps in
    let negative_network_weights := (λ weight, weight * -1) <$> network_weight_list in
    let positive_network_weights := (λ weight, weight * 1) <$> network_weight_list in
    let cat_network_weight_list := positive_network_weights ++ negative_network_weights in
    (* turn the LoRA network back on *)
    unet_train;;
    set_network_is_active true;;
    set_network_multiplier (MList cat_network_weight_list);;
    mret (cat_embeds, cat_latents, cat_timesteps));
  prediction ← predict_noise cat_latents cat_embeds None cat_timesteps 1 false pred_kwargs;
  '(pred_pos, pred_neg) ← lift (chunk2 (pred_data prediction));
  let pred_loss := mse_loss pred_pos noise in
  let pred_loss := mean123 pred_loss in
  let pred_neg_loss := mse_loss pred_neg noise in
  let pred_neg_loss := mean123 pred_neg_loss in
  let loss := vzip fadd pred_loss pred_neg_loss in
  backward_and_detach loss (pred_tracked prediction).

(** guidance.py, lines 55-184. *)
Definition get_targeted_polarity_loss (noisy_latents : tensor)
    (conditional_embeds : PromptEmbeds) (match_adapter_assist : bool)
    (network_weight_list : list Qc) (timesteps : list Z)
    (pred_kwargs : pred_kwargs_t) (batch : Batch) (noise : tensor)
    : M scalar :=
  '(cat_embeds, cat_latents, cat_timesteps, conditional_noise, unconditional_noise) ←
    no_grad (
      let conditional_latents := latents batch in
      unconditional_latents ← unconditional_latents_of batch;
      let differential_scaler := DIFFERENTIAL_SCALER in
      let unconditional_diff := tsub unconditional_latents conditional_latents in
      let unconditional_diff_noise := tscale differential_scaler unconditional_diff in
      let conditional_diff := tsub conditional_latents unconditional_latents in
      let conditional_diff_noise := tscale differential_scaler conditional_diff in
      let conditional_noise := tadd noise unconditional_diff_noise in
      let unconditional_noise := tadd noise conditional_diff_noise in
      let conditional_noisy_latents :=
        add_noise conditional_latents conditional_noise timesteps in
      let unconditional_noisy_latents :=
        add_noise unconditional_latents unconditional_noise timesteps in
      let cat_embeds := concat_prompt_embeds [conditional_embeds; conditional_embeds] in
      let cat_latents := conditional_noisy_latents ++ unconditional_noisy_latents in
      let cat_timesteps := timesteps ++ timesteps in
      (* Disable the LoRA network *)
      set_network_is_active false;;
      unet_eval;;
      let negative_network_weights := (λ weight, weight * -1) <$> network_weight_list in
      let positive_network_weights := (λ weight, weight * 1) <$> network_weight_list in
      let cat_network_weight_list := positive_network_weights ++ negative_network_weights in
      (* turn the LoRA network back on *)
      unet_train;;
      set_network_is_active true;;
      set_network_multiplier (MList cat_network_weight_list);;
      mret (cat_embeds, cat_latents, cat_timesteps, conditional_noise, unconditional_noise));
  prediction ← predict_noise cat_latents cat_embeds None cat_timesteps 1 false pred_kwargs;
  '(pred_pos, pred_neg) ← lift (chunk2 (pred_data prediction));
  let pred_loss := mse_loss pred_pos conditional_noise in
  let pred_loss := mean123 pred_loss in
  let pred_neg_loss := mse_loss pred_neg unconditional_noise in
  let pred_neg_loss := mean123 pred_neg_loss in
  let loss := vzip fadd pred_loss pred_neg_loss in
  backward_and_detach loss (pred_tracked prediction).

(** guidance.py, lines 188-297. *)
Definition get_targeted_guidance_loss (noisy_latents : tensor)
    (conditional_embeds : PromptEmbeds) (match_adapter_assist : bool)
    (network_weight_list : list Qc) (timesteps : list Z)
    (pred_kwargs : pred_kwargs_t) (batch : Batch) (noise : tensor)
    : M scalar :=
  '(noisy_latents, prediction_target) ← no_grad (
    let conditional_latents := latents batch in
    unconditional_latents ← unconditional_latents_of batch;
    let unconditional_diff := tsub unconditional_latents conditional_latents in
    (* scale it to the timestep *)
    let unconditional_diff_noise :=
      add_noise (tmap (λ _, Fin 0) unconditional_latents) unconditional_diff timesteps in
    let target_noise := tadd noise unconditional_diff_noise in
    let noisy_latents := add_noise conditional_latents target_noise timesteps in
    (* Disable the LoRA network *)
    set_network_is_active false;;
    unet_eval;;
    baseline_prediction ← predict_noise noisy_latents conditional_embeds None
                             timesteps 1 false pred_kwargs;
    let baseline_prediction_error := tsub (pred_data baseline_prediction) noise in
    let prediction_target := tadd baseline_prediction_error unconditional_diff_noise in
    (* turn the LoRA network back on *)
    unet_train;;
    set_network_is_active true;;
    set_network_multiplier (MList network_weight_list);;
    mret (noisy_latents, prediction_target));
  prediction ← predict_noise noisy_latents conditional_embeds None timesteps 1 false pred_kwargs;
  let prediction_error := tsub (pred_data prediction) noise in
  let guidance_loss := mse_loss prediction_error prediction_target in
  let guidance_loss := mean123 guidance_loss in
  backward_and_detach guidance_loss (pred_tracked prediction).

(** guidance.py, lines 385-441: the strategy named by the first item of
    the batch. *)
Definition get_guidance_loss (noisy_latents : tensor)
    (conditional_embeds : PromptEmbeds) (match_adapter_assist : bool)
    (network_weight_list : list Qc) (timesteps : list Z)
    (pred_kwargs : pred_kwargs_t) (batch : Batch) (noise : tensor)
    : M scalar :=
  let guidance_type := guidance_type batch in
  if String.eqb guidance_type "targeted" then
    get_targeted_guidance_loss noisy_latents conditional_embeds match_adapter_assist
      network_weight_list timesteps pred_kwargs batch noise
  else if String.eqb guidance_type "polarity" then
    get_guided_loss_polarity noisy_latents conditional_embeds match_adapter_assist
      network_weight_list timesteps pred_kwargs batch noise
  else if String.eqb guidance_type "targeted_polarity" then
    get_targeted_polarity_loss noisy_latents conditional_embeds match_adapter_assist
      network_weight_list timesteps pred_kwargs batch noise
  else
    raise (NotImplementedError ("Guidance type " +:+ guidance_type +:+ " is not implemented")).

(** SDTrainer.py, lines 457-484. *)
Definition get_guided_loss := get_guidance_loss.

(** SDTrainer.py, lines 486-601. *)
Definition get_guided_loss_targeted_polarity (noisy_latents : tensor)
    (conditional_embeds : PromptEmbeds) (match_adapter_assist : bool)
    (network_weight_list : list Qc) (timesteps : list Z)
    (pred_kwargs : pred_kwargs_t) (batch : Batch) (noise : tensor)
    : M scalar :=
  '(cat_embeds, cat_latents, cat_timesteps, baseline_prediction,
    unconditional_diff, conditional_diff) ← no_grad (
    let conditional_latents := latents batch in
    unconditional_latents ← unconditional_latents_of batch;
    let mean_latents :=
      tmap (λ x, fdiv x (Fin 2)) (tadd conditional_latents unconditional_latents) in
    let unconditional_diff := tsub unconditional_latents mean_latents in
    let conditional_diff := tsub conditional_latents mean_latents in
    let conditional_noisy_latents := add_noise mean_latents noise timesteps in
    let unconditional_noisy_latents := add_noise mean_latents noise timesteps in
    (* Disable the LoRA network *)
    set_network_is_active false;;
    unet_eval;;
    baseline_prediction ← predict_noise unconditional_noisy_latents conditional_embeds
                             None timesteps 1 false pred_kwargs;
    let cat_embeds := concat_prompt_embeds [conditional_embeds; conditional_embeds] in
    let cat_latents := conditional_noisy_latents ++ conditional_noisy_latents in
    let cat_timesteps := timesteps ++ timesteps in
    let negative_network_weights := (λ weight, weight * -2) <$> network_weight_list in
    let positive_network_weights := (λ weight, weight * 2) <$> network_weight_list in
    let cat_network_weight_list := positive_network_weights ++ negative_network_weights in
    (* turn the LoRA network back on *)
    unet_train;;
    set_network_is_active true;;
    set_network_multiplier (MList cat_network_weight_list);;
    mret (cat_embeds, cat_latents, cat_timesteps, pred_data baseline_prediction,
          unconditional_diff, conditional_diff));
  prediction ← predict_noise cat_latents cat_embeds None cat_timesteps 1 false pred_kwargs;
  '(pred_pos, pred_neg) ← lift (chunk2 (pred_data prediction));
  let pred_pos := tsub pred_pos baseline_prediction in
  let pred_neg := tsub pred_neg baseline_prediction in
  let pred_loss := mse_loss pred_pos unconditional_diff in
  let pred_loss := mean123 pred_loss in
  let pred_neg_loss := mse_loss pred_neg conditional_diff in
  let pred_neg_loss := mean123 pred_neg_loss in
  let loss := (λ x, fdiv x (Fin 2)) <$> vzip fadd pred_loss pred_neg_loss in
  backward_and_detach loss (pred_tracked prediction).

(** SDTrainer.py, lines 603-756. *)
Definition get_guided_loss_masked_polarity (noisy_latents : tensor)
    (conditional_embeds : PromptEmbeds) (match_adapter_assist : bool)
    (network_weight_list : list Qc) (timesteps : list Z)
    (pred_kwargs : pred_kwargs_t) (batch : Batch) (noise : tensor)
    : M scalar :=
  '(cat_embeds, cat_latents, cat_timesteps, differential_mask) ← no_grad (
    let conditional_latents := latents batch in
    unconditional_latents ← unconditional_latents_of batch;
    (* make a differential mask *)
    let differential_mask := tmap fabs (tsub conditional_latents unconditional_latents) in
    let max_differential := max123 differential_mask in
    let differential_scaler := tmap (λ x, fdiv (Fin 1) x) max_differential in
    let differential_mask := tmul differential_mask differential_scaler in
    let spread_point := Q2Qc (1 # 10) in
    let differential_mask :=
      tshift spread_point (tscale (Qc_of_Z 10) (tshift (- spread_point) differential_mask)) in
    let differential_mask := tmap (fclamp 0 1) differential_mask in
    let conditional_noisy_latents := add_noise conditional_latents noise timesteps in
    let unconditional_noisy_latents := add_noise unconditional_latents noise timesteps in
    (* Disable the LoRA network *)
    set_network_is_active false;;
    unet_eval;;
    let cat_embeds := concat_prompt_embeds [conditional_embeds; conditional_embeds] in
    let cat_latents := conditional_noisy_latents ++ unconditional_noisy_latents in
    let cat_timesteps := timesteps ++ timesteps in
    let negative_network_weights := (λ weight, weight * -1) <$> network_weight_list in
    let positive_network_weights := (λ weight, weight * 1) <$> network_weight_list in
    let cat_network_weight_list := positive_network_weights ++ negative_network_weights in
    (* turn the LoRA network back on *)
    unet_train;;
    set_network_is_active true;;
    set_network_multiplier (MList cat_network_weight_list);;
    mret (cat_embeds, cat_latents, cat_timesteps, differential_mask));
  prediction ← predict_noise cat_latents cat_embeds None cat_timesteps 1 false pred_kwargs;
  '(pred_pos, pred_neg) ← lift (chunk2 (pred_data prediction));
  let pred_loss := mse_loss pred_pos noise in
  (* apply mask *)
  let pred_loss := tmul pred_loss (tmap (λ m, fadd (Fin 1) m) differential_mask) in
  let pred_loss := mean123 pred_loss in
  let pred_neg_loss := mse_loss pred_neg noise in
  (* apply inverse mask *)
  let pred_neg_loss := tmul pred_neg_loss (tmap (λ m, fsub (Fin 1) m) differential_mask) in
  let pred_neg_loss := mean123 pred_neg_loss in
  let loss := vzip fadd pred_loss pred_neg_loss in
  backward_and_detach loss (pred_tracked prediction).

(** The guidance loss strategies: the three that [get_guidance_loss]
    dispatches to, and the two methods of [SDTrainer]. *)
Inductive strategy_name :=
  | Targeted
  | Polarity
  | TargetedPolarity
  | TrainerTargetedPolarity
  | TrainerMaskedPolarity.

Definition run_strategy (name : strategy_name) :=
  match name with
  | Targeted => get_targeted_guidance_loss
  | Polarity => get_guided_loss_polarity
  | TargetedPolarity => get_targeted_polarity_loss
  | TrainerTargetedPolarity => get_guided_loss_targeted_polarity
  | TrainerMaskedPolarity => get_guided_loss_masked_polarity
  end.

(** The list a strategy assigns to [network.multiplier]. *)
Definition installed_weights (name : strategy_name) (network_weight_list : list Qc)
    : list Qc :=
  match name with
  | Targeted => network_weight_list
  | TrainerTargetedPolarity => polarized 2 network_weight_list
  | _ => polarized 1 network_weight_list
  end.

(* =================================================================== *)
(** * The orchestrator: [SDTrainer.hook_train_loop], lines 881-1536 *)
(* =================================================================== *)

(** What the preparation of a (sub-)batch hands to the prediction: the
    output of [process_general_training_batch], chunked when
    [single_item_batching] is set, the encoded prompts, the mask
    multiplier and the adapter residuals.  The preparation itself (prompt
    encoding and adapter conditioning, lines 1104-1333 and 1375-1427) is
    not part of this model. *)
Record sub_batch := {
  noisy_latents_of : tensor;
  noise_of : tensor;
  timesteps_of : list Z;
  conditional_embeds_of : PromptEmbeds;
  unconditional_embeds_of : option PromptEmbeds;
  mask_multiplier_of : tensor;
  pred_kwargs_of : pred_kwargs_t;
}.

(** Lines 938-942: [torch.ones((B, 1, 1, 1))], with the items that are
    regularization images scaled by [reg_weight]. *)
Definition step_loss_multiplier (tc : TrainConfig) (batch : Batch) : tensor :=
  (λ is_reg : bool,
     [[if is_reg then fmul (Fin 1) (Fin (reg_weight tc)) else Fin 1]])
  <$> is_reg_list batch.

(** Lines 967-978: the mask multiplier of a batch of [c] latent channels:
    ones, or the mask scaled to the latents and expanded over the
    channels. *)
Definition step_mask_multiplier (batch : Batch) (noisy_latents : tensor)
    : tensor :=
  match mask_tensor batch with
  | Some mask => expand_channels (length (default [] (head noisy_latents)))
                   (interpolate_like mask noisy_latents)
  | None => ones (length noisy_latents)
  end.

(** Lines 1335-1372: whether the prior prediction is needed. *)
Definition wants_prior (self : Settings) (batch : Batch)
    (has_adapter_img match_adapter_assist is_reg : bool) (s : trainer) : bool :=
  let tc := train_config self in
  let do_reg_prior :=
    is_reg && (bool_decide (is_Some (network s)) || bool_decide (is_Some (adapter s))) in
  let do_inverted_masked_prior :=
    inverted_mask_prior tc && bool_decide (is_Some (mask_tensor batch)) in
  let do_guidance_prior :=
    bool_decide (is_Some (unconditional_latents batch))
    && String.eqb (guidance_type batch) "tnt" in
  (has_adapter_img && has_assistant_adapter self && match_adapter_assist)
  || do_prior_prediction self || do_guidance_prior || do_reg_prior
  || do_inverted_masked_prior || correct_pred_norm tc.

(** Lines 1474-1477: a NaN loss is replaced by a zero that requires
    grad. *)
Definition replace_nan (loss : scalar) : M scalar :=
  if isnan (value loss) then
    modify (log (EvPrint "loss is nan"));;
    mret (requires_grad_ true (zeros_like loss))
  else mret loss.

(** The forward pass that the direct path of the step issues (lines
    1451-1460), on the state [s]. *)
Definition direct_call (self : Settings) (x : sub_batch) (s : trainer)
    : forward_call :=
  {| fc_latents := noisy_latents_of x;
     fc_conditional_embeddings := conditional_embeds_of x;
     fc_unconditional_embeddings := unconditional_embeds_of x;
     fc_timestep := timesteps_of x;
     fc_guidance_scale := cfg_scale (train_config self);
     fc_rescale_cfg := cfg_rescale (train_config self);
     fc_kwargs := pred_kwargs_of x;
     fc_grad_enabled := grad_enabled s;
     fc_network := network s;
     fc_adapter := adapter s;
     fc_unet_training := unet_training s |}.

(** Lines 1335-1372 and 1429-1473: the loss of a sub-batch: the prior
    prediction when it is wanted, then either a guidance strategy or the
    prediction and [calculate_loss].  Between the two, lines 1375-1427
    condition a custom adapter and run a ControlNet, which puts its
    residuals into [pred_kwargs] or raises; this is not modelled, so that
    the prediction is given here the keyword arguments that the prior
    prediction has left. *)
Definition sub_batch_loss (self : Settings) (batch : Batch)
    (has_adapter_img match_adapter_assist is_reg : bool)
    (network_weight_list : list Qc) (x : sub_batch) : M scalar :=
  let tc := train_config self in
  s ← get;
  '(prior_pred, pred_kwargs) ←
    (if wants_prior self batch has_adapter_img match_adapter_assist is_reg s then
       '(prior_pred, pred_kwargs) ←
         get_prior_prediction self (noisy_latents_of x) (conditional_embeds_of x)
           match_adapter_assist network_weight_list (timesteps_of x)
           (pred_kwargs_of x) batch (noise_of x) (unconditional_embeds_of x);
       mret (Some prior_pred, pred_kwargs)
     else mret (None, pred_kwargs_of x));
  if bool_decide (is_Some (unconditional_latents batch)) || do_guided_loss self then
    (* do guided loss *)
    get_guided_loss (noisy_latents_of x) (conditional_embeds_of x)
      match_adapter_assist network_weight_list (timesteps_of x) pred_kwargs
      batch (noise_of x)
  else
    noise_pred ← predict_noise (noisy_latents_of x) (conditional_embeds_of x)
                   (unconditional_embeds_of x) (timesteps_of x)
                   (cfg_scale tc) (cfg_rescale tc) pred_kwargs;
    calculate_loss self noise_pred (noise_of x) (noisy_latents_of x)
      (timesteps_of x) batch (mask_multiplier_of x) prior_pred.

(** Lines 1474-1490: the NaN check, the multiplication by the mean of the
    loss multiplier, and the backward pass. *)
Definition backward_loss (loss_multiplier : tensor) (loss : scalar) : M scalar :=
  (* check if nan *)
  loss ← replace_nan loss;
  let loss := loss_times loss (mean_all loss_multiplier) in
  backward loss;;
  mret loss.

(** The body of the loop over the sub-batches.  It runs inside
    [with network:]; what entering and leaving that context does is
    defined by the network class, which is not among the sources. *)
Definition train_sub_batch (self : Settings) (batch : Batch)
    (has_adapter_img match_adapter_assist is_reg : bool)
    (network_weight_list : list Qc) (loss_multiplier : tensor)
    (x : sub_batch) : M scalar :=
  loss ← sub_batch_loss self batch has_adapter_img match_adapter_assist is_reg
           network_weight_list x;
  backward_loss loss_multiplier loss.

(** The loop of line 1085; [loss] is the loss of the last sub-batch. *)
Fixpoint train_sub_batches (self : Settings) (batch : Batch)
    (has_adapter_img match_adapter_assist is_reg : bool)
    (network_weight_list : list Qc) (loss_multiplier : tensor)
    (xs : list sub_batch) (loss : option scalar) : M (option scalar) :=
  match xs with
  | [] => mret loss
  | x :: xs =>
      loss ← train_sub_batch self batch has_adapter_img match_adapter_assist
               is_reg network_weight_list loss_multiplier x;
      train_sub_batches self batch has_adapter_img match_adapter_assist is_reg
        network_weight_list loss_multiplier xs (Some loss)
  end.

(** Lines 1498-1502: [clip_grad_norm_] on each parameter group, or once on
    the flat list of parameters. *)
Definition clip_grad_norms (groups : nat) (s : trainer) : trainer :=
  foldr (λ _, log EvClipGradNorm) s (seq 0 groups).

(** Lines 1495-1536: gradient clipping and the optimizer step unless the
    step accumulates, the scheduler step, the restoring of embedding
    rows; the result is [loss.item()]. *)
Definition finish_step (self : Settings) (loss : option scalar) : M fnum :=
  (if negb (is_grad_accumulation_step self) then
     modify (clip_grad_norms (if params_are_groups self then param_groups self else 1));;
     modify (log EvOptimizerStep);;
     modify (log EvZeroGrad)
   else mret ());;
  modify (log EvSchedulerStep);;
  (if has_embedding self then modify (log EvRestoreEmbeddings) else mret ());;
  s ← get;
  (if is_kind ClipVisionAdapter (adapter s)
   then modify (log EvRestoreAdapterEmbeddings) else mret ());;
  match loss with
  | Some loss => mret (value loss)
  | None => raise (NameError "local variable 'loss' referenced before assignment")
  end.

(** Lines 1026-1033: the weights of the batch are put on the network and
    the gradients are cleared.  A missing network is replaced by a
    [BlankNetwork], which takes the assignment and forgets it. *)
Definition set_step_weights (network_weight_list : list Qc) : M unit :=
  s ← get;
  (match network s with
   | Some _ => set_network_multiplier (MList network_weight_list)
   | None => mret ()
   end);;
  modify (log EvZeroGrad).

(** Line 905-907. *)
Definition step_weights (single_item_batching : bool) (batch : Batch)
    : list Qc :=
  let network_weight_list := network_weight_list batch in
  if single_item_batching
  then network_weight_list ++ network_weight_list
  else network_weight_list.

(** The step, from the setting of the network weights on (line 1026): the
    loop over the prepared sub-batches and what follows it.  What comes
    before (lines 881-1025: the preprocessing of the batch, the timestep
    sampling, the checks of lines 919-921), the split into sub-batches
    (lines 1035-1083) and the preparation of each sub-batch are not part
    of it, nor are the exceptions that they raise. *)
Definition hook_train_loop (self : Settings) (batch : Batch)
    (single_item_batching has_adapter_img match_adapter_assist : bool)
    (xs : list sub_batch) : M fnum :=
  let tc := train_config self in
  let network_weight_list := step_weights single_item_batching batch in
  let is_reg := existsb id (is_reg_list batch) in
  let loss_multiplier := step_loss_multiplier tc batch in
  set_step_weights network_weight_list;;
  loss ← train_sub_batches self batch has_adapter_img match_adapter_assist is_reg
           network_weight_list loss_multiplier xs None;
  finish_step self loss.

(* =================================================================== *)
(** * The specification's wording, where it is compared with the code *)
(* =================================================================== *)

(** Section 4.2, stage 3 (b): "masked blend of noise and prior
    prediction". *)
Definition masked_blend (noise prior_pred mask_multiplier : tensor) : tensor :=
  tadd (tmul noise mask_multiplier)
       (tmul prior_pred (tmap (λ m, fsub (Fin 1) m) mask_multiplier)).

(** Section 4.2, stage 3: the target "in priority order". *)
Definition select_target_spec (self : Settings) (noise_pred noise : tensor)
    (timesteps : list Z) (batch : Batch) (mask_multiplier : tensor)
    (prior_pred : option tensor) : tensor :=
  let tc := train_config self in
  match prior_pred with
  | Some prior_pred =>
      if correct_pred_norm tc then
        correct_noise_norm tc prior_pred noise_pred noise
      else if inverted_mask_prior tc && bool_decide (is_Some (mask_tensor batch)) then
        masked_blend noise prior_pred mask_multiplier
      else if negb (do_prior_divergence tc) then prior_pred
      else if String.eqb (prediction_type self) "v_prediction"
      then get_velocity (default [] (batch_tensor batch)) noise timesteps
      else noise
  | None =>
      if String.eqb (prediction_type self) "v_prediction"
      then get_velocity (default [] (batch_tensor batch)) noise timesteps
      else noise
  end.

(** The target that [select_target] returns, when it returns. *)
Definition target_of (r : result (tensor * tensor * option tensor))
    : option tensor :=
  (λ x, x.1.1) <$> returned r.

(** Section 4.2, stage 7: "elementwise-multiply by the per-pixel mask,
    then by the per-item loss multiplier, before spatial reduction". *)
Definition masked_item_loss_spec (loss mask_multiplier : tensor)
    (loss_multiplier : fvec) : fvec :=
  let loss := tmul loss mask_multiplier in
  let loss := tmul loss ((λ m, [[m]]) <$> loss_multiplier) in
  mean123 loss.

End Trainer.

(* ===================================================================== *)
(** * Two small backends, to run the model on *)
(* ===================================================================== *)

(** A denoiser that predicts its own input, with additive noising. *)
Definition echo_backend : Backend := {|
  unet_forward c := Ok (fc_latents c);
  sd_encode_prompt prompts _ :=
    Ok {| text_embeds := (λ _, [[Fin 0]]) <$> prompts; pooled_embeds := None |};
  add_noise latents noise _ := tadd latents noise;
  encode_images pixels := default [] pixels;
  get_velocity sample noise _ := tsub noise sample;
  fsqrt x := x;
  interpolate_like m _ := m;
  process_output_for_turbo pred _ _ _ batch := (pred, latents batch);
  apply_learnable_snr_gos loss _ := loss;
  apply_snr_weight loss _ _ _ := loss;
  flow_matching_item_loss _ _ _ _ _ := [];
|}.

(** A denoiser whose forward pass fails. *)
Definition failing_backend : Backend := {|
  unet_forward _ := Raise (RuntimeError "CUDA out of memory");
  sd_encode_prompt := @sd_encode_prompt echo_backend;
  add_noise := @add_noise echo_backend;
  encode_images := @encode_images echo_backend;
  get_velocity := @get_velocity echo_backend;
  fsqrt := @fsqrt echo_backend;
  interpolate_like := @interpolate_like echo_backend;
  process_output_for_turbo := @process_output_for_turbo echo_backend;
  apply_learnable_snr_gos := @apply_learnable_snr_gos echo_backend;
  apply_snr_weight := @apply_snr_weight echo_backend;
  flow_matching_item_loss := @flow_matching_item_loss echo_backend;
|}.

(** The configuration of a plain run: noise target, mean squared error, no
    optional stage. *)
Definition plain_config : TrainConfig := {|
  loss_target := "noise";
  loss_type := "mse";
  match_noise_norm := false;
  pred_scaler := 1;
  correct_pred_norm := false;
  correct_pred_norm_multiplier := 1;
  inverted_mask_prior := false;
  inverted_mask_prior_multiplier := Q2Qc (1 # 2);
  do_prior_divergence := false;
  train_turbo := false;
  learnable_snr_gos := false;
  snr_gamma := None;
  min_snr_gamma := None;
  latent_multiplier := 1;
  cfg_scale := 1;
  cfg_rescale := false;
  reg_weight := 1;
|}.

Definition settings_of (tc : TrainConfig) : Settings := {|
  train_config := tc;
  prediction_type := "epsilon";
  scheduler_prediction_type := "epsilon";
  is_v3 := false;
  has_embedding := false;
  embed_config := None;
  adapter_config := None;
  has_assistant_adapter := false;
  do_prior_prediction := do_prior_divergence tc;
  do_guided_loss := false;
  do_long_prompts := false;
  is_grad_accumulation_step := false;
  params_are_groups := false;
  param_groups := 1;
|}.

(** A trainer in the middle of a step: an active network carrying the
    weights of the batch, no adapter, the unet in training mode. *)
Definition trainer_with (weights : list Qc) : trainer := {|
  network := Some {| is_active := true; multiplier := MList weights |};
  adapter := None;
  unet_training := true;
  grad_enabled := true;
  trace := [];
|}.

Definition no_embeds : PromptEmbeds :=
  {| text_embeds := []; pooled_embeds := None |}.

(** Tensors with the given rational entries. *)
Definition tensor_of (l : list (list (list Q))) : tensor :=
  map (map (map (λ q, Fin (Q2Qc q)))) l.

(** A batch of [B] items with the given latents and no optional field. *)
Definition batch_of (lat : tensor) (uncond : option tensor) (guidance : string)
    : Batch := {|
  latents := lat;
  unconditional_latents := uncond;
  batch_tensor := None;
  unaugmented_tensor := None;
  mask_tensor := None;
  sigmas := None;
  caption_list := (λ _, "a photo") <$> lat;
  is_reg_list := (λ _, false) <$> lat;
  loss_multiplier_list := (λ _, 1) <$> lat;
  network_weight_list := (λ _, 1) <$> lat;
  mask_min_value := 0;
  guidance_type := guidance;
|}.

(** The plain configuration with prior-divergence switched on, and with
    the inverted-mask prior switched on. *)
Definition divergence_config : TrainConfig := {|
  loss_target := "noise";
  loss_type := "mse";
  match_noise_norm := false;
  pred_scaler := 1;
  correct_pred_norm := false;
  correct_pred_norm_multiplier := 1;
  inverted_mask_prior := false;
  inverted_mask_prior_multiplier := Q2Qc (1 # 2);
  do_prior_divergence := true;
  train_turbo := false;
  learnable_snr_gos := false;
  snr_gamma := None;
  min_snr_gamma := None;
  latent_multiplier := 1;
  cfg_scale := 1;
  cfg_rescale := false;
  reg_weight := 1;
|}.

Definition inverted_mask_config : TrainConfig := {|
  loss_target := "noise";
  loss_type := "mse";
  match_noise_norm := false;
  pred_scaler := 1;
  correct_pred_norm := false;
  correct_pred_norm_multiplier := 1;
  inverted_mask_prior := true;
  inverted_mask_prior_multiplier := Q2Qc (1 # 2);
  do_prior_divergence := false;
  train_turbo := false;
  learnable_snr_gos := false;
  snr_gamma := None;
  min_snr_gamma := None;
  latent_multiplier := 1;
  cfg_scale := 1;
  cfg_rescale := false;
  reg_weight := 1;
|}.

(** The batch [batch] with a mask. *)
Definition with_mask (mask : tensor) (batch : Batch) : Batch := {|
  latents := latents batch;
  unconditional_latents := unconditional_latents batch;
  batch_tensor := batch_tensor batch;
  unaugmented_tensor := unaugmented_tensor batch;
  mask_tensor := Some mask;
  sigmas := sigmas batch;
  caption_list := caption_list batch;
  is_reg_list := is_reg_list batch;
  loss_multiplier_list := loss_multiplier_list batch;
  network_weight_list := network_weight_list batch;
  mask_min_value := mask_min_value batch;
  guidance_type := guidance_type batch;
|}.

(** Sample data: two items of one channel and two pixels, and four items of
    one channel and one pixel. *)
Definition latents2 : tensor := tensor_of [[[1; 2]]; [[3; 4]]]%Q.
Definition unconditional2 : tensor := tensor_of [[[0; 2]]; [[3; 5]]]%Q.
Definition noise2 : tensor := tensor_of [[[1 # 2; 0]]; [[1; 1]]]%Q.
Definition prior2 : tensor := tensor_of [[[2; 2]]; [[2; 2]]]%Q.
Definition mask2 : tensor := tensor_of [[[1; 0]]; [[1 # 2; 1]]]%Q.
Definition timesteps2 : list Z := [5; 7]%Z.

Definition latents4 : tensor := tensor_of [[[1]]; [[2]]; [[3]]; [[4]]]%Q.
Definition noise4 : tensor := tensor_of [[[0]]; [[1]]; [[1]]; [[2]]]%Q.
Definition timesteps4 : list Z := [5; 7; 11; 13]%Z.

(** A prediction with a NaN in it. *)
Definition nan_latents2 : tensor := [[[NaN; Fin 1]]; [[Fin 0; Fin 1]]].

(** The sub-batch that is the whole batch: the given noisy latents and
    noise, no mask. *)
Definition whole_batch (noisy_latents noise : tensor) (timesteps : list Z)
    : sub_batch := {|
  noisy_latents_of := noisy_latents;
  noise_of := noise;
  timesteps_of := timesteps;
  conditional_embeds_of := no_embeds;
  unconditional_embeds_of := None;
  mask_multiplier_of := ones (length noisy_latents);
  pred_kwargs_of := ∅;
|}.

(** The scenario of section 8: noise target, mean squared error, and none
    of the optional stages of the loss pipeline; the model predicts the
    noise. *)
Definition plain_settings (self : Settings) : Prop :=
  let tc := train_config self in
  loss_target tc = "noise" ∧ loss_type tc = "mse"
  ∧ match_noise_norm tc = false ∧ pred_scaler tc = 1
  ∧ correct_pred_norm tc = false ∧ inverted_mask_prior tc = false
  ∧ train_turbo tc = false
  ∧ learnable_snr_gos tc = false ∧ snr_gamma tc = None ∧ min_snr_gamma tc = None
  ∧ prediction_type self = "epsilon" ∧ is_v3 self = false.

(** A step of that scenario on a batch of [b] items: no prior prediction,
    no guidance, no mask, no regularization item, loss multipliers 1. *)
Definition plain_step (self : Settings) (batch : Batch) (b : nat) : Prop :=
  plain_settings self
  ∧ do_prior_divergence (train_config self) = false
  ∧ do_prior_prediction self = false ∧ do_guided_loss self = false
  ∧ has_assistant_adapter self = false
  ∧ unconditional_latents batch = None ∧ mask_tensor batch = None
  ∧ is_reg_list batch = replicate b false
  ∧ loss_multiplier_list batch = replicate b 1.

(* ===================================================================== *)
(** * Rounded arithmetic: the [float32] numbers of the loss *)
(* ===================================================================== *)

(** [calculate_loss] computes in [float32] ([pred.float()], line 396).
    An operation of IEEE binary32 returns the exact result rounded to the
    nearest number with a significand of 24 bits, and to the one with the
    even significand when two are equally near.  Overflow and subnormal
    numbers are left out: the exponent is not bounded here.  The
    definitions above are the same computations without the rounding. *)
Module Binary32.

(** [2 ^ e] for an integer [e]. *)
Definition pow2 (e : Z) : Q :=
  if bool_decide (0 ≤ e)%Z then inject_Z (2 ^ e) else Qinv (inject_Z (2 ^ (- e))).

(** The exponent of a number that is not zero: the floor of the binary
    logarithm of its absolute value. *)
Definition exponent (q : Q) : Z :=
  let e := (Z.log2 (Z.abs (Qnum q)) - Z.log2 (Zpos (Qden q)))%Z in
  if Qle_bool (pow2 e) (Z.abs (Qnum q) # Qden q) then e else (e - 1)%Z.

(** The nearest integer, the even one of two that are equally near. *)
Definition round_half_even (q : Q) : Z :=
  let f := (Qnum q / Zpos (Qden q))%Z in
  match Qcompare (q - inject_Z f) (1 # 2) with
  | Lt => f
  | Gt => (f + 1)%Z
  | Eq => if Z.even f then f else (f + 1)%Z
  end.

(** Rounding to the nearest number with a significand of 24 bits. *)
Definition round (q : Qc) : Qc :=
  if bool_decide (q = 0) then 0
  else
    let scale := pow2 (23 - exponent q) in
    Q2Qc (inject_Z (round_half_even (q * scale)) / scale).

Definition f32 (x : fnum) : fnum :=
  match x with Fin q => Fin (round q) | NaN => NaN end.

Definition add (x y : fnum) : fnum := f32 (fadd x y).
Definition sub (x y : fnum) : fnum := f32 (fsub x y).
Definition mul (x y : fnum) : fnum := f32 (fmul x y).
Definition div (x y : fnum) : fnum := f32 (fdiv x y).

(** [x.sum()], adding from left to right. *)
Definition sum (l : fvec) : fnum := foldl add (Fin 0) l.

(** [x.mean()]: the sum divided by the number of elements or, with
    [by_factor], multiplied by the rounded inverse of that number; a
    kernel for the mean is written in one or the other way. *)
Definition mean (by_factor : bool) (l : fvec) : fnum :=
  let n := of_nat (length l) in
  if by_factor then mul (sum l) (div (Fin 1) n) else div (sum l) n.

(** [t.mean([1, 2, 3])] and [t.mean()]. *)
Definition mean123 (by_factor : bool) (t : tensor) : fvec :=
  (λ item, mean by_factor (concat item)) <$> t.

Definition mean_all (by_factor : bool) (t : tensor) : fnum :=
  mean by_factor (concat (concat t)).

(** Line 396: [torch.nn.functional.mse_loss(pred.float(), target.float(),
    reduction="none")]. *)
Definition mse_loss : tensor → tensor → tensor :=
  tzip (λ x y, let d := sub x y in mul d d).

(** Lines 407, 426 and 428: [loss = loss * mask_multiplier],
    [loss = loss.mean([1, 2, 3])], [loss = loss * loss_multiplier]. *)
Definition masked_item_loss (by_factor : bool) (loss mask_multiplier : tensor)
    (loss_multiplier : fvec) : fvec :=
  let loss := tzip mul loss mask_multiplier in
  let loss := mean123 by_factor loss in
  vzip mul loss loss_multiplier.

(** Section 4.2, stage 7 of the specification, in the same arithmetic:
    both multiplications "before spatial reduction". *)
Definition masked_item_loss_spec (by_factor : bool) (loss mask_multiplier : tensor)
    (loss_multiplier : fvec) : fvec :=
  let loss := tzip mul loss mask_multiplier in
  let loss := tzip mul loss ((λ m, [[m]]) <$> loss_multiplier) in
  mean123 by_factor loss.

(** Lines 396, 407, 426, 428 and 444 in the plain scenario: the squared
    error, the mask of ones, the mean of each item, the loss multipliers
    1, and the mean of the items. *)
Definition plain_loss (by_factor : bool) (pred noise : tensor) : fnum :=
  let loss := mse_loss pred noise in
  let loss := masked_item_loss by_factor loss (ones (length pred))
                (replicate (length pred) (Fin 1)) in
  mean by_factor loss.

End Binary32.


(** A prediction of four items of three pixels, for a noise of zeros: the
    squared errors of the items add up to 5, 14, 0 and 0. *)
Definition pred12 : tensor :=
  tensor_of [[[0; 1; 2]]; [[1; 2; 3]]; [[0; 0; 0]]; [[0; 0; 0]]]%Q.
Definition zeros12 : tensor :=
  tensor_of [[[0; 0; 0]]; [[0; 0; 0]]; [[0; 0; 0]]; [[0; 0; 0]]]%Q.


(* ===================================================================== *)
(** * The events of a step *)
(* ===================================================================== *)

(** The events of the computation of a loss: forward passes, prompt
    encodings, backward passes and messages. *)
Definition inner_event (e : event) : Prop :=
  match e with
  | EvForward _ | EvEncodePrompt _ | EvBackward _ _ | EvPrint _ => True
  | _ => False
  end.

(** A computation that only appends events of a given kind to the trace,
    whether it returns or raises. *)
Definition logs_only (P : event → Prop) {A} (m : M A) : Prop :=
  ∀ s r s', m s = (r, s') → ∃ es, trace s' = trace s ++ es ∧ Forall P es.

Definition is_optimizer_step (e : event) : bool :=
  match e with EvOptimizerStep => true | _ => false end.
Definition is_scheduler_step (e : event) : bool :=
  match e with EvSchedulerStep => true | _ => false end.
Definition is_backward (e : event) : bool :=
  match e with EvBackward _ _ => true | _ => false end.
Definition is_encoding (e : event) : Prop :=
  match e with EvEncodePrompt _ => True | _ => False end.

(** How many events of a kind a piece of trace holds. *)
Definition count_events (f : event → bool) (es : list event) : nat :=
  length (List.filter f es).

(** A trainer whose adapter is a vision adapter on which an auxiliary
    module has left a loss. *)
Definition trainer_with_adapter (weights : list Qc) : trainer := {|
  network := Some {| is_active := true; multiplier := MList weights |};
  adapter := Some {| kind := ClipVisionAdapter; adapter_is_active := true;
                     additional_loss := Some [Fin 1; Fin (Q2Qc 3)] |};
  unet_training := true;
  grad_enabled := true;
  trace := [];
|}.

(** Keyword arguments with a residual of the assistant adapter and one
    other entry. *)
Definition residual_kwargs : pred_kwargs_t :=
  {[ "mid_block_additional_residual" := [latents2];
     "added_cond_kwargs" := [noise2] ]}.

(** A prior prediction far from the prediction [latents4]. *)
Definition prior4 : tensor := tensor_of [[[3]]; [[4]]; [[5]]; [[6]]]%Q.

(** The batch [batch] with the given regularization flags. *)
Definition with_reg (regs : list bool) (batch : Batch) : Batch := {|
  latents := latents batch;
  unconditional_latents := unconditional_latents batch;
  batch_tensor := batch_tensor batch;
  unaugmented_tensor := unaugmented_tensor batch;
  mask_tensor := mask_tensor batch;
  sigmas := sigmas batch;
  caption_list := caption_list batch;
  is_reg_list := regs;
  loss_multiplier_list := loss_multiplier_list batch;
  network_weight_list := network_weight_list batch;
  mask_min_value := mask_min_value batch;
  guidance_type := guidance_type batch;
|}.

(** A denoising range without an interior. *)
Definition narrow_config : Sampler.config :=
  {| Sampler.content_or_style := "style";
     Sampler.min_denoising_steps := 10;
     Sampler.max_denoising_steps := 11;
     Sampler.num_train_timesteps := 1000 |}.

(* ===================================================================== *)
(** * The command line runner: [run.py] *)
(* ===================================================================== *)

Module Runner.

(** The three calls that [main] makes on a job (lines 52-54). *)
Inductive stage := GetJob | RunJob | CleanupJob.

(** What a job does: it goes through, or one of the three calls raises an
    [Exception], which is what line 56 catches.  A job that ends in a
    [KeyboardInterrupt] or a [SystemExit], which line 56 does not catch,
    is not among the outcomes. *)
Definition outcome := option (stage * exn).

(** What [main] does that is visible: the calls on the jobs, by config
    file, and the lines it prints. *)
Inductive action :=
  | Called (st : stage) (config_file : string)
  | Printed (line : string).

(** What [main] raises: the exception of a job, or its own
    [Exception("You must provide at least one config file")]. *)
Inductive main_error :=
  | JobError (e : exn)
  | NoConfigFile.

(** [str(e)] of an exception raised with one message, or with none. *)
Definition str_of_exn (e : exn) : string :=
  match e with
  | ValueError msg | NotImplementedError msg | RuntimeError msg
  | AttributeError msg | NameError msg => msg
  | AssertionError => EmptyString
  end.

(** [f"{n} thing{'' if n == 1 else 's'}"]. *)
Definition counted (n : nat) (thing : string) : string :=
  pretty n +:+ " " +:+ thing +:+ (if bool_decide (n = 1%nat) then EmptyString else "s").

(** Lines 8-19: the lines of the end message. *)
Definition print_end_message (jobs_completed jobs_failed : nat) : list string :=
  let failure_string :=
    if bool_decide (0 < jobs_failed)%nat then counted jobs_failed "failure"
    else EmptyString in
  let completed_string := counted jobs_completed "completed job" in
  [EmptyString; "========================================"; "Result:"]
  ++ (if bool_decide (0 < String.length completed_string)%nat
      then [" - " +:+ completed_string] else [])
  ++ (if bool_decide (0 < String.length failure_string)%nat
      then [" - " +:+ failure_string] else [])
  ++ ["========================================"].

(** The calls of lines 52-54 on one job, as far as they get. *)
Definition calls (config_file : string) (o : outcome) : list action :=
  match o with
  | Some (GetJob, _) => [Called GetJob config_file]
  | Some (RunJob, _) => [Called GetJob config_file; Called RunJob config_file]
  | _ => [Called GetJob config_file; Called RunJob config_file;
          Called CleanupJob config_file]
  end.

(** Lines 50-61: the loop over the config files, each with what its job
    does. *)
Fixpoint run_jobs (recover : bool) (jobs : list (string * outcome))
    (jobs_completed jobs_failed : nat) : list action * option main_error :=
  match jobs with
  | [] => ([], None)
  | (config_file, o) :: jobs =>
      match o with
      | None =>
          let jobs_completed := S jobs_completed in
          let '(actions, r) := run_jobs recover jobs jobs_completed jobs_failed in
          (calls config_file o ++ actions, r)
      | Some (_, e) =>
          let error := Printed ("Error running job: " +:+ str_of_exn e) in
          let jobs_failed := S jobs_failed in
          if recover then
            let '(actions, r) := run_jobs recover jobs jobs_completed jobs_failed in
            (calls config_file o ++ error :: actions, r)
          else
            (calls config_file o ++ error
               :: (Printed <$> print_end_message jobs_completed jobs_failed),
             Some (JobError e))
      end
  end.

(** Lines 41-61: [main] after the parsing of the arguments; [jobs] are the
    config files of the command line, each with what its job does. *)
Definition main (recover : bool) (jobs : list (string * outcome))
    : list action * option main_error :=
  if bool_decide (length jobs = 0%nat) then ([], Some NoConfigFile)
  else
    let banner :=
      "Running " +:+ counted (length jobs) "job" in
    let '(actions, r) := run_jobs recover jobs 0 0 in
    (Printed banner :: actions, r).

(** The config files whose job was fetched, in order. *)
Definition fetched (actions : list action) : list string :=
  omap (λ a, match a with Called GetJob f => Some f | _ => None end) actions.

Definition is_result_line (a : action) : bool :=
  match a with Printed "Result:" => true | _ => false end.

Definition is_error_line (a : action) : bool :=
  match a with
  | Printed line => String.prefix "Error running job: " line
  | _ => false
  end.

(** The calls on a list of jobs that all go through. *)
Definition all_calls (jobs : list (string * outcome)) : list action :=
  concat ((λ j, calls j.1 j.2) <$> jobs).

End Runner.

(** Three jobs, the second of which fails while it runs. *)
Definition sample_jobs : list (string * Runner.outcome) :=
  [("first", None);
   ("second", Some (Runner.RunJob, RuntimeError "CUDA out of memory"));
   ("third", None)].

(* ===================================================================== *)
(** * Saved files: [BaseSDTrainProcess.save], [clean_up_saves] and
      [get_latest_save_path] *)
(* ===================================================================== *)

Module Saves.

(** [s.endswith(suffix)]. *)
Fixpoint ends_with (suffix s : string) : bool :=
  String.eqb suffix s
  || match s with
     | EmptyString => false
     | String _ s' => ends_with suffix s'
     end.

(** What is left of [s] after [prefix], when [s] starts with it. *)
Fixpoint strip_prefix (prefix s : string) : option string :=
  match prefix, s with
  | EmptyString, _ => Some s
  | String a prefix', String b s' =>
      if Ascii.eqb a b then strip_prefix prefix' s' else None
  | String _ _, EmptyString => None
  end.

(** A hidden file: its name starts with a dot. *)
Definition starts_with_dot (s : string) : bool := String.prefix "." s.

(** Whether [glob] lists the file [name] of the folder for the pattern
    [f"{prefix}*{suffix}"], where [prefix] and [suffix] hold none of the
    wildcard characters: the name starts with the prefix and what follows
    ends with the suffix, and a name with a leading dot is only listed
    for a pattern with a leading dot. *)
Definition glob_match (prefix suffix name : string) : bool :=
  match strip_prefix prefix name with
  | Some rest =>
      ends_with suffix rest
      && (starts_with_dot prefix || negb (starts_with_dot name))
  | None => false
  end.

Fixpoint zeros (n : nat) : string :=
  match n with O => EmptyString | S n => "0" +:+ zeros n end.

(** [s.zfill(width)] of the digits of a step number. *)
Definition zfill (width : nat) (s : string) : string :=
  zeros (width - String.length s) +:+ s.

(** Lines 279-285 and 292-297: [step_num] is [f"_{str(step).zfill(9)}"]
    or empty, and the file is [f'{name}{step_num}.safetensors'], where
    [name] is the name of the job, followed by [_LoRA] for a named
    network. *)
Definition step_num (step : option nat) : string :=
  match step with
  | Some step => "_" +:+ zfill 9 (pretty step)
  | None => EmptyString
  end.

Definition save_file_name (name : string) (step : option nat) : string :=
  name +:+ step_num step +:+ ".safetensors".

(** A file of the save folder: its creation time, and its path.  All the
    paths that the code handles are in the one folder [save_root]; [path]
    is the path without the name of the folder, which is the part that
    the pattern is matched against. *)
Record file := {
  path : string;
  ctime : Z;
}.

(** [files.sort(key=os.path.getctime)]: the sort is stable. *)
Fixpoint insert_by_ctime (x : file) (l : list file) : list file :=
  match l with
  | [] => [x]
  | y :: l' =>
      if bool_decide (ctime x ≤ ctime y)%Z then x :: l
      else y :: insert_by_ctime x l'
  end.

Definition sort_by_ctime (l : list file) : list file :=
  foldr insert_by_ctime [] l.

(** [os.path.splitext(file)[0] + ".yaml"] of a path that ends in
    [.safetensors], as the paths of the step saves do. *)
Definition yaml_of (p : string) : string :=
  String.substring 0 (String.length p - String.length ".safetensors") p +:+ ".yaml".

(** [os.remove(p)], when the file is there. *)
Definition remove (p : string) (dir : list file) : list file :=
  filter (λ f, path f ≠ p) dir.

(** The step saves of a job: the pattern [f"{job_name}_*.safetensors"]. *)
Definition is_step_save (job_name : string) (f : file) : bool :=
  glob_match (job_name +:+ "_") ".safetensors" (path f).

(** Lines 249-269.  The save folder is the list of its files, in the
    order in which [glob] lists them, or [None] when it does not exist.
    The result is the folder afterwards, with the lines printed; the
    function itself returns [None] in every case. *)
Definition clean_up_saves (job_name : string) (max_step_saves_to_keep : nat)
    (dir : option (list file)) : option (list file) * list string :=
  match dir with
  | Some dir =>
      let files := filter (λ f, is_step_save job_name f = true) dir in
      if bool_decide (max_step_saves_to_keep < length files)%nat then
        (* remove all but the latest max_step_saves_to_keep *)
        let files := sort_by_ctime files in
        let old := slice_to (- Z.of_nat max_step_saves_to_keep) files in
        (Some (foldl (λ dir f, remove (yaml_of (path f)) (remove (path f) dir))
                 dir old),
         (λ f, "Removing old save: " +:+ path f) <$> old)
      else (Some dir, [])
  | None => (None, [])
  end.

(** [max(files, key=os.path.getctime)]: the first of the newest files. *)
Definition newest (files : list file) : option file :=
  match files with
  | [] => None
  | f :: files =>
      Some (foldl (λ best g, if bool_decide (ctime best < ctime g)%Z then g else best)
              f files)
  end.

(** Lines 390-408: the newest save of [name], a [.pt] file when there is
    one. *)
Definition get_latest_save_path (name post : string) (dir : option (list file))
    : option string :=
  match dir with
  | Some dir =>
      let latest_file := None in
      let files :=
        filter (λ f, glob_match name (post +:+ ".safetensors") (path f) = true) dir in
      let latest_file :=
        if bool_decide (0 < length files)%nat then path <$> newest files
        else latest_file in
      (* try pt *)
      let files := filter (λ f, glob_match name ".pt" (path f) = true) dir in
      let latest_file :=
        if bool_decide (0 < length files)%nat then path <$> newest files
        else latest_file in
      latest_file
  | None => None
  end.

(** Whether a name holds one of the characters that a pattern of [glob]
    does not read as themselves. *)
Definition has_wildcard (s : string) : bool :=
  existsb (λ c, existsb (Ascii.eqb c) (String.list_ascii_of_string "*?[]"))
    (String.list_ascii_of_string s).

(** The last character of a string. *)
Fixpoint last_char (s : string) : option Ascii.ascii :=
  match s with
  | EmptyString => None
  | String c s' => match last_char s' with Some d => Some d | None => Some c end
  end.

(** The order of the creation times. *)
Definition older (f g : file) : Prop := (ctime f ≤ ctime g)%Z.

End Saves.

(** A save folder of the job [cat]: three step saves, listed out of
    order, one of them with its [.yaml] file, the final save, and a file
    of another job. *)
Definition sample_folder : list Saves.file :=
  [ {| Saves.path := "cat_000000200.safetensors"; Saves.ctime := 200 |};
    {| Saves.path := "cat.safetensors"; Saves.ctime := 400 |};
    {| Saves.path := "cat_000000100.safetensors"; Saves.ctime := 100 |};
    {| Saves.path := "cat_000000100.yaml"; Saves.ctime := 101 |};
    {| Saves.path := "dog_000000100.safetensors"; Saves.ctime := 50 |};
    {| Saves.path := "cat_000000300.safetensors"; Saves.ctime := 300 |} ].

(* ===================================================================== *)
(** * The training loop: [BaseSDTrainProcess.run], lines 929-1101 *)
(* ===================================================================== *)

Module Schedule.

(** What the loop reads of the configuration and of the data loaders. *)
Record loop_config := {
  steps : nat;                        (* train_config.steps *)
  save_every : option nat;            (* save_config.save_every *)
  sample_every : option nat;          (* sample_config.sample_every *)
  has_loader : bool;                  (* self.data_loader is not None *)
  has_reg_loader : bool;              (* self.data_loader_reg is not None *)
  has_first_sample_requested : bool;
  skip_first_sample : bool;
}.

(** Where the batch of a step comes from (lines 981-1010). *)
Inductive batch_source := FromReg | FromTrain | NoBatch.

(** The calls of the loop, when none of them raises: [self.sample(0, ...)]
    before the loop, [self.hook_train_loop(batch)] in the iteration of a
    step, [self.sample(step_num)] and [self.save(step)]. *)
Inductive call :=
  | FirstSample (is_first : bool)
  | Train (source : batch_source) (step : nat)
  | Sample (step : nat)
  | Save (step : option nat).

(** [every and step_num % every == 0]: [None] and [0] are false. *)
Definition is_every (every : option nat) (step_num : nat) : bool :=
  match every with
  | Some (S k) => bool_decide (step_num `mod` S k = 0)%nat
  | _ => false
  end.

(** Lines 971-1095: one iteration, for the loop variable [step] and the
    value of [self.step_num] at its beginning. *)
Definition iteration (cfg : loop_config) (start_step step step_num : nat)
    : list call :=
  let is_save_step := is_every (save_every cfg) step_num in
  let is_sample_step := is_every (sample_every cfg) step_num in
  let source :=
    if bool_decide (step `mod` 2 = 0)%nat && has_reg_loader cfg
       && negb is_save_step && negb is_sample_step
    then FromReg
    else if has_loader cfg then FromTrain else NoBatch in
  [Train source step]
  ++ (if bool_decide (step_num ≠ start_step) then
        (if is_sample_step then [Sample step_num] else [])
        ++ (if is_save_step then [Save (Some step_num)] else [])
      else []).

(** The loop of line 971: [self.step_num] is set to [step] at the end of
    an iteration (line 1086). *)
Fixpoint iterations (cfg : loop_config) (start_step : nat) (todo : list nat)
    (step_num : nat) : list call * nat :=
  match todo with
  | [] => ([], step_num)
  | step :: todo =>
      let '(calls, last) := iterations cfg start_step todo step in
      (iteration cfg start_step step step_num ++ calls, last)
  end.

(** Lines 929-1101: the first samples, the loop over
    [range(self.step_num, steps)], the last sample and the final save.
    Wherever the code sets [self.start_step] it sets it to
    [self.step_num] (lines 413-415, 669, 856, 904-906), so that a run is
    [train_loop cfg start start]. *)
Definition train_loop (cfg : loop_config) (start_step step_num : nat)
    : list call :=
  let first :=
    (if has_first_sample_requested cfg then [FirstSample true] else [])
    ++ (if skip_first_sample cfg then [] else [FirstSample false]) in
  let '(calls, step_num) :=
    iterations cfg start_step (seq step_num (steps cfg - step_num)) step_num in
  first ++ calls ++ [Sample (step_num + 1); Save None].

(** The steps that were trained, in order. *)
Definition trained_steps (calls : list call) : list nat :=
  omap (λ a, match a with Train _ step => Some step | _ => None end) calls.

(** Lines 243-247: the step that [save] writes into the metadata of the
    file, through [update_training_metadata]. *)
Definition get_training_info (step_num : nat) : nat := (step_num + 1)%nat.

(** Lines 410-416, 664-670 and 904-906: the step at which a run starts:
    [train_config.start_step] when it is set, otherwise the step found in
    the metadata of the file it resumes from, when there is one. *)
Definition resumed_step (meta_step config_start_step : option nat)
    (step_num : nat) : nat :=
  match config_start_step with
  | Some start_step => start_step
  | None => default step_num meta_step
  end.

End Schedule.

(** A run of ten steps that saves every third step. *)
Definition sample_loop : Schedule.loop_config :=
  {| Schedule.steps := 10;
     Schedule.save_every := Some 3%nat;
     Schedule.sample_every := None;
     Schedule.has_loader := true;
     Schedule.has_reg_loader := false;
     Schedule.has_first_sample_requested := false;
     Schedule.skip_first_sample := true |}.

(* ===================================================================== *)
(** * The instant LoRA module: [toolkit/models/ilora.py] *)
(* ===================================================================== *)

Module ILora.

(** [math.prod(shape)]. *)
Definition prod (shape : list nat) : nat := foldr Nat.mul 1%nat shape.

(** The shapes of the two weights of a LoRA module, [lora_down.weight]
    and [lora_up.weight] (lines 203-204). *)
Record shapes := {
  down_shape : list nat;
  up_shape : list nat;
}.

(** Lines 196-210 and 230: the number of generated weights that a module
    takes, and the sum over the modules. *)
Definition module_size (m : shapes) : nat :=
  (prod (down_shape m) + prod (up_shape m))%nat.

Definition embed_lengths (modules : list shapes) : list nat :=
  module_size <$> modules.

Definition output_size (modules : list shapes) : nat :=
  sum_list (embed_lengths modules).

(** Lines 288-293: [img_embeds[:, start:start+length]] for each length in
    turn; [img_embeds] is a batch of rows. *)
Fixpoint slices {A} (start : nat) (lengths : list nat) (img_embeds : list (list A))
    : list (list (list A)) :=
  match lengths with
  | [] => []
  | length :: lengths =>
      ((λ row, take length (drop start row)) <$> img_embeds)
      :: slices (start + length) lengths img_embeds
  end.

(** Lines 115-117 and 142-144: the weights of a module in its slice,
    [embed[:, :down_size]] and [embed[:, -up_size:]]; a slice from [-0] is
    the whole row. *)
Definition down_weight {A} (m : shapes) (embed : list (list A)) : list (list A) :=
  take (prod (down_shape m)) <$> embed.

Definition up_weight {A} (m : shapes) (embed : list (list A)) : list (list A) :=
  let up_size := prod (up_shape m) in
  (λ row, if bool_decide (up_size = 0)%nat then row
          else drop (length row - up_size) row) <$> embed.

(** What [weight_mapping] is after [migrate_weight_mapping]: the list of
    the constructor, or a dictionary. *)
Inductive weight_mapping :=
  | ByModule (l : list (string * shapes))
  | ByKey (m : gmap string shapes).

(** Lines 255-274.  [keymap] is [network.get_keymap()], a dictionary
    given by its items in order, or [None]; the result is the new
    [weight_mapping] with the lines printed. *)
Definition migrate_weight_mapping (keymap : option (list (string * string)))
    (mapping : list (string * shapes)) : weight_mapping * list string :=
  match keymap with
  | Some keymap =>
      let save_keymap : gmap string string :=
        foldl (λ m '(ldm_key, diffusers_key), <[diffusers_key := ldm_key]> m)
              ∅ keymap in
      let '(new_keymap, printed) :=
        foldl (λ '(m, printed) '(key, value),
                 match save_keymap !! key with
                 | Some ldm_key => (<[ldm_key := value]> m, printed)
                 | None =>
                     (<[key := value]> m,
                      printed ++ ["Key " +:+ key +:+ " not found in keymap"])
                 end)
              ((∅ : gmap string shapes), []) mapping in
      (ByKey new_keymap, printed)
  | None => (ByModule mapping, ["No keymap found. Using default names"])
  end.

(** The name under which a module is filed: [save_keymap[key]] when the
    inverted keymap has the key, the key itself otherwise (lines
    266-270). *)
Definition saved_name (keymap : list (string * string)) (key : string) : string :=
  default key
    (foldl (λ m '(ldm_key, diffusers_key), <[diffusers_key := ldm_key]> m)
       (∅ : gmap string string) keymap !! key).

End ILora.

(** Two LoRA modules of rank 2, on layers of widths 3 and 1, a batch of
    two generated rows of 16 weights, and a keymap that has the name of
    the first module only. *)
Definition sample_modules : list ILora.shapes :=
  [ {| ILora.down_shape := [2; 3]%nat; ILora.up_shape := [3; 2]%nat |};
    {| ILora.down_shape := [2; 1]%nat; ILora.up_shape := [1; 2]%nat |} ].

Definition sample_rows : list (list nat) := [seq 0 16; seq 100 16].

Definition sample_keymap : list (string * string) :=
  [("model.attn1.to_q", "lora_unet_attn1_to_q");
   ("model.attn1.to_k", "lora_unet_attn1_to_k")].

Definition sample_mapping : list (string * ILora.shapes) :=
  [("lora_unet_attn1_to_q",
    {| ILora.down_shape := [2; 3]%nat; ILora.up_shape := [3; 2]%nat |});
   ("lora_te_mlp_fc1",
    {| ILora.down_shape := [2; 1]%nat; ILora.up_shape := [1; 2]%nat |})].

(* ===================================================================== *)
(** * Properties of the timestep sampling *)
(* ===================================================================== *)

(** Inequalities between canonical rationals, read as inequalities between
    plain rationals. *)
Ltac qc_to_q :=
  unfold Qclt, Qcle, Qcdiv, Qcminus, Qcinv, Qcplus, Qcmult, Qcopp, Q2Qc, Qc_of_Z in *;
  simpl this in *; rewrite ?Qred_correct in *.

(** Closed comparisons of numbers, decided by evaluation. *)
Ltac by_compute :=
  vm_compute; repeat split; solve [discriminate | reflexivity | intros; discriminate].

(** Closed equalities and disequalities of decidable types, decided by
    evaluation. *)
Ltac by_decide := apply (bool_decide_unpack _); vm_compute; exact I.

Module SamplerFacts.
Import Sampler.

Lemma quot_frac_mono (a c : Z) (b d : positive) :
  (a * Zpos d ≤ c * Zpos b)%Z → (a ÷ Zpos b ≤ c ÷ Zpos d)%Z.
Proof.
  intros H.
  assert (Hnn : ∀ (x y : Z) (p q : positive),
             (0 ≤ x)%Z → (x * Zpos q ≤ y * Zpos p)%Z → (x ÷ Zpos p ≤ y ÷ Zpos q)%Z).
  { intros x y p q Hx Hxy.
    rewrite !Z.quot_div_nonneg by lia.
    apply Z.div_le_lower_bound; [lia|].
    pose proof (Z.mul_div_le x (Zpos p) ltac:(lia)).
    assert (0 ≤ x / Zpos p)%Z by (apply Z.div_pos; lia). nia. }
  destruct (Z.le_gt_cases 0 a) as [Hs|Hs]; [by apply Hnn|].
  destruct (Z.le_gt_cases 0 c) as [Ht|Ht].
  - pose proof (Z.quot_pos c (Zpos d) Ht ltac:(lia)).
    pose proof (Z.quot_pos (- a) (Zpos b) ltac:(lia) ltac:(lia)) as Hq.
    rewrite Z.quot_opp_l in Hq by lia. lia.
  - pose proof (Hnn (- c)%Z (- a)%Z d b ltac:(lia) ltac:(lia)) as Hq.
    rewrite !Z.quot_opp_l in Hq by lia. lia.
Qed.

Lemma long_mono x y : x ≤ y → (long x ≤ long y)%Z.
Proof. unfold Qcle, Qle, long. intros H. by apply quot_frac_mono. Qed.

Lemma clamp_mono lo hi x y : (x ≤ y)%Z → (clamp lo hi x ≤ clamp lo hi y)%Z.
Proof. unfold clamp. lia. Qed.

Lemma clamp_range lo hi x : (lo ≤ hi)%Z → (lo ≤ clamp lo hi x ≤ hi)%Z.
Proof. unfold clamp. lia. Qed.

Lemma value_map_mono (x y lo hi a b : Qc) :
  lo < hi → a ≤ b → x ≤ y → value_map x lo hi a b ≤ value_map y lo hi a b.
Proof.
  intros Hlh Hab Hxy. unfold value_map.
  apply Qcplus_le_mono_r.
  unfold Qcdiv. apply Qcmult_le_mono_nonneg_r.
  - apply Qclt_le_weak, Qcinv_pos. qc_to_q. lra.
  - apply Qcmult_le_mono_nonneg_r; qc_to_q; lra.
Qed.

Lemma remap_and_clamp_mono cfg x y :
  (1 < num_train_timesteps cfg)%Z →
  (min_denoising_steps cfg ≤ max_denoising_steps cfg)%Z →
  x ≤ y → (remap_and_clamp cfg x ≤ remap_and_clamp cfg y)%Z.
Proof.
  intros Hn Hmm Hxy. unfold remap_and_clamp.
  apply clamp_mono, long_mono, value_map_mono; [| |done].
  - rewrite <- Z2Qc_inj_0. apply (proj1 (Z2Qc_inj_lt _ _)). lia.
  - by apply (proj1 (Z2Qc_inj_le _ _)).
Qed.

Lemma cube_below_half (u n : Qc) :
  0 < n → 0 ≤ u → u < Q2Qc (1 # 2) → u ^ 3 * n < n / Qc_of_Z 8.
Proof.
  intros Hn H0 H1.
  assert (Hu : u ^ 3 < Q2Qc (1 # 8)).
  { simpl. rewrite Qcmult_1_r. qc_to_q. nra. }
  replace (n / Qc_of_Z 8) with (Q2Qc (1 # 8) * n).
  - by apply Qcmult_lt_compat_r.
  - apply Qc_is_canon. qc_to_q. simpl. field.
Qed.

(** C5, as the code has it: the cubic policies (style, content) clamp, so
    that every timestep they return lies strictly between
    [min_denoising_steps] and [max_denoising_steps] as soon as the range
    has an interior; the balanced policy returns the draws of
    [torch.randint] unclamped, which lie in
    [[min_denoising_steps, max_denoising_steps)] and may equal the lower
    bound.  It returns whenever [min_denoising_steps] is below
    [max_denoising_steps], also when the range has no interior. *)
Theorem sampled_timesteps_range (cfg : config) (rand : list Qc) (randint : list Z) :
  (content_or_style cfg ∈ ["style"; "content"] →
   (min_denoising_steps cfg + 2 ≤ max_denoising_steps cfg)%Z →
     ∃ ts, sample_timesteps cfg rand randint = Ok ts ∧ length ts = length rand ∧
           Forall (λ t, (min_denoising_steps cfg < t < max_denoising_steps cfg)%Z) ts)
  ∧ (content_or_style cfg = "balanced" →
     Forall (randint_draw (min_denoising_steps cfg) (max_denoising_steps cfg)) randint →
       Forall (λ t, (min_denoising_steps cfg ≤ t < max_denoising_steps cfg)%Z) randint
       ∧ (∀ ts, sample_timesteps cfg rand randint = Ok ts → ts = randint)
       ∧ ((min_denoising_steps cfg < max_denoising_steps cfg)%Z →
          sample_timesteps cfg rand randint = Ok randint)).
Proof.
  split.
  - intros Hpol Hrange. exists (cubic_timestep cfg <$> rand).
    unfold sample_timesteps. rewrite bool_decide_eq_true_2 by done.
    split; [done|]. split; [by rewrite length_fmap|].
    apply Forall_fmap, Forall_forall. intros u _. simpl.
    unfold cubic_timestep, remap_and_clamp.
    match goal with |- context [clamp ?lo ?hi ?x] =>
      pose proof (clamp_range lo hi x ltac:(lia)) end.
    lia.
  - intros Hpol Hdraws. unfold sample_timesteps. rewrite Hpol. simpl.
    split; [|split].
    + eapply Forall_impl; [exact Hdraws|]. unfold randint_draw. intros; lia.
    + intros ts. case_bool_decide; [|done]. by intros [= <-].
    + intros Hlt. by rewrite bool_decide_eq_true_2 by done.
Qed.

(** [sampled_timesteps_range] on three draws of the style policy on the
    range from 0 to 1000, and on the only draw that the balanced policy
    can make on the range from 10 to 11, which has no interior. *)
Lemma sampled_timesteps_range_witness :
  let style := default_config "style" in
  let balanced := with_policy "balanced" narrow_config in
  let draws := [Q2Qc 0; Q2Qc (1 # 2); Q2Qc (999 # 1000)] in
  content_or_style style ∈ ["style"; "content"]
  ∧ (min_denoising_steps style + 2 ≤ max_denoising_steps style)%Z
  ∧ (∃ ts, sample_timesteps style draws [] = Ok ts ∧ length ts = 3%nat ∧
           Forall (λ t, (0 < t < 1000)%Z) ts)
  ∧ content_or_style balanced = "balanced"
  ∧ Forall (randint_draw 10 11) [10%Z]
  ∧ (min_denoising_steps balanced < max_denoising_steps balanced)%Z
  ∧ sample_timesteps balanced [] [10%Z] = Ok [10%Z]
  ∧ Forall (λ t, (10 ≤ t < 11)%Z) [10%Z].
Proof.
  intros style balanced draws.
  assert (H1 : content_or_style style ∈ ["style"; "content"]) by by_decide.
  assert (H2 : (min_denoising_steps style + 2 ≤ max_denoising_steps style)%Z)
    by by_compute.
  assert (H3 : content_or_style balanced = "balanced") by reflexivity.
  assert (H4 : Forall (randint_draw 10 11) [10%Z])
    by (repeat constructor; by_compute).
  assert (H5 : (min_denoising_steps balanced < max_denoising_steps balanced)%Z)
    by by_compute.
  pose proof (proj1 (sampled_timesteps_range style draws []) H1 H2) as Hstyle.
  pose proof (proj2 (sampled_timesteps_range balanced [] [10%Z]) H3 H4)
    as (Hrange & _ & Hreturns).
  split; [exact H1|]. split; [exact H2|]. split; [exact Hstyle|].
  split; [exact H3|]. split; [exact H4|]. split; [exact H5|].
  split; [exact (Hreturns H5)|exact Hrange].
Defined.

(** C5, as the specification states it, fails for the balanced policy:
    the draw [0] of [torch.randint(0, 1000)] is returned as it is, and it
    equals [min_denoising_steps]. *)
Lemma balanced_timestep_on_boundary :
  let cfg := default_config "balanced" in
  randint_draw (min_denoising_steps cfg) (max_denoising_steps cfg) 0 ∧
  sample_timesteps cfg [] [0%Z] = Ok [0%Z] ∧
  ¬ Forall (λ t, (min_denoising_steps cfg < t < max_denoising_steps cfg)%Z) [0%Z].
Proof.
  split; [|split].
  - by_compute.
  - reflexivity.
  - intros H. apply Forall_inv in H. simpl in H. lia.
Qed.

Lemma remap_and_clamp_policy p cfg t :
  remap_and_clamp (with_policy p cfg) t = remap_and_clamp cfg t.
Proof.
  unfold remap_and_clamp, with_policy.
  cbn [min_denoising_steps max_denoising_steps num_train_timesteps].
  reflexivity.
Qed.

Lemma cubic_timestep_style cfg u :
  cubic_timestep (with_policy "style" cfg) u
  = remap_and_clamp cfg (style_warp (Qc_of_Z (num_train_timesteps cfg)) u).
Proof.
  unfold cubic_timestep. rewrite remap_and_clamp_policy.
  cbn [content_or_style with_policy num_train_timesteps]. reflexivity.
Qed.

Lemma cubic_timestep_content cfg u :
  cubic_timestep (with_policy "content" cfg) u
  = remap_and_clamp cfg (content_warp (Qc_of_Z (num_train_timesteps cfg)) u).
Proof.
  unfold cubic_timestep. rewrite remap_and_clamp_policy.
  cbn [content_or_style with_policy num_train_timesteps]. reflexivity.
Qed.

(** C6, as the code has it: the style policy warps a uniform draw [u] as
    [u^3 * N] and the content policy as [(1 - u^3) * N], before the remap
    and the clamp.  The cube pushes a draw toward 0, so style skews low
    and content skews high: every draw below one half, which is half of
    all draws, gives a style timestep in the lowest eighth of the schedule
    and a content timestep in the highest eighth. *)
Theorem cubic_policies_skew (cfg : config) (u : Qc) :
  (1 < num_train_timesteps cfg)%Z →
  (min_denoising_steps cfg ≤ max_denoising_steps cfg)%Z →
  0 ≤ u → u < Q2Qc (1 # 2) →
  let n := Qc_of_Z (num_train_timesteps cfg) in
  let style := with_policy "style" cfg in
  let content := with_policy "content" cfg in
  cubic_timestep style u = remap_and_clamp cfg (u ^ 3 * n) ∧
  cubic_timestep content u = remap_and_clamp cfg ((1 - u ^ 3) * n) ∧
  u ^ 3 * n < n / Qc_of_Z 8 ∧
  n - n / Qc_of_Z 8 < (1 - u ^ 3) * n ∧
  (cubic_timestep style u ≤ remap_and_clamp cfg (n / Qc_of_Z 8))%Z ∧
  (remap_and_clamp cfg (n - n / Qc_of_Z 8) ≤ cubic_timestep content u)%Z.
Proof.
  intros Hn Hmm H0 H1 n style content.
  assert (Hpos : 0 < n).
  { unfold n. rewrite <- Z2Qc_inj_0. apply (proj1 (Z2Qc_inj_lt _ _)). lia. }
  pose proof (cube_below_half u n Hpos H0 H1) as Hlow.
  assert (Hhigh : n - n / Qc_of_Z 8 < (1 - u ^ 3) * n).
  { replace ((1 - u ^ 3) * n) with (n - u ^ 3 * n) by ring.
    revert Hlow. generalize (u ^ 3 * n) (n / Qc_of_Z 8). intros c d Hcd.
    qc_to_q. lra. }
  pose proof (cubic_timestep_style cfg u) as Hs.
  pose proof (cubic_timestep_content cfg u) as Hc.
  fold style in Hs. fold content in Hc. fold n in Hs, Hc.
  unfold style_warp in Hs. unfold content_warp in Hc.
  split; [exact Hs|]. split; [exact Hc|]. split; [exact Hlow|]. split; [exact Hhigh|].
  split.
  - rewrite Hs. apply remap_and_clamp_mono; [done..|]. by apply Qclt_le_weak.
  - rewrite Hc. apply remap_and_clamp_mono; [done..|]. by apply Qclt_le_weak.
Qed.

Lemma cubic_policies_skew_witness :
  let cfg := default_config "balanced" in
  let u := Q2Qc (1 # 4) in
  (1 < num_train_timesteps cfg)%Z ∧
  (min_denoising_steps cfg ≤ max_denoising_steps cfg)%Z ∧
  0 ≤ u ∧ u < Q2Qc (1 # 2) ∧
  (cubic_timestep (with_policy "style" cfg) u
     ≤ remap_and_clamp cfg (Qc_of_Z 1000 / Qc_of_Z 8))%Z ∧
  (remap_and_clamp cfg (Qc_of_Z 1000 - Qc_of_Z 1000 / Qc_of_Z 8)
     ≤ cubic_timestep (with_policy "content" cfg) u)%Z.
Proof.
  intros cfg u.
  assert (H1 : (1 < num_train_timesteps cfg)%Z) by by_compute.
  assert (H2 : (min_denoising_steps cfg ≤ max_denoising_steps cfg)%Z)
    by by_compute.
  assert (H3 : 0 ≤ u) by by_compute.
  assert (H4 : u < Q2Qc (1 # 2)) by by_compute.
  split; [exact H1|]. split; [exact H2|]. split; [exact H3|]. split; [exact H4|].
  exact (proj2 (proj2 (proj2 (proj2 (cubic_policies_skew cfg u H1 H2 H3 H4))))).
Defined.

(** C6, as the specification states it, fails: on a sample of 1000 equally
    spaced draws it is the style timesteps that skew low (794 of them lie
    below the midpoint) and the content timesteps that skew high (206
    below the midpoint), not the other way round. *)
Lemma style_skews_low_content_skews_high :
  let style := default_config "style" in
  let content := default_config "content" in
  let style_ts := cubic_timestep style <$> grid 1000 in
  let content_ts := cubic_timestep content <$> grid 1000 in
  count_below (midpoint style) style_ts = 794%nat ∧
  count_below (midpoint content) content_ts = 206%nat ∧
  ¬ (skews_high style style_ts ∧ skews_low content content_ts).
Proof.
  intros style content style_ts content_ts.
  assert (Hs : count_below (midpoint style) style_ts = 794%nat) by (vm_compute; reflexivity).
  assert (Hc : count_below (midpoint content) content_ts = 206%nat) by (vm_compute; reflexivity).
  split; [exact Hs|]. split; [exact Hc|].
  unfold skews_high, skews_low. rewrite Hs, Hc.
  unfold style_ts, content_ts. rewrite !length_fmap.
  unfold grid. rewrite !length_fmap, !length_seq. lia.
Qed.
End SamplerFacts.

(* ===================================================================== *)
(** * Properties of the network state, the guidance strategies and the
      orchestrator *)
(* ===================================================================== *)

Section TrainerFacts.
Context `{!Backend}.

(** Running the monad: the combinators are unfolded until the state
    transformation shows, and the goal is split along the [match]es that
    are left. *)
Ltac unfold_monad :=
  unfold mbind, M_bind, mret, M_ret, lift, raise, get, modify, no_grad,
    unet_eval, unet_train, set_network_is_active, set_adapter_is_active,
    set_network_multiplier, predict_noise, encode_prompt, backward,
    backward_and_detach, unconditional_latents_of, log, set_network,
    set_adapter, set_unet_training, set_grad_enabled.

Ltac run := repeat first [progress simpl | progress unfold_monad].

Ltac destruct_innermost :=
  match goal with
  | |- context [match ?x with _ => _ end] =>
      lazymatch x with
      | context [match _ with _ => _ end] => fail
      | _ => destruct x eqn:?
      end
  end.

Ltac split_cases :=
  repeat (run; destruct_innermost);
  run; intros; simplify_eq; try done.

Lemma get_prior_prediction_returns self nl ce ma nwl ts kw batch noise ue s r s' :
  get_prior_prediction self nl ce ma nwl ts kw batch noise ue s = (Ok r, s') →
  network s' = network s ∧ adapter s' = adapter s
  ∧ unet_training s' = unet_training s ∧ grad_enabled s' = grad_enabled s.
Proof.
  unfold get_prior_prediction.
  destruct s as [[[act mul]|] [[k aact al]|] ut ge tr]; run.
  all: try destruct k; run.
  all: split_cases.
Qed.

Lemma get_prior_prediction_raises self nl ce ma nwl ts kw batch noise ue s e s' :
  get_prior_prediction self nl ce ma nwl ts kw batch noise ue s = (Raise e, s') →
  network s' = deactivated <$> network s ∧ adapter s' = switched_off <$> adapter s
  ∧ grad_enabled s' = grad_enabled s.
Proof.
  unfold get_prior_prediction.
  destruct s as [[[act mul]|] [[k aact al]|] ut ge tr]; run.
  all: try destruct k; run.
  all: split_cases.
Qed.

(** The state a strategy leaves behind when it returns. *)
Lemma run_strategy_state name nl ce ma w ts kw batch noise s loss s' :
  run_strategy name nl ce ma w ts kw batch noise s = (Ok loss, s') →
  network s' = Some {| is_active := true; multiplier := MList (installed_weights name w) |}
  ∧ adapter s' = adapter s ∧ unet_training s' = true
  ∧ grad_enabled s' = grad_enabled s.
Proof.
  destruct name; unfold run_strategy, installed_weights, polarized;
    [ unfold get_targeted_guidance_loss
    | unfold get_guided_loss_polarity
    | unfold get_targeted_polarity_loss
    | unfold get_guided_loss_targeted_polarity
    | unfold get_guided_loss_masked_polarity ];
    destruct s as [[[act mul]|] ad ut ge tr]; split_cases.
Qed.

(** A strategy that returns has run its backward pass itself. *)
Lemma run_strategy_backward name nl ce ma w ts kw batch noise s loss s' :
  run_strategy name nl ce ma w ts kw batch noise s = (Ok loss, s') →
  backpropagated_inside s s' loss.
Proof.
  unfold backpropagated_inside.
  destruct name; unfold run_strategy;
    [ unfold get_targeted_guidance_loss
    | unfold get_guided_loss_polarity
    | unfold get_targeted_polarity_loss
    | unfold get_guided_loss_targeted_polarity
    | unfold get_guided_loss_masked_polarity ];
    destruct s as [[[act mul]|] ad ut ge tr]; split_cases.
  all: do 2 (split; [done|]).
  all: lazymatch goal with
       | |- context [((_ ++ [?f1]) ++ [?f2]) ++ [EvBackward _ _]] => exists [f1; f2]
       | |- context [(_ ++ [?f1]) ++ [EvBackward _ _]] => exists [f1]
       end.
  all: split; [repeat constructor | by rewrite <- ?app_assoc].
Qed.

(** The polarized pair of scale 1. *)
Lemma polarized_one w : polarized 1 w = w ++ (Qcopp <$> w).
Proof.
  unfold polarized. f_equal.
  - rewrite <- (list_fmap_id w) at 2. apply list_fmap_ext. intros _ x _. simpl. ring.
  - apply list_fmap_ext. intros _ x _. ring.
Qed.

(** C1, as the code has it.  The prior prediction puts the network and
    adapter flags back when it returns, and never touches the multiplier;
    it has no handler for exceptions, so when it raises (in the forward
    pass or before it) the flags stay switched off.  A guidance strategy
    does not restore anything: when it returns, the network is active and
    carries the weights the strategy installed, and the adapter is as it
    was. *)
Theorem network_state_after_call self nl ce ma w ts kw batch noise ue s :
  (∀ r s', get_prior_prediction self nl ce ma w ts kw batch noise ue s = (Ok r, s') →
      network s' = network s ∧ adapter s' = adapter s)
  ∧ (∀ e s', get_prior_prediction self nl ce ma w ts kw batch noise ue s = (Raise e, s') →
      network s' = deactivated <$> network s ∧ adapter s' = switched_off <$> adapter s)
  ∧ (∀ name loss s', run_strategy name nl ce ma w ts kw batch noise s = (Ok loss, s') →
      network s' = Some {| is_active := true;
                           multiplier := MList (installed_weights name w) |}
      ∧ adapter s' = adapter s).
Proof.
  split; [|split].
  - intros r s' Hrun.
    by destruct (get_prior_prediction_returns _ _ _ _ _ _ _ _ _ _ _ _ _ Hrun)
      as (? & ? & _).
  - intros e s' Hrun.
    by destruct (get_prior_prediction_raises _ _ _ _ _ _ _ _ _ _ _ _ _ Hrun)
      as (? & ? & _).
  - intros name loss s' Hrun.
    by destruct (run_strategy_state _ _ _ _ _ _ _ _ _ _ _ _ Hrun) as (? & ? & _).
Qed.

(** Lines 1474-1490 on a NaN loss and on a loss that requires grad. *)
Lemma backward_loss_nan lm loss s :
  isnan (value loss) = true →
  backward_loss lm loss s
  = (Ok {| value := fmul (Fin 0) (mean_all lm); requires_grad := true; attached := false |},
     log (EvBackward (fmul (Fin 0) (mean_all lm)) false) (log (EvPrint "loss is nan") s)).
Proof. intros Hnan. unfold backward_loss, replace_nan. rewrite Hnan. reflexivity. Qed.

Lemma backward_loss_finite lm loss s :
  isnan (value loss) = false → requires_grad loss = true →
  backward_loss lm loss s
  = (Ok (loss_times loss (mean_all lm)),
     log (EvBackward (fmul (value loss) (mean_all lm)) (attached loss)) s).
Proof.
  intros Hnan Hgrad. unfold backward_loss, replace_nan. rewrite Hnan.
  run. rewrite Hgrad. reflexivity.
Qed.

(** C7, as the code has it: a guidance strategy that returns has called
    backward on its loss itself, into the parameters; what it returns is
    that loss detached and requiring grad again, with the value of the
    loss (not zero); the backward pass that the orchestrator then runs on
    it succeeds and reaches no parameter. *)
Theorem strategy_backward_inside name nl ce ma w ts kw batch noise s loss s' lm :
  run_strategy name nl ce ma w ts kw batch noise s = (Ok loss, s') →
  backpropagated_inside s s' loss
  ∧ ∃ loss' s'' prints,
      backward_loss lm loss s' = (Ok loss', s'')
      ∧ attached loss' = false
      ∧ network s'' = network s'
      ∧ Forall is_print prints
      ∧ trace s'' = trace s' ++ prints ++ [EvBackward (value loss') false].
Proof.
  intros Hrun. pose proof (run_strategy_backward _ _ _ _ _ _ _ _ _ _ _ _ Hrun) as Hin.
  split; [exact Hin|]. destruct Hin as (Hgrad & Hdet & _).
  destruct (isnan (value loss)) eqn:Hnan.
  - eexists _, _, [EvPrint "loss is nan"].
    split; [by apply backward_loss_nan|]. repeat split; try done.
    + by repeat constructor.
    + unfold log. simpl. by rewrite <- app_assoc.
  - eexists _, _, [].
    split; [by apply backward_loss_finite|]. rewrite Hdet. repeat split; done.
Qed.

Lemma chunk2_even {A} (t : list A) (n : nat) :
  length t = (2 * n)%nat → (1 ≤ n)%nat → chunk2 t = Ok (take n t, drop n t).
Proof.
  intros Hlen Hn. unfold chunk2. rewrite Hlen.
  rewrite bool_decide_eq_false_2 by lia.
  replace ((2 * n + 1) `div` 2)%nat with n; [done|].
  apply Nat.div_unique with 1%nat; lia.
Qed.

(** C8: the polarity strategy on a batch of [n] items.  It issues one
    forward pass, with the grad mode on, on the [2 * n] latents made of
    the conditional noisy latents followed by the unconditional ones
    (noising keeps the batch size); at
    the moment of that pass the network is active and its multiplier is
    the weights followed by their opposites; the two halves of the
    prediction are both compared with the same noise by an unreduced
    squared error, and the two per-item losses are added before the final
    mean. *)
Theorem polarity_doubled_forward nl ce ma w ts kw batch noise s net uncond out n :
  network s = Some net →
  grad_enabled s = true →
  unconditional_latents batch = Some uncond →
  length (latents batch) = n → length uncond = n → (1 ≤ n)%nat →
  length (add_noise (latents batch) noise ts) = n →
  length (add_noise uncond noise ts) = n →
  let call :=
    {| fc_latents := add_noise (latents batch) noise ts ++ add_noise uncond noise ts;
       fc_conditional_embeddings := concat_prompt_embeds [ce; ce];
       fc_unconditional_embeddings := None;
       fc_timestep := ts ++ ts;
       fc_guidance_scale := 1;
       fc_rescale_cfg := false;
       fc_kwargs := kw;
       fc_grad_enabled := true;
       fc_network := Some {| is_active := true; multiplier := MList (w ++ (Qcopp <$> w)) |};
       fc_adapter := adapter s;
       fc_unet_training := true |} in
  unet_forward call = Ok out →
  length out = (2 * n)%nat →
  let pred_pos := take n out in
  let pred_neg := drop n out in
  let loss := fmean (vzip fadd (mean123 (mse_loss pred_pos noise))
                               (mean123 (mse_loss pred_neg noise))) in
  length (fc_latents call) = (2 * n)%nat
  ∧ get_guided_loss_polarity nl ce ma w ts kw batch noise s
    = (Ok {| value := loss; requires_grad := true; attached := false |},
       {| network := fc_network call;
          adapter := adapter s;
          unet_training := true;
          grad_enabled := true;
          trace := trace s ++ [EvForward call; EvBackward loss true] |}).
Proof.
  intros Hnet Hgrad Hunc Hl Hu Hn Hcond Huncond call Hfwd Hout pred_pos pred_neg loss.
  split.
  { simpl. rewrite length_app, Hcond, Huncond. lia. }
  unfold get_guided_loss_polarity.
  destruct s as [net0 ad ut ge tr]. simpl in *. subst net0 ge.
  run. rewrite Hunc. run.
  fold (polarized 1 w). rewrite polarized_one.
  destruct net as [act mul]. simpl.
  fold call. rewrite Hfwd. simpl.
  rewrite (chunk2_even out n Hout Hn). simpl.
  fold pred_pos pred_neg loss. by rewrite <- app_assoc.
Qed.

Lemma clip_grad_norms_state n s :
  trace (clip_grad_norms n s) = trace s ++ replicate n EvClipGradNorm
  ∧ network (clip_grad_norms n s) = network s
  ∧ adapter (clip_grad_norms n s) = adapter s.
Proof.
  unfold clip_grad_norms.
  assert (Hgen : ∀ l : list nat,
             let s' := foldr (λ _, log EvClipGradNorm) s l in
             trace s' = trace s ++ replicate (length l) EvClipGradNorm
             ∧ network s' = network s ∧ adapter s' = adapter s).
  { induction l as [|i l IH]; simpl.
    - by rewrite app_nil_r.
    - destruct IH as (-> & -> & ->). repeat split.
      rewrite <- app_assoc. f_equal.
      clear. induction (length l) as [|k IHk]; simpl; [done|]. by rewrite IHk. }
  specialize (Hgen (seq 0 n)). by rewrite length_seq in Hgen.
Qed.

(** Lines 1495-1536 cannot fail once a loss is there; the scheduler is
    always stepped, the optimizer unless the step accumulates. *)
Lemma finish_step_returns self loss s :
  ∃ s' rest,
    finish_step self (Some loss) s = (Ok (value loss), s')
    ∧ trace s' = trace s ++ rest
    ∧ EvSchedulerStep ∈ rest
    ∧ (is_grad_accumulation_step self = false → EvOptimizerStep ∈ rest)
    ∧ network s' = network s ∧ adapter s' = adapter s.
Proof.
  unfold finish_step.
  destruct (is_grad_accumulation_step self).
  - repeat (run; destruct_innermost); run;
      eexists _, _; (split; [reflexivity|]); simpl;
      (split; [by rewrite <- ?app_assoc|]); repeat split; try done; set_solver.
  - set (n := if params_are_groups self then param_groups self else 1%nat).
    destruct (clip_grad_norms_state n s) as (Htr & Hnet & Had).
    repeat (run; destruct_innermost); run;
      eexists _, _; (split; [reflexivity|]); simpl; rewrite Htr, Hnet, Had;
      (split; [by rewrite <- ?app_assoc|]); repeat split; try done; set_solver.
Qed.

(** C2: when the loss of the step is NaN the step does not raise.  The
    orchestrator replaces the loss by a zero that requires grad, runs the
    backward pass on it, and goes on to the optimizer step (unless the
    step accumulates gradients) and the scheduler step; NaN is what the
    step reports neither to autograd nor to its caller. *)
Theorem nan_loss_is_replaced self batch sib hai maa x s s0 loss s1 :
  set_step_weights (step_weights sib batch) s = (Ok (), s0) →
  sub_batch_loss self batch hai maa (existsb id (is_reg_list batch))
    (step_weights sib batch) x s0 = (Ok loss, s1) →
  isnan (value loss) = true →
  let m := mean_all (step_loss_multiplier (train_config self) batch) in
  replace_nan loss s1
  = (Ok {| value := Fin 0; requires_grad := true; attached := false |},
     log (EvPrint "loss is nan") s1)
  ∧ ∃ s' rest,
      hook_train_loop self batch sib hai maa [x] s = (Ok (fmul (Fin 0) m), s')
      ∧ trace s' = trace s1 ++ [EvPrint "loss is nan"; EvBackward (fmul (Fin 0) m) false] ++ rest
      ∧ EvSchedulerStep ∈ rest
      ∧ (is_grad_accumulation_step self = false → EvOptimizerStep ∈ rest).
Proof.
  intros Hprep Hloss Hnan m. split.
  { unfold replace_nan. by rewrite Hnan. }
  pose proof (backward_loss_nan (step_loss_multiplier (train_config self) batch)
                loss s1 Hnan) as Hback.
  fold m in Hback.
  match type of Hback with _ = (Ok ?l, ?s2) =>
    destruct (finish_step_returns self l s2) as (s' & rest & Hfin & Htr & Hsched & Hopt & _)
  end.
  exists s', rest. split; [|split; [|done]].
  - unfold hook_train_loop. unfold mbind at 1, M_bind. rewrite Hprep.
    unfold mbind at 1, M_bind. simpl train_sub_batches.
    unfold mbind at 1, M_bind. unfold train_sub_batch.
    unfold mbind at 1, M_bind. rewrite Hloss, Hback.
    unfold mret, M_ret. exact Hfin.
  - rewrite Htr. simpl. by rewrite <- !app_assoc.
Qed.
End TrainerFacts.

(* ===================================================================== *)
(** * Properties of the loss algebra *)
(* ===================================================================== *)

(** ** Arithmetic of floats *)

Local Arguments fadd : simpl never.
Local Arguments fsub : simpl never.
Local Arguments fmul : simpl never.
Local Arguments fdiv : simpl never.

Ltac fnum_cases :=
  unfold fadd, fsub, fmul, fdiv, fsquare, flift2;
  repeat match goal with x : fnum |- _ => destruct x end;
  repeat (case_decide; simpl); try done.

Lemma fmul_1_r x : fmul x (Fin 1) = x.
Proof. fnum_cases. f_equal. ring. Qed.

Lemma fadd_0_r x : fadd x (Fin 0) = x.
Proof. fnum_cases. f_equal. ring. Qed.

Lemma fadd_0_l x : fadd (Fin 0) x = x.
Proof. fnum_cases. f_equal. ring. Qed.

Lemma fadd_neg x y : fadd x (fmul y (Fin (-1))) = fsub x y.
Proof. fnum_cases. f_equal. ring. Qed.

Lemma fadd_assoc x y z : fadd x (fadd y z) = fadd (fadd x y) z.
Proof. fnum_cases. f_equal. ring. Qed.


Lemma fdiv_add x y d : fadd (fdiv x d) (fdiv y d) = fdiv (fadd x y) d.
Proof. fnum_cases. f_equal. by field. Qed.


Lemma of_nat_nonzero n : (1 ≤ n)%nat → Qc_of_Z (Z.of_nat n) ≠ 0.
Proof.
  intros Hn Hz. rewrite <- Z2Qc_inj_0 in Hz. apply Z2Qc_inj in Hz. lia.
Qed.

Lemma fdiv_fdiv x n m :
  (1 ≤ n)%nat → (1 ≤ m)%nat →
  fdiv (fdiv x (of_nat n)) (of_nat m) = fdiv x (of_nat (m * n)).
Proof.
  intros Hn Hm. unfold of_nat. rewrite Nat2Z.inj_mul, Z2Qc_inj_mul.
  pose proof (of_nat_nonzero n Hn) as Hn0. pose proof (of_nat_nonzero m Hm) as Hm0.
  assert (Hmn : Qc_of_Z (Z.of_nat m) * Qc_of_Z (Z.of_nat n) ≠ 0).
  { intros Hz. apply Qcmult_integral in Hz. tauto. }
  fnum_cases. f_equal. by field.
Qed.

(** ** Sums and means *)

Lemma fsum_app l k : fsum (l ++ k) = fadd (fsum l) (fsum k).
Proof.
  unfold fsum. induction l as [|x l IH]; simpl.
  - by rewrite fadd_0_l.
  - by rewrite IH, fadd_assoc.
Qed.

Lemma fsum_cons x l : fsum (x :: l) = fadd x (fsum l).
Proof. done. Qed.


Lemma fsum_div l d :
  l ≠ [] → fsum ((λ x, fdiv x d) <$> l) = fdiv (fsum l) d.
Proof.
  induction l as [|x l IH]; [done|]. intros _.
  rewrite fmap_cons, !fsum_cons. destruct l as [|y l].
  - unfold fsum. simpl. by rewrite !fadd_0_r.
  - rewrite IH by done. apply fdiv_add.
Qed.


Lemma fmean_replicate_1 n : (1 ≤ n)%nat → fmean (replicate n (Fin 1)) = Fin 1.
Proof.
  intros Hn. unfold fmean. rewrite length_replicate.
  assert (Hsum : fsum (replicate n (Fin 1)) = of_nat n).
  { clear Hn. induction n as [|n IH]; [by apply (f_equal Fin), Qc_is_canon|].
    change (replicate (S n) (Fin 1)) with (Fin 1 :: replicate n (Fin 1)).
    rewrite fsum_cons, IH. unfold of_nat, fadd. simpl. f_equal.
    rewrite <- Z2Qc_inj_1, <- Z2Qc_inj_add. f_equal. lia. }
  rewrite Hsum. unfold of_nat.
  pose proof (of_nat_nonzero n Hn). fnum_cases. f_equal. by field.
Qed.

(** ** Broadcasting *)

Lemma bzip_singleton_r {A} (f : A → A → A) xs y :
  bzip f xs [y] = (λ x, f x y) <$> xs.
Proof. by destruct xs as [|x [|x' xs]]. Qed.

Lemma bzip_same_length {A} (f : A → A → A) xs ys :
  length xs = length ys → bzip f xs ys = zip_with f xs ys.
Proof.
  destruct xs as [|x [|x' xs]], ys as [|y [|y' ys]]; simpl; try done.
Qed.

(** The cases of a broadcast: one side is a singleton, one side is empty,
    or both sides have two elements or more. *)
Ltac bzip_cases xs ys :=
  destruct xs as [|? [|? xs]], ys as [|? [|? ys]]; cbn [bzip].

Lemma bzip_fmap_r {A} (f : A → A → A) (g : A → A) xs ys :
  bzip f xs (g <$> ys) = bzip (λ x y, f x (g y)) xs ys.
Proof.
  destruct ys as [|y [|y' ys]]; [by destruct xs as [|? [|? xs]]..|].
  destruct xs as [|x [|x' xs]]; rewrite !fmap_cons; cbn [bzip]; rewrite <- !fmap_cons.
  - done.
  - by rewrite <- list_fmap_compose.
  - apply zip_with_fmap_r.
Qed.

Lemma bzip_ext {A} (f g : A → A → A) xs ys :
  (∀ x y, f x y = g x y) → bzip f xs ys = bzip g xs ys.
Proof.
  intros Hfg. bzip_cases xs ys;
    try first [ done
          | apply list_fmap_ext; intros; apply Hfg
          | apply zip_with_ext; auto ].
Qed.

Lemma fmap_zip_with_compose {A B C D} (f : A → B → C) (g : C → D) l k :
  g <$> zip_with f l k = zip_with (λ x y, g (f x y)) l k.
Proof.
  revert k. induction l as [|x l IH]; intros [|y k]; simpl; [done..|].
  f_equal. apply IH.
Qed.

Lemma fmap_bzip {A} (f : A → A → A) (g : A → A) xs ys :
  g <$> bzip f xs ys = bzip (λ x y, g (f x y)) xs ys.
Proof.
  bzip_cases xs ys;
    first [ done
          | rewrite <- list_fmap_compose; reflexivity
          | apply fmap_zip_with_compose ].
Qed.

(** ** Tensors *)

Lemma tmap_fmap (g : fnum → fnum) (t : tensor) :
  tmap g t = (λ item : list (list fnum), (λ ch : list fnum, g <$> ch) <$> item) <$> t.
Proof. done. Qed.

Lemma tzip_tmap_r f g a b : tzip f a (tmap g b) = tzip (λ x y, f x (g y)) a b.
Proof.
  rewrite tmap_fmap. unfold tzip.
  rewrite bzip_fmap_r. apply bzip_ext. intros item item'.
  rewrite bzip_fmap_r. apply bzip_ext. intros ch ch'.
  apply bzip_fmap_r.
Qed.

Lemma tzip_ext f g a b : (∀ x y, f x y = g x y) → tzip f a b = tzip g a b.
Proof.
  intros Hfg. unfold tzip. apply bzip_ext. intros item item'.
  apply bzip_ext. intros ch ch'. by apply bzip_ext.
Qed.

Lemma tmap_tzip f g a b : tmap g (tzip f a b) = tzip (λ x y, g (f x y)) a b.
Proof.
  rewrite tmap_fmap. unfold tzip.
  rewrite fmap_bzip. apply bzip_ext. intros item item'.
  rewrite fmap_bzip. apply bzip_ext. intros ch ch'.
  apply fmap_bzip.
Qed.

(** The mean squared error is the square of the difference. *)
Lemma mse_loss_alt a b : mse_loss a b = tmap fsquare (tsub a b).
Proof. unfold mse_loss, tsub. by rewrite tmap_tzip. Qed.

(** Multiplying by the ones of [torch.ones((b, 1, 1, 1))] changes nothing. *)
Lemma tmul_ones t : tmul t (ones (length t)) = t.
Proof.
  unfold tmul, tzip, ones.
  assert (Hitem : ∀ item : list (list fnum), bzip (bzip fmul) item [[Fin 1]] = item).
  { intros item. rewrite bzip_singleton_r.
    rewrite <- (list_fmap_id item) at 2. apply list_fmap_ext. intros _ ch _.
    rewrite bzip_singleton_r.
    rewrite <- (list_fmap_id ch) at 2. apply list_fmap_ext. intros _ x _.
    apply fmul_1_r. }
  rewrite bzip_same_length by by rewrite length_replicate.
  induction t as [|item t IH]; [done|]. simpl. by rewrite Hitem, IH.
Qed.


Lemma fsum_flat (t : tensor) :
  fsum (concat (concat t)) = fsum ((λ item, fsum (concat item)) <$> t).
Proof.
  induction t as [|item t IH]; [done|].
  simpl. by rewrite concat_app, fsum_app, IH.
Qed.

Lemma length_concat_uniform {A} (l : list (list A)) n :
  Forall (λ x, length x = n) l → length (concat l) = (length l * n)%nat.
Proof.
  induction 1 as [|x l Hx _ IH]; [done|]. simpl. rewrite length_app, IH. lia.
Qed.

Lemma has_shape_items b c p t :
  has_shape b c p t → Forall (λ item, length (concat item) = (c * p)%nat) t.
Proof.
  intros [_ Hitems]. eapply Forall_impl; [exact Hitems|].
  intros item [<- Hchs]. by apply length_concat_uniform.
Qed.

Lemma has_shape_size b c p t :
  has_shape b c p t → length (concat (concat t)) = (b * (c * p))%nat.
Proof.
  intros Hs. pose proof (has_shape_items _ _ _ _ Hs) as Hitems.
  destruct Hs as [<- _].
  induction Hitems as [|item t Hitem _ IH]; [done|].
  simpl. rewrite concat_app, length_app, IH, Hitem. lia.
Qed.

(** The mean of the per-item means is the mean of all elements, for a
    tensor whose items have one size. *)
Lemma mean_of_item_means b c p t :
  has_shape b c p t → (1 ≤ b)%nat → (1 ≤ c * p)%nat →
  fmean (mean123 t) = mean_all t.
Proof.
  intros Hs Hb Hn. pose proof (has_shape_items _ _ _ _ Hs) as Hitems.
  assert (Hall : mean_all t = fdiv (fsum (concat (concat t))) (of_nat (b * (c * p)))).
  { unfold mean_all, fmean. by rewrite (has_shape_size _ _ _ _ Hs). }
  rewrite Hall. clear Hall.
  assert (Hmean : ∀ l, fmean l = fdiv (fsum l) (of_nat (length l))) by done.
  rewrite Hmean. unfold mean123. rewrite length_fmap.
  assert (Hmeans : (λ item, fmean (concat item)) <$> t
                   = (λ x, fdiv x (of_nat (c * p))) <$> ((λ item, fsum (concat item)) <$> t)).
  { rewrite <- list_fmap_compose. apply list_fmap_ext. intros i item Hi. simpl.
    unfold fmean. rewrite Forall_forall in Hitems.
    rewrite (Hitems item); [done|]. by eapply list_elem_of_lookup_2. }
  rewrite Hmeans, fsum_div, <- fsum_flat.
  - destruct Hs as [-> _]. by apply fdiv_fdiv.
  - destruct Hs as [Hlen _]. destruct t; simpl in *; [lia|done].
Qed.

Lemma has_shape_length b c p t : has_shape b c p t → length t = b.
Proof. by intros [? _]. Qed.

Lemma has_shape_tzip f b c p t u :
  has_shape b c p t → has_shape b c p u → has_shape b c p (tzip f t u).
Proof.
  intros [Hb Ht] [Hb' Hu]. unfold tzip.
  rewrite bzip_same_length by congruence.
  split; [rewrite length_zip_with; lia|].
  clear Hb Hb'. revert u Hu. induction Ht as [|item t [Hc Hchs] _ IH]; intros u Hu; [done|].
  destruct Hu as [|item' u [Hc' Hchs'] Hu]; [done|]. simpl.
  constructor; [|by apply IH].
  rewrite bzip_same_length by congruence.
  split; [rewrite length_zip_with; lia|].
  clear Hc Hc' IH. revert item' Hchs'.
  induction Hchs as [|ch item Hp _ IH]; intros item' Hchs'; [done|].
  destruct Hchs' as [|ch' item' Hp' Hchs']; [done|]. simpl.
  constructor; [|by apply IH].
  rewrite bzip_same_length by congruence. rewrite length_zip_with; lia.
Qed.

(** ** Finite tensors *)

Lemma Forall_zip_with_both {A} (P Q R : A → Prop) (f : A → A → A) xs ys :
  (∀ x y, P x → Q y → R (f x y)) →
  Forall P xs → Forall Q ys → Forall R (zip_with f xs ys).
Proof.
  intros Hf Hxs. revert ys. induction Hxs as [|x xs Hx _ IH]; intros ys Hys; [done|].
  destruct Hys as [|y ys Hy Hys]; [done|]. simpl. constructor; auto.
Qed.

Lemma Forall_bzip {A} (P Q R : A → Prop) (f : A → A → A) xs ys :
  (∀ x y, P x → Q y → R (f x y)) →
  Forall P xs → Forall Q ys → Forall R (bzip f xs ys).
Proof.
  intros Hf Hxs Hys.
  assert (Hzip := Forall_zip_with_both P Q R f xs ys Hf Hxs Hys).
  assert (Hl : ∀ x, P x → Forall R (f x <$> ys)).
  { intros x Hx. apply Forall_fmap. eapply Forall_impl; [exact Hys|]. simpl. auto. }
  assert (Hr : ∀ y, Q y → Forall R ((λ x, f x y) <$> xs)).
  { intros y Hy. apply Forall_fmap. eapply Forall_impl; [exact Hxs|]. simpl. auto. }
  bzip_cases xs ys; try done.
  all: first [ apply Hl; by inversion Hxs | apply Hr; by inversion Hys ].
Qed.

Lemma nonneg_square_diff x y :
  isnan x = false → isnan y = false → nonneg (fsquare (fsub x y)).
Proof.
  destruct x as [a|], y as [b|]; try done. intros _ _. simpl.
  generalize (a - b). intros d. qc_to_q. nra.
Qed.

Lemma nonneg_mse_loss a b :
  finite a → finite b → Forall (Forall (Forall nonneg)) (mse_loss a b).
Proof.
  intros Ha Hb. unfold mse_loss, tzip.
  eapply Forall_bzip; [|exact Ha|exact Hb]. intros item item' Hi Hi'.
  eapply Forall_bzip; [|exact Hi|exact Hi']. intros ch ch' Hc Hc'.
  eapply Forall_bzip; [|exact Hc|exact Hc']. intros x y. apply nonneg_square_diff.
Qed.

Lemma nonneg_fsum l : Forall nonneg l → nonneg (fsum l).
Proof.
  induction 1 as [|x l Hx _ IH]; [done|]. rewrite fsum_cons.
  destruct x as [a|], (fsum l) as [b|]; try done. simpl in *.
  replace 0 with (0 + 0) by ring. by apply Qcplus_le_compat.
Qed.

Lemma nonneg_fmean l : l ≠ [] → Forall nonneg l → nonneg (fmean l).
Proof.
  intros Hl Hall. pose proof (nonneg_fsum l Hall) as Hsum. unfold fmean.
  assert (Hn : (1 ≤ length l)%nat) by (destruct l; simpl; [done|lia]).
  pose proof (of_nat_nonzero _ Hn) as Hnz.
  destruct (fsum l) as [a|]; [|done]. unfold of_nat, fdiv. case_decide; [done|].
  simpl in *. unfold Qcdiv. apply Qcmult_nonneg_nonneg; [done|].
  apply Qclt_le_weak, Qcinv_pos. rewrite <- Z2Qc_inj_0.
  apply (proj1 (Z2Qc_inj_lt _ _)). lia.
Qed.

Lemma Forall_concat {A} (P : A → Prop) (l : list (list A)) :
  Forall (Forall P) l → Forall P (concat l).
Proof. induction 1; simpl; [done|]. by apply Forall_app. Qed.

Lemma nonneg_mean_all t :
  concat (concat t) ≠ [] → Forall (Forall (Forall nonneg)) t → nonneg (mean_all t).
Proof.
  intros Hne Hall. apply nonneg_fmean; [done|]. by do 2 apply Forall_concat.
Qed.

Lemma nonneg_not_nan x : nonneg x → isnan x = false.
Proof. by destruct x. Qed.

(** ** A tensor against itself *)

Lemma bzip_diag {A} (f : A → A → A) xs : bzip f xs xs = (λ x, f x x) <$> xs.
Proof. rewrite bzip_same_length by done. apply zip_with_diag. Qed.

Lemma mse_loss_diag t : finite t → mse_loss t t = tmap (λ _, Fin 0) t.
Proof.
  intros Hfin. unfold mse_loss, tzip. rewrite tmap_fmap, bzip_diag.
  apply Forall_fmap_ext. eapply Forall_impl; [exact Hfin|]. intros item Hitem. simpl.
  rewrite bzip_diag.
  apply Forall_fmap_ext. eapply Forall_impl; [exact Hitem|]. intros ch Hch. simpl.
  rewrite bzip_diag.
  apply Forall_fmap_ext. eapply Forall_impl; [exact Hch|]. intros [a|] Ha; [|done].
  simpl. unfold fsquare, fsub, fmul. simpl. f_equal. ring.
Qed.

Lemma bzip_fst {A} (f : A → A → A) xs ys :
  Forall2 (λ x y, f x y = x) xs ys → bzip f xs ys = xs.
Proof.
  intros Hall. rewrite bzip_same_length by by eapply Forall2_length.
  induction Hall as [|x y xs ys Hxy _ IH]; [done|]. simpl. by rewrite Hxy, IH.
Qed.

Lemma Forall2_same_shape {A B} (R : A → B → Prop) (P : A → Prop) (Q : B → Prop) xs ys :
  length xs = length ys → Forall P xs → Forall Q ys →
  (∀ x y, P x → Q y → R x y) → Forall2 R xs ys.
Proof.
  intros Hlen Hxs. revert ys Hlen.
  induction Hxs as [|x xs Hx _ IH]; intros [|y ys] Hlen Hys HR; simplify_eq/=; [done|].
  inversion_clear Hys. constructor; auto.
Qed.

(** Subtracting zeros of the same shape changes nothing. *)
Lemma tsub_zeros b c p (loss t : tensor) :
  has_shape b c p loss → has_shape b c p t →
  tsub loss (tmap (λ _, Fin 0) t) = loss.
Proof.
  intros [Hb Hl] [Hb' Ht]. unfold tsub. rewrite tzip_tmap_r. unfold tzip.
  apply bzip_fst.
  eapply Forall2_same_shape; [congruence|exact Hl|exact Ht|].
  intros item item' [Hc Hchs] [Hc' Hchs']. apply bzip_fst.
  eapply Forall2_same_shape; [congruence|exact Hchs|exact Hchs'|].
  intros ch ch' Hp Hp'. apply bzip_fst.
  eapply (Forall2_same_shape _ (λ _, True) (λ _, True));
    [congruence|by apply Forall_true..|].
  intros [a|] _ _ _; [|done]. unfold fsub. simpl. f_equal. ring.
Qed.

Lemma has_shape_tmap f b c p t : has_shape b c p t → has_shape b c p (tmap f t).
Proof.
  intros [Hb Ht]. unfold tmap. split; [by rewrite length_map|].
  rewrite Forall_map. eapply Forall_impl; [exact Ht|]. intros item [Hc Hchs]. simpl.
  split; [by rewrite length_map|].
  rewrite Forall_map. eapply Forall_impl; [exact Hchs|]. intros ch Hp. simpl.
  by rewrite length_map.
Qed.

Lemma fsum_zeros l : Forall (λ x, x = Fin 0) l → fsum l = Fin 0.
Proof.
  induction 1 as [|x l -> _ IH]; [done|]. by rewrite fsum_cons, IH, fadd_0_r.
Qed.

Lemma mean_all_zeros b c p (t : tensor) :
  has_shape b c p t → (1 ≤ b)%nat → (1 ≤ c * p)%nat →
  mean_all (tmap (λ _, Fin 0) t) = Fin 0.
Proof.
  intros Hs Hb Hcp. unfold mean_all, fmean.
  rewrite (has_shape_size b c p) by by apply has_shape_tmap.
  rewrite fsum_zeros.
  - unfold fdiv, of_nat.
    pose proof (of_nat_nonzero (b * (c * p)) ltac:(nia)). case_decide; [done|].
    f_equal. unfold Qcdiv. ring.
  - do 2 apply Forall_concat. unfold tmap.
    rewrite Forall_map. apply Forall_true. intros item.
    rewrite Forall_map. apply Forall_true. intros ch.
    rewrite Forall_map. by apply Forall_true.
Qed.

Section LossFacts.
Context `{!Backend}.

Ltac unfold_monad :=
  unfold mbind, M_bind, mret, M_ret, lift, raise, get, modify.


(** The loss of the plain scenario, for any mask and multipliers, with or
    without a prior prediction. *)
Lemma calculate_loss_plain self noise_pred noise noisy_latents timesteps batch
    mask_multiplier prior_pred s :
  plain_settings self → adapter s = None →
  let tc := train_config self in
  let pred := pred_data noise_pred in
  let target :=
    match prior_pred with
    | Some prior => if do_prior_divergence tc then noise else prior
    | None => noise
    end in
  calculate_loss self noise_pred noise noisy_latents timesteps batch
    mask_multiplier prior_pred s
  = (Ok {| value := fmean (masked_item_loss
                             (prior_divergence tc pred prior_pred (mse_loss pred target))
                             mask_multiplier (Fin <$> loss_multiplier_list batch));
           requires_grad := pred_tracked noise_pred;
           attached := pred_tracked noise_pred |}, s).
Proof.
  intros (Htarget & Htype & Hnorm & Hscaler & Hcpn & Himp & Hturbo & Hgos
          & Hsnr & Hmin & Hpt & Hv3) Had tc pred target.
  unfold calculate_loss, scale_prediction, select_target, elementwise_loss,
    inverted_mask_prior_loss, snr_weighting, gamma_set, take_additional_loss.
  subst tc pred target. simpl in Htarget, Htype, Hnorm, Hscaler, Hcpn, Himp, Hturbo,
    Hgos, Hsnr, Hmin.
  rewrite Htarget, Htype, Hnorm, Hscaler, Hcpn, Himp, Hturbo, Hgos,
    Hsnr, Hmin, Hpt, Hv3.
  rewrite bool_decide_eq_false_2 by (intros Hne; by apply Hne).
  unfold_monad. cbn [andb orb negb String.eqb Ascii.eqb Bool.eqb].
  destruct prior_pred as [prior|]; cbn [andb orb negb].
  - destruct (do_prior_divergence (train_config self)); cbn [negb];
      rewrite Had; reflexivity.
  - rewrite Had. reflexivity.
Qed.


Lemma plain_masked_mean b c p (loss : tensor) :
  has_shape b c p loss → (1 ≤ b)%nat → (1 ≤ c * p)%nat →
  fmean (masked_item_loss loss (ones b) (Fin <$> replicate b 1)) = mean_all loss.
Proof.
  intros Hs Hb Hn. unfold masked_item_loss.
  rewrite <- (has_shape_length _ _ _ _ Hs) at 1. rewrite tmul_ones.
  rewrite fmap_replicate. unfold vzip.
  rewrite bzip_same_length
    by (unfold mean123; rewrite length_fmap, length_replicate; by destruct Hs).
  rewrite zip_with_replicate_r_eq
    by (unfold mean123; rewrite length_fmap; by destruct Hs).
  replace (flip fmul (Fin 1) <$> mean123 loss) with (mean123 loss).
  - by eapply mean_of_item_means.
  - rewrite <- (list_fmap_id (mean123 loss)) at 1.
    apply list_fmap_ext. intros _ x _. simpl. unfold flip. by rewrite fmul_1_r.
Qed.

Lemma concat_replicate_singleton {A} (n : nat) (x : A) :
  concat (replicate n [x]) = replicate n x.
Proof. induction n as [|n IH]; [done|]. simpl. by rewrite IH. Qed.

Lemma plain_loss_multiplier tc batch b :
  is_reg_list batch = replicate b false → (1 ≤ b)%nat →
  mean_all (step_loss_multiplier tc batch) = Fin 1.
Proof.
  intros Hreg Hb. unfold mean_all, step_loss_multiplier.
  rewrite Hreg, fmap_replicate, !concat_replicate_singleton.
  by apply fmean_replicate_1.
Qed.

Lemma existsb_replicate_false b : existsb id (replicate b false) = false.
Proof. induction b as [|b IH]; [done|]. simpl. exact IH. Qed.

Lemma mse_finite (pred noise : tensor) b c p :
  has_shape b c p pred → has_shape b c p noise → (1 ≤ b)%nat → (1 ≤ c * p)%nat →
  finite pred → finite noise →
  nonneg (mean_all (mse_loss pred noise)).
Proof.
  intros Hp Hn Hb Hcp Hfp Hfn.
  apply nonneg_mean_all; [|by apply nonneg_mse_loss].
  pose proof (has_shape_size _ _ _ _ (has_shape_tzip (λ x y, fsquare (fsub x y))
                                        _ _ _ _ _ Hp Hn)) as Hsize.
  fold mse_loss in Hsize. intros Hnil. rewrite Hnil in Hsize. simpl in Hsize. nia.
Qed.

Lemma set_step_weights_returns w s :
  set_step_weights w s = (Ok (), (set_step_weights w s).2).
Proof.
  unfold set_step_weights, mbind, M_bind, get, modify, set_network_multiplier,
    mret, M_ret.
  destruct s as [[n|] ad ut ge tr]; reflexivity.
Qed.

(** C10, as the code has it: a step on a batch of [b] items (4, for
    instance) with no mask, no regularization item, noise target, mean
    squared error, no prior prediction and no signal-to-noise
    reweighting.  For a finite prediction and noise, [calculate_loss]
    returns the mean over the items of the means of
    [(prediction - noise)^2] over each item, and so does the orchestrator,
    whose final multiplier is 1.  Over exact numbers this is the mean of
    [(prediction - noise)^2] over all elements; over rounded numbers it
    need not be. *)
Theorem plain_step_loss_is_mean_of_item_means self batch hai maa x s pred b c p :
  plain_step self batch b →
  adapter s = None → grad_enabled s = true →
  has_shape b c p pred → has_shape b c p (noise_of x) →
  (1 ≤ b)%nat → (1 ≤ c * p)%nat →
  finite pred → finite (noise_of x) →
  mask_multiplier_of x = ones b →
  let s0 := (set_step_weights (step_weights false batch) s).2 in
  unet_forward (direct_call self x s0) = Ok pred →
  let loss := fmean (mean123 (mse_loss pred (noise_of x))) in
  calculate_loss self {| pred_data := pred; pred_tracked := true |} (noise_of x)
    (noisy_latents_of x) (timesteps_of x) batch (mask_multiplier_of x) None
    (log (EvForward (direct_call self x s0)) s0)
  = (Ok {| value := loss; requires_grad := true; attached := true |},
     log (EvForward (direct_call self x s0)) s0)
  ∧ loss = mean_all (tmap fsquare (tsub pred (noise_of x)))
  ∧ ∃ s', hook_train_loop self batch false hai maa [x] s = (Ok loss, s')
          ∧ EvBackward loss true ∈ trace s'.
Proof.
  intros (Hplain & Hdiv & Hprior & Hguided & Hassist & Hunc & Hmask & Hreg & Hlm)
         Had Hgrad Hp Hn Hb Hcp Hfp Hfn Hones s0 Hfwd loss.
  set (mse := mean_all (tmap fsquare (tsub pred (noise_of x)))).
  assert (Hmeans : loss = mse).
  { unfold loss, mse. rewrite <- mse_loss_alt.
    apply (mean_of_item_means b c p); [by apply has_shape_tzip|done..]. }
  clearbody loss. subst loss.
  assert (Had0 : adapter s0 = None).
  { unfold s0, set_step_weights. destruct s as [[n|] ad ut ge tr]; simpl in *; by subst. }
  assert (Hgrad0 : grad_enabled s0 = true).
  { unfold s0, set_step_weights. destruct s as [[n|] ad ut ge tr]; simpl in *; by subst. }
  assert (Hvalue : fmean (masked_item_loss (mse_loss pred (noise_of x)) (ones b)
                            (Fin <$> replicate b 1)) = mse).
  { rewrite (plain_masked_mean b c p) by (done || by apply has_shape_tzip).
    unfold mse. by rewrite mse_loss_alt. }
  assert (Hcalc : calculate_loss self {| pred_data := pred; pred_tracked := true |}
            (noise_of x) (noisy_latents_of x) (timesteps_of x) batch
            (mask_multiplier_of x) None (log (EvForward (direct_call self x s0)) s0)
          = (Ok {| value := mse; requires_grad := true; attached := true |},
             log (EvForward (direct_call self x s0)) s0)).
  { rewrite calculate_loss_plain by done. simpl.
    by rewrite Hones, Hlm, Hvalue. }
  split; [exact Hcalc|]. split; [reflexivity|].
  assert (Hnn : nonneg mse).
  { unfold mse. rewrite <- mse_loss_alt. by eapply mse_finite. }
  assert (Hloss : sub_batch_loss self batch hai maa (existsb id (is_reg_list batch))
            (step_weights false batch) x s0
          = (Ok {| value := mse; requires_grad := true; attached := true |},
             log (EvForward (direct_call self x s0)) s0)).
  { unfold sub_batch_loss, wants_prior. unfold mbind at 1, M_bind, get.
    destruct Hplain as (_ & _ & _ & _ & Hcpn & Himp & _). simpl in Hcpn, Himp.
    rewrite Hcpn, Himp, Hprior, Hassist, Hunc, Hguided, Hreg, existsb_replicate_false.
    rewrite !andb_false_r. simpl.
    unfold mbind at 1, M_bind, mret, M_ret. simpl.
    unfold mbind, M_bind, predict_noise. fold (direct_call self x s0).
    rewrite Hfwd, Hgrad0. exact Hcalc. }
  pose proof (backward_loss_finite (step_loss_multiplier (train_config self) batch)
                {| value := mse; requires_grad := true; attached := true |}
                (log (EvForward (direct_call self x s0)) s0)
                (nonneg_not_nan _ Hnn) eq_refl) as Hback.
  rewrite (plain_loss_multiplier _ _ b) in Hback by done.
  unfold loss_times in Hback. simpl in Hback. rewrite fmul_1_r in Hback.
  match type of Hback with _ = (Ok ?l, ?s2) =>
    destruct (finish_step_returns self l s2) as (s' & rest & Hfin & Htr & _)
  end.
  exists s'. split.
  - unfold hook_train_loop. unfold mbind at 1, M_bind.
    rewrite set_step_weights_returns. fold s0.
    unfold mbind at 1, M_bind. simpl train_sub_batches.
    unfold train_sub_batch. unfold mbind at 1, M_bind. unfold mbind at 1, M_bind.
    change (step_weights false batch) with (network_weight_list batch) in Hloss.
    rewrite Hloss, Hback. unfold mret, M_ret. exact Hfin.
  - rewrite Htr. simpl. set_solver.
Qed.

(** C9, as the code has it.  With prior-divergence enabled and a prior
    prediction, the squared error between prediction and prior prediction
    is subtracted from the loss, element by element.  When the prediction
    equals the prior prediction that term is zero, so it leaves the loss
    as it is; the computed loss is then the plain loss against the noise,
    which is at least the loss 0 computed with prior-divergence disabled
    (where the target is the prior prediction itself): enabling it does
    not decrease the loss. *)
Theorem prior_divergence_subtracts self_on self_off pred noise noisy_latents
    timesteps batch s b c p (prior loss : tensor) :
  plain_settings self_on → plain_settings self_off →
  do_prior_divergence (train_config self_on) = true →
  do_prior_divergence (train_config self_off) = false →
  adapter s = None →
  has_shape b c p (pred_data pred) → has_shape b c p noise →
  (1 ≤ b)%nat → (1 ≤ c * p)%nat →
  finite (pred_data pred) → finite noise →
  loss_multiplier_list batch = replicate b 1 →
  prior_divergence (train_config self_on) (pred_data pred) (Some prior) loss
  = tsub loss (mse_loss (pred_data pred) prior)
  ∧ (has_shape b c p loss →
     prior_divergence (train_config self_on) (pred_data pred)
       (Some (pred_data pred)) loss = loss)
  ∧ ∃ v : Qc,
      0 ≤ v
      ∧ mean_all (mse_loss (pred_data pred) noise) = Fin v
      ∧ calculate_loss self_on pred noise noisy_latents timesteps batch (ones b)
          (Some (pred_data pred)) s
        = (Ok {| value := Fin v; requires_grad := pred_tracked pred;
                 attached := pred_tracked pred |}, s)
      ∧ calculate_loss self_off pred noise noisy_latents timesteps batch (ones b)
          (Some (pred_data pred)) s
        = (Ok {| value := Fin 0; requires_grad := pred_tracked pred;
                 attached := pred_tracked pred |}, s).
Proof.
  intros Hon Hoff Hdon Hdoff Had Hp Hn Hb Hcp Hfp Hfn Hlm.
  assert (Hsub : ∀ prior loss,
             prior_divergence (train_config self_on) (pred_data pred) (Some prior) loss
             = tsub loss (mse_loss (pred_data pred) prior)).
  { intros prior' loss'. unfold prior_divergence. rewrite Hdon.
    unfold tadd, tscale, tsub. rewrite tzip_tmap_r. apply tzip_ext.
    intros x y. apply fadd_neg. }
  assert (Hzero : ∀ loss, has_shape b c p loss →
             prior_divergence (train_config self_on) (pred_data pred)
               (Some (pred_data pred)) loss = loss).
  { intros loss' Hl. rewrite Hsub, mse_loss_diag by done. by eapply tsub_zeros. }
  split; [apply Hsub|]. split; [apply Hzero|].
  pose proof (mse_finite _ _ _ _ _ Hp Hn Hb Hcp Hfp Hfn) as Hnn.
  destruct (mean_all (mse_loss (pred_data pred) noise)) as [v|] eqn:Hv; [|done].
  exists v. split; [exact Hnn|]. split; [done|]. split.
  - rewrite calculate_loss_plain by done. cbv zeta. rewrite Hdon, Hlm.
    rewrite Hzero by by apply has_shape_tzip.
    rewrite (plain_masked_mean b c p) by (done || by apply has_shape_tzip).
    by rewrite Hv.
  - rewrite calculate_loss_plain by done. cbv zeta. rewrite Hdoff, Hlm.
    unfold prior_divergence. rewrite Hdoff.
    rewrite (plain_masked_mean b c p) by (done || by apply has_shape_tzip).
    rewrite mse_loss_diag by done. by rewrite (mean_all_zeros b c p).
Qed.

(** C3, as the code has it (outside turbo training).  (a, b) When
    [correct_pred_norm] is set, or [inverted_mask_prior] is set and a
    prior prediction and a mask exist, the target is the noise:
    norm-corrected when [correct_pred_norm] is set, a prior prediction
    exists and the batch has no regularization item, raw otherwise; no
    blend of noise and prior prediction is formed.  (c) Otherwise the
    prior prediction when one exists and prior-divergence is not
    requested; (d) otherwise the scheduler velocity for a v-prediction
    model; (e) otherwise the raw noise. *)
Theorem target_selection self noise_pred noise timesteps batch mask_multiplier
    (prior_pred : option tensor) :
  train_turbo (train_config self) = false →
  let tc := train_config self in
  let is_reg := existsb id (is_reg_list batch) in
  let norm_or_mask :=
    correct_pred_norm tc
    || (inverted_mask_prior tc && bool_decide (is_Some prior_pred)
        && bool_decide (is_Some (mask_tensor batch))) in
  let corrected :=
    match prior_pred with
    | Some prior =>
        if correct_pred_norm tc && negb is_reg
        then correct_noise_norm tc prior noise_pred noise
        else noise
    | None => noise
    end in
  let target :=
    target_of (select_target self noise_pred noise timesteps batch
                 mask_multiplier prior_pred) in
  (norm_or_mask = true → target = Some corrected)
  ∧ (norm_or_mask = false → ∀ prior, prior_pred = Some prior →
       do_prior_divergence tc = false → target = Some prior)
  ∧ (norm_or_mask = false →
       prior_pred = None ∨ do_prior_divergence tc = true →
       prediction_type self = "v_prediction" →
       ∀ imgs, batch_tensor batch = Some imgs →
       target = Some (get_velocity imgs noise timesteps))
  ∧ (norm_or_mask = false →
       prior_pred = None ∨ do_prior_divergence tc = true →
       prediction_type self ≠ "v_prediction" →
       target = Some noise).
Proof.
  intros Hturbo tc is_reg norm_or_mask corrected target.
  subst target. unfold target_of, select_target. rewrite Hturbo.
  fold tc is_reg. fold norm_or_mask.
  repeat split.
  - intros Hnm. rewrite Hnm. unfold corrected.
    destruct prior_pred as [prior|], (correct_pred_norm tc && negb is_reg);
      by destruct (inverted_mask_prior tc && _ && _).
  - intros Hnm prior -> Hdiv. by rewrite Hnm, Hdiv.
  - intros Hnm Hprior Hv imgs Himgs. rewrite Hnm, Hv, Himgs.
    destruct Hprior as [-> | Hdiv]; [done|]. rewrite Hdiv. by destruct prior_pred.
  - intros Hnm Hprior Hv. rewrite Hnm.
    apply String.eqb_neq in Hv. rewrite Hv.
    destruct Hprior as [-> | Hdiv]; [done|]. rewrite Hdiv. by destruct prior_pred.
Qed.
End LossFacts.

(* ===================================================================== *)
(** * The model run on sample batches *)
(* ===================================================================== *)

(** C1 as stated does not hold.  With a forward pass that raises, the prior
    prediction hands control back with the network switched off, although
    it was active before the call; and the polarity strategy returns with
    the doubled, signed weight list in [network.multiplier], not with the
    list that was there before the call. *)
Lemma network_state_not_restored :
  let s := trainer_with [1; 1] in
  let batch := batch_of latents2 (Some unconditional2) "polarity" in
  let prior :=
    @get_prior_prediction failing_backend (settings_of divergence_config)
      latents2 no_embeds false [1; 1] timesteps2 ∅ batch noise2 None s in
  let guided :=
    @get_guided_loss_polarity echo_backend latents2 no_embeds false [1; 1]
      timesteps2 ∅ batch noise2 s in
  prior.1 = Raise (RuntimeError "CUDA out of memory")
  ∧ is_active <$> network s = Some true
  ∧ is_active <$> network prior.2 = Some false
  ∧ is_Some (returned guided.1)
  ∧ multiplier <$> network s = Some (MList [1; 1])
  ∧ multiplier <$> network guided.2 = Some (MList (polarized 1 [1; 1]))
  ∧ network guided.2 ≠ network s.
Proof.
  repeat split; try (vm_compute; reflexivity).
  - vm_compute. eexists. reflexivity.
  - vm_compute. discriminate.
Qed.

(** The third part of [network_state_after_call] on the sample batch: the
    polarity strategy returns, and leaves the network active with the
    weights it installed. *)
Lemma network_state_after_call_witness :
  let s := trainer_with [1; 1] in
  let batch := batch_of latents2 (Some unconditional2) "polarity" in
  let guided :=
    @run_strategy echo_backend Polarity latents2 no_embeds false [1; 1]
      timesteps2 ∅ batch noise2 s in
  is_Some (returned guided.1)
  ∧ network guided.2
    = Some {| is_active := true; multiplier := MList (installed_weights Polarity [1; 1]) |}
  ∧ adapter guided.2 = adapter s.
Proof.
  intros s batch guided. split.
  - vm_compute. eexists. reflexivity.
  - destruct guided as [[loss|e] s'] eqn:Hrun.
    + exact (proj2 (proj2 (@network_state_after_call echo_backend
               (settings_of plain_config) latents2 no_embeds false [1; 1]
               timesteps2 ∅ batch noise2 None s)) Polarity loss s' Hrun).
    + vm_compute in Hrun. discriminate Hrun.
Defined.

(** C3 (b) as stated does not hold.  With [inverted_mask_prior] set, a
    prior prediction and a mask, the code takes the noise as the target;
    the blend of noise and prior prediction under the mask is a different
    tensor. *)
Lemma target_is_not_a_masked_blend :
  let self := settings_of inverted_mask_config in
  let batch := with_mask mask2 (batch_of latents2 None EmptyString) in
  target_of (@select_target echo_backend self latents2 noise2 timesteps2 batch
               mask2 (Some prior2)) = Some noise2
  ∧ @select_target_spec echo_backend self latents2 noise2 timesteps2 batch
      mask2 (Some prior2) = masked_blend noise2 prior2 mask2
  ∧ masked_blend noise2 prior2 mask2 ≠ noise2.
Proof.
  repeat split; try (vm_compute; reflexivity).
  vm_compute. discriminate.
Qed.

(** [target_selection] on the same input. *)
Lemma target_selection_witness :
  let self := settings_of inverted_mask_config in
  let batch := with_mask mask2 (batch_of latents2 None EmptyString) in
  train_turbo (train_config self) = false
  ∧ target_of (@select_target echo_backend self latents2 noise2 timesteps2 batch
                 mask2 (Some prior2)) = Some noise2.
Proof.
  intros self batch. split; [reflexivity|].
  exact (proj1 (@target_selection echo_backend self latents2 noise2 timesteps2
                  batch mask2 (Some prior2) eq_refl) eq_refl).
Defined.

(** The rounding on known numbers: 0.1 and 1/3 round to the [float32]
    numbers 0x3DCCCCCD and 0x3EAAAAAB; of the integers next to [2 ^ 24],
    which are halfway between two numbers, each goes to the even
    neighbour; a number with 24 bits is not changed. *)
Lemma binary32_round_examples :
  Binary32.round (Q2Qc (1 # 10)) = Q2Qc (13421773 # 134217728)
  ∧ Binary32.round (Q2Qc (1 # 3)) = Q2Qc (11184811 # 33554432)
  ∧ Binary32.round (Q2Qc (- 1 # 3)) = Q2Qc (- 11184811 # 33554432)
  ∧ Binary32.round (Q2Qc 16777217) = Q2Qc 16777216
  ∧ Binary32.round (Q2Qc 16777219) = Q2Qc 16777220
  ∧ Binary32.round (Q2Qc (16777215 # 1024)) = Q2Qc (16777215 # 1024).
Proof. repeat split; by_decide. Qed.



(** C7 as stated does not hold for the value.  On the sample batch the
    polarity strategy returns 17, the value of the loss on which it has
    just called backward, not zero. *)
Lemma strategy_returns_its_loss :
  let s := trainer_with [1; 1] in
  let batch := batch_of latents2 (Some unconditional2) "polarity" in
  let guided :=
    @get_guided_loss_polarity echo_backend latents2 no_embeds false [1; 1]
      timesteps2 ∅ batch noise2 s in
  let loss := default NaN (value <$> returned guided.1) in
  is_Some (returned guided.1)
  ∧ loss = Fin (Q2Qc 17)
  ∧ loss ≠ Fin 0
  ∧ last (trace guided.2) = Some (EvBackward loss true).
Proof.
  intros s batch guided loss.
  split; [vm_compute; eexists; reflexivity|].
  split; [by_decide|].
  split; [by_decide|].
  vm_compute. reflexivity.
Qed.

(** [strategy_backward_inside] on the same run. *)
Lemma strategy_backward_inside_witness :
  let s := trainer_with [1; 1] in
  let batch := batch_of latents2 (Some unconditional2) "polarity" in
  let guided :=
    @run_strategy echo_backend Polarity latents2 no_embeds false [1; 1]
      timesteps2 ∅ batch noise2 s in
  let loss :=
    default {| value := NaN; requires_grad := false; attached := false |}
      (returned guided.1) in
  guided = (Ok loss, guided.2)
  ∧ backpropagated_inside s guided.2 loss
  ∧ ∃ loss' s'' prints,
      backward_loss [[[Fin 1]]; [[Fin 1]]] loss guided.2 = (Ok loss', s'')
      ∧ attached loss' = false
      ∧ network s'' = network guided.2
      ∧ Forall is_print prints
      ∧ trace s'' = trace guided.2 ++ prints ++ [EvBackward (value loss') false].
Proof.
  intros s batch guided loss.
  assert (Hrun : guided = (Ok loss, guided.2)) by (vm_compute; reflexivity).
  split; [exact Hrun|].
  exact (@strategy_backward_inside echo_backend Polarity latents2 no_embeds false
           [1; 1] timesteps2 ∅ batch noise2 s loss guided.2 [[[Fin 1]]; [[Fin 1]]] Hrun).
Defined.

(** [polarity_doubled_forward] on the sample batch of two items: one
    forward pass on four items. *)
Lemma polarity_doubled_forward_witness :
  let s := trainer_with [1; 1] in
  let batch := batch_of latents2 (Some unconditional2) "polarity" in
  let call :=
    {| fc_latents := tadd latents2 noise2 ++ tadd unconditional2 noise2;
       fc_conditional_embeddings := concat_prompt_embeds [no_embeds; no_embeds];
       fc_unconditional_embeddings := None;
       fc_timestep := timesteps2 ++ timesteps2;
       fc_guidance_scale := 1;
       fc_rescale_cfg := false;
       fc_kwargs := ∅;
       fc_grad_enabled := true;
       fc_network := Some {| is_active := true;
                             multiplier := MList ([1; 1] ++ (Qcopp <$> [1; 1])) |};
       fc_adapter := None;
       fc_unet_training := true |} in
  let out := fc_latents call in
  let loss := fmean (vzip fadd (mean123 (mse_loss (take 2 out) noise2))
                               (mean123 (mse_loss (drop 2 out) noise2))) in
  length (fc_latents call) = 4%nat
  ∧ @get_guided_loss_polarity echo_backend latents2 no_embeds false [1; 1]
      timesteps2 ∅ batch noise2 s
    = (Ok {| value := loss; requires_grad := true; attached := false |},
       {| network := fc_network call;
          adapter := None;
          unet_training := true;
          grad_enabled := true;
          trace := [EvForward call; EvBackward loss true] |}).
Proof.
  intros s batch call out loss.
  exact (@polarity_doubled_forward echo_backend latents2 no_embeds false [1; 1]
           timesteps2 ∅ batch noise2 s
           {| is_active := true; multiplier := MList [1; 1] |} unconditional2 out 2
           eq_refl eq_refl eq_refl eq_refl eq_refl (le_S _ _ (le_n 1)) eq_refl eq_refl
           eq_refl eq_refl).
Defined.

(** C9 as stated does not hold for its consequence.  For a prediction
    equal to the prior prediction the loss is 5/2 with prior-divergence
    enabled and 0 with prior-divergence disabled: enabling it did not
    decrease the loss. *)
Lemma prior_divergence_does_not_decrease :
  let pred := {| pred_data := latents4; pred_tracked := true |} in
  let batch := batch_of latents4 None EmptyString in
  let s := trainer_with [1; 1; 1; 1] in
  let loss_of (tc : TrainConfig) :=
    default NaN
      (value <$> returned
         (@calculate_loss echo_backend (settings_of tc) pred noise4 latents4
            timesteps4 batch (ones 4) (Some latents4) s).1) in
  do_prior_divergence divergence_config = true
  ∧ do_prior_divergence plain_config = false
  ∧ loss_of divergence_config = Fin (Q2Qc (5 # 2))
  ∧ loss_of plain_config = Fin 0
  ∧ ¬ (Q2Qc (5 # 2) < 0).
Proof.
  intros pred batch s loss_of.
  split; [reflexivity|]. split; [reflexivity|].
  split; [by_decide|]. split; [by_decide|].
  by_compute.
Qed.

(** The shape and finiteness of the sample data, and the two plain
    configurations. *)
Lemma latents4_shape : has_shape 4 1 1 latents4.
Proof. split; [reflexivity|]. repeat constructor. Qed.
Lemma noise4_shape : has_shape 4 1 1 noise4.
Proof. split; [reflexivity|]. repeat constructor. Qed.
Lemma latents4_finite : finite latents4.
Proof. repeat constructor. Qed.
Lemma noise4_finite : finite noise4.
Proof. repeat constructor. Qed.
Lemma plain_config_plain : plain_settings (settings_of plain_config).
Proof. repeat split. Qed.
Lemma divergence_config_plain : plain_settings (settings_of divergence_config).
Proof. repeat split. Qed.

(** [prior_divergence_subtracts] on the four-item sample. *)
Lemma prior_divergence_subtracts_witness :
  let pred := {| pred_data := latents4; pred_tracked := true |} in
  let batch := batch_of latents4 None EmptyString in
  let s := trainer_with [1; 1; 1; 1] in
  let loss := mse_loss latents4 noise4 in
  plain_settings (settings_of divergence_config)
  ∧ plain_settings (settings_of plain_config)
  ∧ has_shape 4 1 1 latents4 ∧ has_shape 4 1 1 noise4
  ∧ finite latents4 ∧ finite noise4
  ∧ prior_divergence divergence_config latents4 (Some noise4) loss
    = tsub loss (mse_loss latents4 noise4)
  ∧ ∃ v : Qc,
      0 ≤ v
      ∧ mean_all (mse_loss latents4 noise4) = Fin v
      ∧ @calculate_loss echo_backend (settings_of divergence_config) pred noise4
          latents4 timesteps4 batch (ones 4) (Some latents4) s
        = (Ok {| value := Fin v; requires_grad := true; attached := true |}, s)
      ∧ @calculate_loss echo_backend (settings_of plain_config) pred noise4
          latents4 timesteps4 batch (ones 4) (Some latents4) s
        = (Ok {| value := Fin 0; requires_grad := true; attached := true |}, s).
Proof.
  intros pred batch s loss.
  pose proof (@prior_divergence_subtracts echo_backend
                (settings_of divergence_config) (settings_of plain_config)
                pred noise4 latents4 timesteps4 batch s 4 1 1 noise4 loss
                divergence_config_plain plain_config_plain eq_refl eq_refl eq_refl
                latents4_shape noise4_shape
                (le_S _ _ (le_S _ _ (le_S _ _ (le_n 1)))) (le_n 1)
                latents4_finite noise4_finite eq_refl) as (Hsub & _ & Hloss).
  split; [exact divergence_config_plain|]. split; [exact plain_config_plain|].
  split; [exact latents4_shape|]. split; [exact noise4_shape|].
  split; [exact latents4_finite|]. split; [exact noise4_finite|].
  split; [exact Hsub|]. exact Hloss.
Defined.

(** C10 as stated does not hold.  The code takes the mean of the means
    of the items, and in the arithmetic of the code, which rounds every
    result to 24 bits, this is not the mean over all elements: on four
    items of three pixels whose squared errors add up to 5, 14, 0 and 0,
    the code computes [(5/3 + 14/3) / 4], with two roundings before the
    sum, and the mean over all elements is [19/12] rounded once; the two
    differ in the last bit, whichever way the mean is computed.  Over
    exact numbers both are 19/12. *)
Lemma item_means_are_not_the_global_mean :
  let code by_factor := Binary32.plain_loss by_factor pred12 zeros12 in
  let global by_factor :=
    Binary32.mean_all by_factor (Binary32.mse_loss pred12 zeros12) in
  code false = Fin (Q2Qc (6640981 # 4194304))
  ∧ global false = Fin (Q2Qc (13281963 # 8388608))
  ∧ code true = Fin (Q2Qc (3320491 # 2097152))
  ∧ global true = Fin (Q2Qc (13281963 # 8388608))
  ∧ code false ≠ global false
  ∧ code true ≠ global true
  ∧ fmean (mean123 (mse_loss pred12 zeros12)) = Fin (Q2Qc (19 # 12))
  ∧ mean_all (mse_loss pred12 zeros12) = Fin (Q2Qc (19 # 12)).
Proof.
  intros code global. repeat split; by_decide.
Qed.

(** [plain_step_loss_is_mean_of_item_means] on a batch of 4 items: the
    step returns 5/2, the mean of the squares 1, 1, 4, 4. *)
Lemma plain_step_loss_is_mean_of_item_means_witness :
  let self := settings_of plain_config in
  let batch := batch_of latents4 None EmptyString in
  let x := whole_batch latents4 noise4 timesteps4 in
  let s := trainer_with [1; 1; 1; 1] in
  let loss := fmean (mean123 (mse_loss latents4 noise4)) in
  plain_step self batch 4
  ∧ has_shape 4 1 1 latents4 ∧ has_shape 4 1 1 noise4
  ∧ finite latents4 ∧ finite noise4
  ∧ loss = Fin (Q2Qc (5 # 2))
  ∧ loss = mean_all (tmap fsquare (tsub latents4 noise4))
  ∧ ∃ s', @hook_train_loop echo_backend self batch false false false [x] s = (Ok loss, s')
          ∧ EvBackward loss true ∈ trace s'.
Proof.
  intros self batch x s loss.
  assert (Hstep : plain_step self batch 4) by (repeat split).
  split; [exact Hstep|].
  split; [exact latents4_shape|]. split; [exact noise4_shape|].
  split; [exact latents4_finite|]. split; [exact noise4_finite|].
  split; [by_decide|].
  exact (proj2 (@plain_step_loss_is_mean_of_item_means echo_backend self batch false
                  false x s latents4 4 1 1 Hstep eq_refl eq_refl latents4_shape
                  noise4_shape (le_S _ _ (le_S _ _ (le_S _ _ (le_n 1)))) (le_n 1)
                  latents4_finite noise4_finite eq_refl eq_refl)).
Defined.

(** [nan_loss_is_replaced] on a prediction with a NaN in it: the loss of
    the sub-batch is NaN, and the step returns 0. *)
Lemma nan_loss_is_replaced_witness :
  let self := settings_of plain_config in
  let batch := batch_of nan_latents2 None EmptyString in
  let x := whole_batch nan_latents2 noise2 timesteps2 in
  let s := trainer_with [1; 1] in
  let s0 := (set_step_weights (step_weights false batch) s).2 in
  let computed :=
    @sub_batch_loss echo_backend self batch false false
      (existsb id (is_reg_list batch)) (step_weights false batch) x s0 in
  let loss :=
    default {| value := Fin 0; requires_grad := false; attached := false |}
      (returned computed.1) in
  let m := mean_all (step_loss_multiplier (train_config self) batch) in
  computed = (Ok loss, computed.2)
  ∧ isnan (value loss) = true
  ∧ ∃ s' rest,
      @hook_train_loop echo_backend self batch false false false [x] s
      = (Ok (fmul (Fin 0) m), s')
      ∧ trace s' = trace computed.2
                   ++ [EvPrint "loss is nan"; EvBackward (fmul (Fin 0) m) false] ++ rest
      ∧ EvSchedulerStep ∈ rest
      ∧ (is_grad_accumulation_step self = false → EvOptimizerStep ∈ rest).
Proof.
  intros self batch x s s0 computed loss m.
  assert (Hloss : computed = (Ok loss, computed.2)) by (vm_compute; reflexivity).
  assert (Hnan : isnan (value loss) = true) by (vm_compute; reflexivity).
  split; [exact Hloss|]. split; [exact Hnan|].
  exact (proj2 (@nan_loss_is_replaced echo_backend self batch false false false x s
                  s0 loss computed.2 eq_refl Hloss Hnan)).
Defined.

(* ===================================================================== *)
(** * What a step logs *)
(* ===================================================================== *)

Section StepFacts.
Context `{!Backend}.
Context (P : event → Prop).

Lemma logs_only_ret {A} (a : A) : logs_only P (mret a).
Proof. intros s r s' [= <- <-]. exists []. by rewrite app_nil_r. Qed.

Lemma logs_only_raise {A} e : logs_only P (raise e : M A).
Proof. intros s r s' [= <- <-]. exists []. by rewrite app_nil_r. Qed.

Lemma logs_only_lift {A} (x : result A) : logs_only P (lift x).
Proof. intros s r s' [= <- <-]. exists []. by rewrite app_nil_r. Qed.

Lemma logs_only_get : logs_only P get.
Proof. intros s r s' [= <- <-]. exists []. by rewrite app_nil_r. Qed.

Lemma logs_only_bind {A B} (m : M A) (f : A → M B) :
  logs_only P m → (∀ a, logs_only P (f a)) → logs_only P (m ≫= f).
Proof.
  intros Hm Hf s r s'. unfold mbind, M_bind.
  destruct (m s) as [[a|e] s1] eqn:Hrun.
  - intros Hf1. destruct (Hm _ _ _ Hrun) as (es1 & Htr1 & H1).
    destruct (Hf _ _ _ _ Hf1) as (es2 & Htr2 & H2).
    exists (es1 ++ es2). split; [by rewrite Htr2, Htr1, <- app_assoc|].
    by apply Forall_app.
  - intros [= <- <-]. by apply (Hm _ _ _ Hrun).
Qed.

Lemma logs_only_modify f :
  (∀ s, trace (f s) = trace s) → logs_only P (modify f).
Proof.
  intros Hf s r s' [= <- <-]. exists []. by rewrite Hf, app_nil_r.
Qed.

Lemma logs_only_log e : P e → logs_only P (modify (log e)).
Proof. intros He s r s' [= <- <-]. exists [e]. split; [done|]. by constructor. Qed.

Lemma logs_only_no_grad {A} (m : M A) : logs_only P m → logs_only P (no_grad m).
Proof.
  intros Hm s r s'. unfold no_grad.
  destruct (m (set_grad_enabled false s)) as [r1 s1] eqn:Hrun.
  intros [= <- <-]. destruct (Hm _ _ _ Hrun) as (es & Htr & Hes).
  exists es. split; [exact Htr|done].
Qed.

Lemma logs_only_set_network_is_active b : logs_only P (set_network_is_active b).
Proof.
  intros s r s'. unfold set_network_is_active.
  destruct (network s); intros [= <- <-]; exists []; by rewrite app_nil_r.
Qed.

Lemma logs_only_set_network_multiplier m : logs_only P (set_network_multiplier m).
Proof.
  intros s r s'. unfold set_network_multiplier.
  destruct (network s); intros [= <- <-]; exists []; by rewrite app_nil_r.
Qed.

Lemma logs_only_predict_noise l ce ue ts g rc kw :
  (∀ c, P (EvForward c)) → logs_only P (predict_noise l ce ue ts g rc kw).
Proof.
  intros HP s r s'. unfold predict_noise.
  destruct (unet_forward _); intros [= <- <-]; eexists [_]; (split; [done|]);
    by constructor.
Qed.

Lemma logs_only_encode_prompt ps lp :
  (∀ c, P (EvEncodePrompt c)) → logs_only P (encode_prompt ps lp).
Proof.
  intros HP s r s' [= <- <-]. eexists [_]. split; [done|]. by constructor.
Qed.

End StepFacts.

Ltac logs_only_step :=
  first
    [ apply logs_only_ret | apply logs_only_raise | apply logs_only_lift
    | apply logs_only_get
    | apply logs_only_set_network_is_active
    | apply logs_only_set_network_multiplier
    | apply logs_only_predict_noise; done
    | apply logs_only_encode_prompt; done
    | apply logs_only_no_grad
    | apply logs_only_log; done
    | apply logs_only_modify; done
    | apply logs_only_bind; [|intros ?]
    | match goal with
      | |- logs_only _ (match ?x with _ => _ end) => destruct x
      | |- logs_only _ (if ?x then _ else _) => destruct x
      end ].

Ltac logs_only_auto := repeat logs_only_step.

Section LossEvents.
Context `{!Backend}.

Lemma logs_only_backward_and_detach loss tracked :
  logs_only inner_event (backward_and_detach loss tracked).
Proof. unfold backward_and_detach, backward. logs_only_auto. Qed.

Lemma logs_only_run_strategy name nl ce ma w ts kw batch noise :
  logs_only inner_event (run_strategy name nl ce ma w ts kw batch noise).
Proof.
  destruct name; unfold run_strategy;
    [ unfold get_targeted_guidance_loss
    | unfold get_guided_loss_polarity
    | unfold get_targeted_polarity_loss
    | unfold get_guided_loss_targeted_polarity
    | unfold get_guided_loss_masked_polarity ];
    unfold unconditional_latents_of, unet_train, unet_eval;
    repeat first [apply logs_only_backward_and_detach | logs_only_step].
Qed.

Lemma logs_only_get_guidance_loss nl ce ma w ts kw batch noise :
  logs_only inner_event (get_guidance_loss nl ce ma w ts kw batch noise).
Proof.
  unfold get_guidance_loss.
  repeat match goal with |- logs_only _ (if ?x then _ else _) => destruct x end.
  - apply (logs_only_run_strategy Targeted nl ce ma w ts kw batch noise).
  - apply (logs_only_run_strategy Polarity nl ce ma w ts kw batch noise).
  - apply (logs_only_run_strategy TargetedPolarity nl ce ma w ts kw batch noise).
  - apply logs_only_raise.
Qed.

Lemma logs_only_get_prior_prediction self nl ce ma w ts kw batch noise ue :
  logs_only inner_event (get_prior_prediction self nl ce ma w ts kw batch noise ue).
Proof.
  unfold get_prior_prediction, unet_train, unet_eval, set_adapter_is_active.
  logs_only_auto.
Qed.

Lemma logs_only_calculate_loss self pred noise nl ts batch mm prior :
  logs_only inner_event (calculate_loss self pred noise nl ts batch mm prior).
Proof.
  unfold calculate_loss, inverted_mask_prior_loss, take_additional_loss.
  logs_only_auto.
Qed.

Lemma logs_only_sub_batch_loss self batch hai maa is_reg w x :
  logs_only inner_event (sub_batch_loss self batch hai maa is_reg w x).
Proof.
  unfold sub_batch_loss, get_guided_loss.
  repeat first
    [ apply logs_only_get_guidance_loss | apply logs_only_get_prior_prediction
    | apply logs_only_calculate_loss | logs_only_step ].
Qed.

Lemma logs_only_train_sub_batch self batch hai maa is_reg w lm x :
  logs_only inner_event (train_sub_batch self batch hai maa is_reg w lm x).
Proof.
  unfold train_sub_batch, backward_loss, replace_nan, backward.
  repeat first [apply logs_only_sub_batch_loss | logs_only_step].
Qed.

Lemma logs_only_train_sub_batches self batch hai maa is_reg w lm xs loss :
  logs_only inner_event (train_sub_batches self batch hai maa is_reg w lm xs loss).
Proof.
  revert loss. induction xs as [|x xs IH]; intros loss; simpl.
  - apply logs_only_ret.
  - apply logs_only_bind; [apply logs_only_train_sub_batch|]. intros a. apply IH.
Qed.

End LossEvents.

Section StepEvents.
Context `{!Backend}.

Lemma count_events_app f es1 es2 :
  count_events f (es1 ++ es2) = (count_events f es1 + count_events f es2)%nat.
Proof. unfold count_events. by rewrite List.filter_app, length_app. Qed.

Lemma count_events_none f es :
  Forall (λ e, f e = false) es → count_events f es = 0%nat.
Proof.
  unfold count_events. induction 1 as [|e es He _ IH]; [done|].
  simpl. by rewrite He.
Qed.

Lemma inner_event_no_optimizer es :
  Forall inner_event es → count_events is_optimizer_step es = 0%nat.
Proof.
  intros Hes. apply count_events_none. eapply Forall_impl; [exact Hes|].
  by intros [].
Qed.

Lemma inner_event_no_scheduler es :
  Forall inner_event es → count_events is_scheduler_step es = 0%nat.
Proof.
  intros Hes. apply count_events_none. eapply Forall_impl; [exact Hes|].
  by intros [].
Qed.

(** The end of the step: what it logs. *)
Lemma finish_step_events self loss s r s' :
  finish_step self loss s = (r, s') →
  ∃ es, trace s' = trace s ++ es
    ∧ count_events is_optimizer_step es
      = (if is_grad_accumulation_step self then 0 else 1)%nat
    ∧ count_events is_scheduler_step es = 1%nat
    ∧ count_events is_backward es = 0%nat.
Proof.
  unfold finish_step.
  set (n := if params_are_groups self then param_groups self else 1%nat).
  destruct (clip_grad_norms_state n s) as (Htr & _ & Had).
  assert (Hclip : ∀ f, f EvClipGradNorm = false →
            count_events f (replicate n EvClipGradNorm) = 0%nat).
  { intros f Hf. apply count_events_none. by apply Forall_replicate. }
  unfold mbind, M_bind, mret, M_ret, modify, get, raise, log, is_kind.
  destruct (is_grad_accumulation_step self), (has_embedding self); simpl;
    rewrite ?Had, ?Htr; destruct (adapter s) as [a|]; simpl;
    try destruct (bool_decide (kind a = ClipVisionAdapter)); simpl;
    destruct loss; intros [= <- <-]; simpl; rewrite <- ?app_assoc;
    eexists; (split; [reflexivity|]);
    rewrite ?count_events_app, ?Hclip by done; done.
Qed.

(** A sub-batch that returns has been backpropagated. *)
Lemma train_sub_batch_backward self batch hai maa is_reg w lm x s loss s' :
  train_sub_batch self batch hai maa is_reg w lm x s = (Ok loss, s') →
  ∃ es, trace s' = trace s ++ es ∧ Forall inner_event es
    ∧ (1 ≤ count_events is_backward es)%nat.
Proof.
  unfold train_sub_batch. unfold mbind at 1, M_bind.
  destruct (sub_batch_loss _ _ _ _ _ _ _ s) as [[l|e] s1] eqn:Hloss; [|done].
  destruct (logs_only_sub_batch_loss _ _ _ _ _ _ _ _ _ _ Hloss) as (es1 & Htr1 & Hes1).
  unfold backward_loss, replace_nan, backward, mbind, M_bind, mret, M_ret, modify, raise.
  destruct (isnan (value l)); simpl.
  - intros [= <- <-]. simpl. rewrite Htr1, <- !app_assoc. eexists. split; [reflexivity|].
    split.
    + apply Forall_app. split; [done|]. by repeat constructor.
    + rewrite count_events_app. simpl. unfold count_events at 2. simpl. lia.
  - destruct (requires_grad l); intros [= <- <-]. simpl.
    rewrite Htr1, <- !app_assoc. eexists. split; [reflexivity|]. split.
    + apply Forall_app. split; [done|]. by repeat constructor.
    + rewrite count_events_app. unfold count_events at 2. simpl. lia.
Qed.

Lemma train_sub_batches_backward self batch hai maa is_reg w lm xs init s r s' :
  train_sub_batches self batch hai maa is_reg w lm xs init s = (Ok r, s') →
  (xs ≠ [] → is_Some r)
  ∧ ∃ es, trace s' = trace s ++ es ∧ Forall inner_event es
      ∧ (length xs ≤ count_events is_backward es)%nat.
Proof.
  revert init s. induction xs as [|x xs IH]; intros init s; simpl.
  - intros [= <- <-]. split; [done|]. exists []. by rewrite app_nil_r.
  - unfold mbind at 1, M_bind.
    destruct (train_sub_batch _ _ _ _ _ _ _ _ s) as [[l|e] s1] eqn:Hone; [|done].
    intros Hrest.
    destruct (train_sub_batch_backward _ _ _ _ _ _ _ _ _ _ _ Hone) as (es1 & Htr1 & Hes1 & Hb1).
    destruct (IH _ _ Hrest) as (Hsome & es2 & Htr2 & Hes2 & Hb2).
    split.
    + intros _. destruct xs; [|by apply Hsome].
      simpl in Hrest. by injection Hrest as <- <-.
    + exists (es1 ++ es2). rewrite Htr2, Htr1, <- app_assoc. split; [done|].
      split; [by apply Forall_app|]. rewrite count_events_app. lia.
Qed.

Lemma set_step_weights_events w s :
  ∃ s0, set_step_weights w s = (Ok (), s0) ∧ trace s0 = trace s ++ [EvZeroGrad].
Proof.
  unfold set_step_weights, mbind, M_bind, get, modify, set_network_multiplier,
    mret, M_ret.
  destruct s as [[n|] ad ut ge tr]; eexists; (split; [reflexivity|]); done.
Qed.

(** A step that returns has cleared the gradients first, backpropagated
    every sub-batch, stepped the optimizer once (never in an accumulation
    step) and stepped the scheduler once. *)
Theorem step_returns_once_stepped self batch sib hai maa xs s v s' :
  hook_train_loop self batch sib hai maa xs s = (Ok v, s') →
  ∃ es, trace s' = trace s ++ EvZeroGrad :: es
    ∧ count_events is_optimizer_step es
      = (if is_grad_accumulation_step self then 0 else 1)%nat
    ∧ count_events is_scheduler_step es = 1%nat
    ∧ (length xs ≤ count_events is_backward es)%nat.
Proof.
  unfold hook_train_loop. unfold mbind at 1, M_bind.
  destruct (set_step_weights_events (step_weights sib batch) s) as (s0 & -> & Htr0).
  unfold mbind at 1, M_bind.
  destruct (train_sub_batches _ _ _ _ _ _ _ _ _ s0) as [[r|e] s1] eqn:Hsub; [|done].
  intros Hfin.
  destruct (train_sub_batches_backward _ _ _ _ _ _ _ _ _ _ _ _ Hsub)
    as (_ & es1 & Htr1 & Hes1 & Hb1).
  destruct (finish_step_events _ _ _ _ _ Hfin) as (es2 & Htr2 & Hopt & Hsched & Hb2).
  exists (es1 ++ es2). split.
  - rewrite Htr2, Htr1, Htr0, <- !app_assoc. done.
  - rewrite !count_events_app, Hopt, Hsched, Hb2.
    rewrite (inner_event_no_optimizer es1), (inner_event_no_scheduler es1) by done.
    repeat split; lia.
Qed.

(** When the computation or the backward pass of the loss of one of the
    prepared sub-batches raises (the prior prediction, a guidance
    strategy, the prediction, [calculate_loss] or [backward]: lines
    1335-1372 and 1429-1490), the step raises that exception, and the
    optimizer and the scheduler, which are stepped after the loop (lines
    1495-1519), have not been stepped: since the gradients were cleared at
    line 1033, only forward passes, prompt encodings, backward passes and
    messages are in the trace.  Exceptions of the preparation of the batch
    and of the sub-batches are not among those of [train_sub_batches]. *)
Theorem loss_failure_skips_optimizer self batch sib hai maa xs s e s' :
  let network_weight_list := step_weights sib batch in
  let s0 := (set_step_weights network_weight_list s).2 in
  train_sub_batches self batch hai maa (existsb id (is_reg_list batch))
    network_weight_list (step_loss_multiplier (train_config self) batch) xs None s0
  = (Raise e, s') →
  hook_train_loop self batch sib hai maa xs s = (Raise e, s')
  ∧ ∃ es, trace s' = trace s ++ EvZeroGrad :: es
      ∧ Forall inner_event es
      ∧ count_events is_optimizer_step es = 0%nat
      ∧ count_events is_scheduler_step es = 0%nat.
Proof.
  intros w s0 Hsub. unfold s0 in Hsub.
  destruct (set_step_weights_events w s) as (s1 & Hset & Htr0).
  rewrite Hset in Hsub. simpl in Hsub. split.
  - unfold hook_train_loop. unfold mbind at 1, M_bind. fold w. rewrite Hset.
    unfold mbind at 1, M_bind. by rewrite Hsub.
  - destruct (logs_only_train_sub_batches _ _ _ _ _ _ _ _ _ _ _ _ Hsub)
      as (es & Htr & Hes).
    exists es. rewrite Htr, Htr0, <- app_assoc. split; [done|]. split; [done|].
    by rewrite inner_event_no_optimizer, inner_event_no_scheduler.
Qed.

End StepEvents.

Section OracleFacts.
Context `{!Backend}.

Ltac unfold_monad :=
  unfold mbind, M_bind, mret, M_ret, lift, raise, get, modify, no_grad,
    unet_eval, unet_train, set_network_is_active, set_adapter_is_active,
    set_network_multiplier, predict_noise, encode_prompt, backward,
    backward_and_detach, unconditional_latents_of, log, set_network,
    set_adapter, set_unet_training, set_grad_enabled.

Ltac run := repeat first [progress simpl | progress unfold_monad].

Ltac destruct_innermost :=
  match goal with
  | |- context [match ?x with _ => _ end] =>
      lazymatch x with
      | context [match _ with _ => _ end] => fail
      | _ => destruct x eqn:?
      end
  end.

Ltac split_cases :=
  repeat (run; destruct_innermost);
  run; intros; simplify_eq; try done.

(** What the prior prediction hands back of the keyword arguments. *)
Lemma get_prior_prediction_kwargs self nl ce ma w ts kw batch noise ue s p kw' s' :
  get_prior_prediction self nl ce ma w ts kw batch noise ue s = (Ok (p, kw'), s') →
  kw' = strip_residuals ma kw.
Proof.
  unfold get_prior_prediction.
  destruct s as [[[act mul]|] [[k aact al]|] ut ge tr]; run.
  all: try destruct k; run.
  all: split_cases.
Qed.

(** The prior prediction is one forward pass on the noisy latents, taken
    with the network and a disableable adapter switched off, without
    gradient and with the unet in evaluation mode, after at most one prompt
    encoding; the modes are put back afterwards. *)
Theorem prior_prediction_forward_pass self nl ce ma w ts kw batch noise ue s p kw' s' :
  get_prior_prediction self nl ce ma w ts kw batch noise ue s = (Ok (p, kw'), s') →
  ∃ encodings call,
    trace s' = trace s ++ encodings ++ [EvForward call]
    ∧ Forall is_encoding encodings ∧ (length encodings ≤ 1)%nat
    ∧ fc_latents call = nl ∧ fc_timestep call = ts ∧ fc_kwargs call = kw
    ∧ fc_grad_enabled call = false ∧ fc_unet_training call = false
    ∧ fc_network call = deactivated <$> network s
    ∧ fc_adapter call = switched_off <$> adapter s
    ∧ unet_forward call = Ok p
    ∧ kw' = strip_residuals ma kw
    ∧ unet_training s' = unet_training s ∧ grad_enabled s' = grad_enabled s.
Proof.
  unfold get_prior_prediction.
  destruct s as [[[act mul]|] [[k aact al]|] ut ge tr]; run.
  all: try destruct k; run.
  all: split_cases.
  all: lazymatch goal with
       | |- context [(_ ++ [?e]) ++ [EvForward ?c]] => exists [e], c
       | |- context [_ ++ [EvForward ?c]] => exists [], c
       end.
  all: simpl; rewrite <- ?app_assoc; repeat split; try done.
  all: try (by repeat constructor); try lia.
Qed.

(** A guidance strategy on a batch without unconditional latents raises
    [AttributeError] at once: no forward pass is issued and the trainer is
    left as it was. *)
Theorem strategy_needs_unconditional_latents name nl ce ma w ts kw batch noise s :
  unconditional_latents batch = None →
  run_strategy name nl ce ma w ts kw batch noise s
  = (Raise (AttributeError "'NoneType' object has no attribute 'to'"), s).
Proof.
  intros Hnone.
  destruct name; unfold run_strategy;
    [ unfold get_targeted_guidance_loss
    | unfold get_guided_loss_polarity
    | unfold get_targeted_polarity_loss
    | unfold get_guided_loss_targeted_polarity
    | unfold get_guided_loss_masked_polarity ];
    destruct s as [net ad ut ge tr]; run; rewrite Hnone; reflexivity.
Qed.

(** What the prior prediction does to the dictionary of keyword arguments
    of its caller: when the assistant adapter is matched it deletes the
    three residual entries and keeps every other entry; otherwise it
    leaves the dictionary as it is. *)
Theorem prior_prediction_strips_residuals self nl ce ma w ts kw batch noise ue s p kw' s' :
  get_prior_prediction self nl ce ma w ts kw batch noise ue s = (Ok (p, kw'), s') →
  let residuals := ["down_intrablock_additional_residuals";
                    "down_block_additional_residuals";
                    "mid_block_additional_residual"] in
  (ma = true →
     (∀ key, key ∈ residuals → kw' !! key = None)
     ∧ (∀ key, key ∉ residuals → kw' !! key = kw !! key))
  ∧ (ma = false → kw' = kw).
Proof.
  intros Hrun residuals.
  rewrite (get_prior_prediction_kwargs _ _ _ _ _ _ _ _ _ _ _ _ _ _ Hrun).
  unfold strip_residuals. split; intros ->; [|done]. split.
  - intros key Hkey. unfold residuals in Hkey.
    repeat (apply elem_of_cons in Hkey as [-> | Hkey]);
      [| | |by apply elem_of_nil in Hkey].
    + rewrite !lookup_delete_ne by done. apply lookup_delete_eq.
    + rewrite lookup_delete_ne by done. apply lookup_delete_eq.
    + apply lookup_delete_eq.
  - intros key Hkey. unfold residuals in Hkey.
    rewrite !lookup_delete_ne; [done|..]; intros <-; apply Hkey; by_decide.
Qed.

(** The targeted strategy runs the model twice on the same noisy latents:
    first the baseline, with the network switched off, the unet in
    evaluation mode and no gradient; then the prediction, with the network
    switched on and carrying the weights of the batch, the unet in training
    mode and the gradient on.  The loss is the mean squared distance between
    the error of the prediction and the error of the baseline moved by the
    noised difference of the two latents; the strategy backpropagates it. *)
Theorem targeted_guidance_passes nl ce ma w ts kw batch noise s loss s' :
  get_targeted_guidance_loss nl ce ma w ts kw batch noise s = (Ok loss, s') →
  ∃ uncond baseline call baseline_out out,
    unconditional_latents batch = Some uncond
    ∧ trace s' = trace s ++ [EvForward baseline; EvForward call;
                             EvBackward (value loss) true]
    ∧ fc_latents baseline = fc_latents call
    ∧ fc_grad_enabled baseline = false ∧ fc_unet_training baseline = false
    ∧ fc_network baseline = deactivated <$> network s
    ∧ fc_grad_enabled call = true ∧ fc_unet_training call = true
    ∧ fc_network call = Some {| is_active := true; multiplier := MList w |}
    ∧ unet_forward baseline = Ok baseline_out
    ∧ unet_forward call = Ok out
    ∧ let diff_noise :=
        add_noise (tmap (λ _, Fin 0) uncond) (tsub uncond (latents batch)) ts in
      value loss
      = fmean (mean123 (mse_loss (tsub out noise)
                          (tadd (tsub baseline_out noise) diff_noise))).
Proof.
  unfold get_targeted_guidance_loss.
  destruct s as [[[act mul]|] ad ut ge tr]; split_cases.
  eexists _, _, _, _, _. split; [reflexivity|].
  simpl. rewrite <- !app_assoc. repeat split; try done.
Qed.

(** A batch with unconditional latents whose guidance type is none of
    [targeted], [polarity] and [targeted_polarity] cannot be trained on:
    the step raises [NotImplementedError], at once when no prior prediction
    is wanted, and after the prior prediction otherwise.  The type [tnt]
    is such a type, although it is the one for which a prior prediction is
    requested. *)
Theorem unknown_guidance_type_raises self batch hai maa is_reg w x s uncond :
  unconditional_latents batch = Some uncond →
  guidance_type batch ∉ ["targeted"; "polarity"; "targeted_polarity"] →
  let failure :=
    Raise (NotImplementedError
             ("Guidance type " +:+ guidance_type batch +:+ " is not implemented")) in
  (wants_prior self batch hai maa is_reg s = false →
     sub_batch_loss self batch hai maa is_reg w x s = (failure, s))
  ∧ (∀ p kw' s1,
       wants_prior self batch hai maa is_reg s = true →
       get_prior_prediction self (noisy_latents_of x) (conditional_embeds_of x) maa w
         (timesteps_of x) (pred_kwargs_of x) batch (noise_of x)
         (unconditional_embeds_of x) s = (Ok (p, kw'), s1) →
       sub_batch_loss self batch hai maa is_reg w x s = (failure, s1))
  ∧ (guidance_type batch = "tnt" →
       wants_prior self batch hai maa is_reg s = true).
Proof.
  intros Hunc Htype failure.
  assert (Hfail : ∀ kw s1,
            get_guided_loss (noisy_latents_of x) (conditional_embeds_of x) maa w
              (timesteps_of x) kw batch (noise_of x) s1 = (failure, s1)).
  { intros kw s1. unfold get_guided_loss, get_guidance_loss.
    destruct (String.eqb_spec (guidance_type batch) "targeted") as [Heq|_];
      [exfalso; apply Htype; rewrite Heq; by_decide|].
    destruct (String.eqb_spec (guidance_type batch) "polarity") as [Heq|_];
      [exfalso; apply Htype; rewrite Heq; by_decide|].
    destruct (String.eqb_spec (guidance_type batch) "targeted_polarity") as [Heq|_];
      [exfalso; apply Htype; rewrite Heq; by_decide|].
    reflexivity. }
  split; [|split].
  - intros Hwants. unfold sub_batch_loss. unfold mbind at 1, M_bind, get.
    rewrite Hwants, Hunc. unfold mbind at 1, M_bind, mret, M_ret. simpl.
    apply Hfail.
  - intros p kw' s1 Hwants Hprior. unfold sub_batch_loss.
    unfold mbind at 1, M_bind, get. rewrite Hwants, Hunc.
    unfold mbind at 1, M_bind. unfold mbind at 1, M_bind. rewrite Hprior.
    unfold mret, M_ret. simpl. apply Hfail.
  - intros Htnt. unfold wants_prior. rewrite Hunc, Htnt. simpl.
    by rewrite !orb_true_r.
Qed.

(** [calculate_loss] computes: it leaves the network, the modes of the
    model and the kind and the activity of the adapter as they are.  The
    one thing it changes is the additional loss that an auxiliary module
    left on the adapter, which is consumed: it is [None] afterwards. *)
Theorem calculate_loss_state self pred noise nl ts batch mm prior s loss s' :
  calculate_loss self pred noise nl ts batch mm prior s = (Ok loss, s') →
  network s' = network s
  ∧ unet_training s' = unet_training s ∧ grad_enabled s' = grad_enabled s
  ∧ adapter s'
    = (λ a, {| kind := kind a; adapter_is_active := adapter_is_active a;
               additional_loss := None |}) <$> adapter s.
Proof.
  unfold calculate_loss, inverted_mask_prior_loss, take_additional_loss.
  destruct s as [net [[k aact [al|]]|] ut ge tr]; split_cases.
Qed.

End OracleFacts.

(* ===================================================================== *)
(** * The loss with prior divergence, the multiplier of the step, and a narrow denoising range *)
(* ===================================================================== *)

(** ** Sums and means of differences *)

Lemma fsum_zip_sub xs ys :
  length xs = length ys →
  fsum (zip_with fsub xs ys) = fsub (fsum xs) (fsum ys).
Proof.
  revert ys. induction xs as [|x xs IH]; intros [|y ys] Hlen; try discriminate Hlen.
  - unfold fsub. simpl. f_equal; ring.
  - injection Hlen as Hlen. cbn [zip_with].
    rewrite !fsum_cons, IH by done.
    destruct x, y, (fsum xs), (fsum ys); try done.
    unfold fadd, fsub. simpl. f_equal; ring.
Qed.

Lemma concat_zip_with {A} (f : A → A → A) (xs ys : list (list A)) :
  Forall2 (λ x y, length x = length y) xs ys →
  concat (zip_with (zip_with f) xs ys) = zip_with f (concat xs) (concat ys).
Proof.
  induction 1 as [|x y xs ys Hxy _ IH]; [done|].
  simpl. by rewrite IH, zip_with_app.
Qed.

Lemma has_shape_flat_tzip f b c p t u :
  has_shape b c p t → has_shape b c p u →
  concat (concat (tzip f t u))
  = zip_with f (concat (concat t)) (concat (concat u)).
Proof.
  intros [Hb Ht] [Hb' Hu]. unfold tzip.
  rewrite bzip_same_length by congruence.
  assert (Hitems : Forall2 (λ item item',
                      concat (bzip (bzip f) item item')
                      = zip_with f (concat item) (concat item')
                      ∧ length (concat item) = length (concat item')) t u).
  { eapply Forall2_same_shape; [congruence|exact Ht|exact Hu|].
    intros item item' [Hc Hchs] [Hc' Hchs'].
    rewrite bzip_same_length by congruence.
    assert (Hrows : Forall2 (λ ch ch', bzip f ch ch' = zip_with f ch ch'
                                       ∧ length ch = length ch') item item').
    { eapply Forall2_same_shape; [congruence|exact Hchs|exact Hchs'|].
      intros ch ch' Hp Hp'. split; [|congruence].
      apply bzip_same_length. congruence. }
    clear Hc Hc' Hchs Hchs'.
    induction Hrows as [|ch ch' item item' [Heq Hlen] _ [IH1 IH2]]; [done|].
    simpl. rewrite Heq, IH1, zip_with_app, !length_app by done. split; [done|lia]. }
  clear Hb Hb' Ht Hu.
  induction Hitems as [|item item' t u [Heq Hlen] _ IH]; [done|].
  simpl. rewrite !concat_app, Heq, IH, zip_with_app by done. done.
Qed.

Lemma fdiv_sub x y d : fsub (fdiv x d) (fdiv y d) = fdiv (fsub x y) d.
Proof.
  destruct x as [a|], y as [b|], d as [c|]; unfold fdiv, fsub; simpl; try done.
  all: destruct (decide (c = 0)) as [|Hc]; simpl; try done.
  f_equal. by field.
Qed.

Lemma mean_all_tsub b c p t u :
  has_shape b c p t → has_shape b c p u →
  mean_all (tsub t u) = fsub (mean_all t) (mean_all u).
Proof.
  intros Ht Hu. unfold mean_all, fmean, tsub.
  rewrite (has_shape_flat_tzip _ _ _ _ _ _ Ht Hu).
  pose proof (has_shape_size _ _ _ _ Ht) as Hlt.
  pose proof (has_shape_size _ _ _ _ Hu) as Hlu.
  rewrite length_zip_with, fsum_zip_sub by congruence.
  rewrite Hlt, Hlu, Nat.min_id. by rewrite fdiv_sub.
Qed.

Section LossFormulas.
Context `{!Backend}.

(** With prior-divergence enabled, in the plain configuration, the loss
    is the mean squared distance of the prediction to the noise minus its
    mean squared distance to the prior prediction: it is negative when the
    prediction is nearer to the noise than to the prior prediction. *)
Theorem prior_divergence_loss self pred noise noisy_latents timesteps batch s
    b c p (prior : tensor) :
  plain_settings self →
  do_prior_divergence (train_config self) = true →
  adapter s = None →
  has_shape b c p (pred_data pred) → has_shape b c p noise →
  has_shape b c p prior →
  (1 ≤ b)%nat → (1 ≤ c * p)%nat →
  loss_multiplier_list batch = replicate b 1 →
  calculate_loss self pred noise noisy_latents timesteps batch (ones b)
    (Some prior) s
  = (Ok {| value := fsub (mean_all (mse_loss (pred_data pred) noise))
                         (mean_all (mse_loss (pred_data pred) prior));
           requires_grad := pred_tracked pred;
           attached := pred_tracked pred |}, s).
Proof.
  intros Hplain Hdiv Had Hp Hn Hpr Hb Hcp Hlm.
  rewrite calculate_loss_plain by done. cbv zeta. rewrite Hdiv, Hlm.
  assert (Hsub : prior_divergence (train_config self) (pred_data pred) (Some prior)
                   (mse_loss (pred_data pred) noise)
                 = tsub (mse_loss (pred_data pred) noise)
                        (mse_loss (pred_data pred) prior)).
  { unfold prior_divergence. rewrite Hdiv.
    unfold tadd, tscale, tsub. rewrite tzip_tmap_r. apply tzip_ext.
    intros x y. apply fadd_neg. }
  rewrite Hsub.
  rewrite (plain_masked_mean b c p) by (done || by repeat apply has_shape_tzip).
  by rewrite (mean_all_tsub b c p) by by apply has_shape_tzip.
Qed.

End LossFormulas.

(** ** The multiplier of the step *)

Lemma step_loss_multiplier_flat tc batch :
  concat (concat (step_loss_multiplier tc batch))
  = (λ is_reg : bool, if is_reg then Fin (reg_weight tc) else Fin 1)
    <$> is_reg_list batch.
Proof.
  unfold step_loss_multiplier.
  induction (is_reg_list batch) as [|r l IH]; [done|].
  rewrite !fmap_cons. cbn [concat app]. rewrite IH. f_equal.
  destruct r; [|done]. unfold fmul. simpl. f_equal. ring.
Qed.

(** The multiplier that the step puts on its loss is the mean of the
    weights of the items, [reg_weight] for a regularization item and 1 for
    another item: with [n] regularization items among [b] it is
    [(b - n + n * reg_weight) / b], which is 1 when [reg_weight] is 1. *)
Theorem step_multiplier_is_mean_weight tc batch :
  let b := length (is_reg_list batch) in
  let n := length (filter (λ r, r = true) (is_reg_list batch)) in
  mean_all (step_loss_multiplier tc batch)
  = fdiv (fadd (of_nat (b - n)) (fmul (of_nat n) (Fin (reg_weight tc)))) (of_nat b)
  ∧ (reg_weight tc = 1 → (1 ≤ b)%nat →
     mean_all (step_loss_multiplier tc batch) = Fin 1).
Proof.
  intros b n. unfold mean_all. rewrite step_loss_multiplier_flat.
  set (weight := λ is_reg : bool, if is_reg then Fin (reg_weight tc) else Fin 1).
  assert (Hsum : fsum (weight <$> is_reg_list batch)
                 = fadd (of_nat (b - n)) (fmul (of_nat n) (Fin (reg_weight tc)))).
  { subst b n. induction (is_reg_list batch) as [|r l IH].
    - unfold fadd, fmul, of_nat. simpl. f_equal; ring.
    - rewrite fmap_cons, fsum_cons, IH.
      assert (Hle : (length (filter (λ r, r = true) l) ≤ length l)%nat)
        by apply length_filter.
      destruct r.
      + rewrite filter_cons_True by done. cbn [length].
        replace (S (length l) - S (length (filter (λ r, r = true) l)))%nat
          with (length l - length (filter (λ r, r = true) l))%nat by lia.
        unfold fadd, fmul, of_nat, weight. simpl. f_equal.
        rewrite !Nat2Z.inj_succ, <- !Z.add_1_r, !Z2Qc_inj_add.
        rewrite Z2Qc_inj_1. ring.
      + rewrite filter_cons_False by done. cbn [length].
        replace (S (length l) - length (filter (λ r, r = true) l))%nat
          with (S (length l - length (filter (λ r, r = true) l)))%nat by lia.
        unfold fadd, fmul, of_nat, weight. simpl. f_equal.
        rewrite !Nat2Z.inj_succ, <- !Z.add_1_r, !Z2Qc_inj_add.
        rewrite Z2Qc_inj_1. ring. }
  unfold fmean. rewrite length_fmap, Hsum. fold b. split; [done|].
  intros Hone Hb. rewrite Hone. unfold fadd, fmul, fdiv, of_nat. simpl.
  pose proof (of_nat_nonzero b Hb). case_decide; [done|]. f_equal.
  assert (Hn : (n ≤ b)%nat) by apply length_filter.
  rewrite Qcmult_1_r, <- Z2Qc_inj_add.
  replace (Z.of_nat (b - n) + Z.of_nat n)%Z with (Z.of_nat b) by lia.
  by field.
Qed.

(** ** The denoising range without an interior *)

Module SamplerEdge.
Import Sampler.

(** When [max_denoising_steps <= min_denoising_steps + 2], the clamp of
    the cubic policies has its lower bound at or above its upper bound,
    and every timestep of a style or content batch is
    [max_denoising_steps - 1], whatever was drawn. *)
Theorem narrow_range_timesteps cfg rand randint :
  (max_denoising_steps cfg ≤ min_denoising_steps cfg + 2)%Z →
  content_or_style cfg ∈ ["style"; "content"] →
  sample_timesteps cfg rand randint
  = Ok (replicate (length rand) (max_denoising_steps cfg - 1)%Z).
Proof.
  intros Hrange Hpolicy. unfold sample_timesteps.
  rewrite bool_decide_eq_true_2 by done. f_equal.
  induction rand as [|u rand IH]; [done|].
  rewrite fmap_cons, IH. simpl. f_equal.
  unfold cubic_timestep, remap_and_clamp, clamp. lia.
Qed.

End SamplerEdge.

(* ===================================================================== *)
(** * Properties of the command line runner *)
(* ===================================================================== *)

Module RunnerFacts.
Import Runner.

Lemma fetched_app a b : fetched (a ++ b) = fetched a ++ fetched b.
Proof. unfold fetched. apply omap_app. Qed.

Lemma fetched_calls f o : fetched (calls f o) = [f].
Proof. by destruct o as [[[] e]|]. Qed.

Lemma fetched_cons_printed line l : fetched (Printed line :: l) = fetched l.
Proof. reflexivity. Qed.

Lemma fetched_printed lines : fetched (Printed <$> lines) = [].
Proof. induction lines; [done|]. simpl. done. Qed.

Lemma existsb_result_calls f o : existsb is_result_line (calls f o) = false.
Proof. by destruct o as [[[] e]|]. Qed.

Lemma run_jobs_recover jobs c f :
  ∃ actions,
    run_jobs true jobs c f = (actions, None)
    ∧ fetched actions = jobs.*1
    ∧ existsb is_result_line actions = false.
Proof.
  revert c f. induction jobs as [|[file o] jobs IH]; intros c f; simpl.
  - by exists [].
  - destruct o as [[st e]|].
    + destruct (IH c (S f)) as (actions & -> & Hf & Hr).
      eexists. split; [reflexivity|]. split.
      * rewrite fetched_app, fetched_calls. simpl. by rewrite Hf.
      * rewrite existsb_app, existsb_result_calls. simpl. exact Hr.
    + destruct (IH (S c) f) as (actions & -> & Hf & Hr).
      eexists. split; [reflexivity|]. split.
      * rewrite fetched_app, fetched_calls. simpl. by rewrite Hf.
      * by rewrite existsb_app, Hr.
Qed.

Lemma is_error_line_error msg :
  is_error_line (Printed ("Error running job: " +:+ msg)) = true.
Proof. by destruct msg. Qed.

Lemma is_error_line_banner msg :
  is_error_line (Printed ("Running " +:+ msg)) = false.
Proof. reflexivity. Qed.

Lemma filter_error_calls f o : List.filter is_error_line (calls f o) = [].
Proof. by destruct o as [[[] e]|]. Qed.

Lemma run_jobs_recover_errors jobs c f actions r :
  run_jobs true jobs c f = (actions, r) →
  length (List.filter is_error_line actions)
  = length (List.filter (λ j, bool_decide (is_Some j.2)) jobs).
Proof.
  revert c f actions r. induction jobs as [|[file o] jobs IH]; intros c f actions r; simpl.
  - by intros [= <- <-].
  - destruct o as [[st e]|].
    + destruct (run_jobs true jobs c (S f)) as [actions' r'] eqn:Hrest.
      intros [= <- <-]. rewrite List.filter_app, length_app.
      cbn [List.filter]. rewrite is_error_line_error.
      rewrite bool_decide_eq_true_2 by done.
      cbn [length]. rewrite (IH _ _ _ _ Hrest). by destruct st.
    + destruct (run_jobs true jobs (S c) f) as [actions' r'] eqn:Hrest.
      intros [= <- <-]. simpl. by rewrite (IH _ _ _ _ Hrest).
Qed.

(** With [--recover], and jobs that go through or fail with an
    [Exception], [main] returns: every job is fetched, in the order of the
    command line, whether the jobs before it failed or not; each failure
    is reported by one line, and no end message is printed. *)
Theorem recover_runs_every_job jobs :
  jobs ≠ [] →
  ∃ actions,
    main true jobs = (actions, None)
    ∧ fetched actions = jobs.*1
    ∧ length (List.filter is_error_line actions)
      = length (List.filter (λ j, bool_decide (is_Some j.2)) jobs)
    ∧ existsb is_result_line actions = false.
Proof.
  intros Hjobs. unfold main.
  rewrite bool_decide_eq_false_2 by (by destruct jobs).
  destruct (run_jobs_recover jobs 0 0) as (actions & Hrun & Hf & Hr).
  rewrite Hrun. eexists. split; [reflexivity|]. split; [exact Hf|].
  split; [|exact Hr].
  cbn [List.filter]. rewrite is_error_line_banner.
  by apply run_jobs_recover_errors in Hrun.
Qed.

Lemma run_jobs_stops before file st e after c f :
  Forall (λ j, j.2 = None) before →
  run_jobs false (before ++ (file, Some (st, e)) :: after) c f
  = (all_calls before ++ calls file (Some (st, e))
       ++ Printed ("Error running job: " +:+ str_of_exn e)
       :: (Printed <$> print_end_message (c + length before) (S f)),
     Some (JobError e)).
Proof.
  intros Hbefore. revert c.
  induction Hbefore as [|[file' o] before Ho _ IH]; intros c; simpl in *.
  - by rewrite Nat.add_0_r.
  - subst o. rewrite IH. unfold all_calls. simpl.
    by rewrite Nat.add_succ_r.
Qed.

(** Without [--recover], [main] stops at the first job that fails: it
    raises the exception of that job after printing the end message, which
    counts the jobs completed before it and one failure; the jobs after it
    are not fetched. *)
Theorem stops_at_first_failure before file st e after :
  Forall (λ j, j.2 = None) before →
  let jobs := before ++ (file, Some (st, e)) :: after in
  let actions :=
    Printed ("Running " +:+ counted (length jobs) "job")
    :: all_calls before ++ calls file (Some (st, e))
    ++ Printed ("Error running job: " +:+ str_of_exn e)
    :: (Printed <$> print_end_message (length before) 1) in
  main false jobs = (actions, Some (JobError e))
  ∧ fetched actions = before.*1 ++ [file].
Proof.
  intros Hbefore jobs actions. split.
  - unfold main. rewrite bool_decide_eq_false_2
      by (unfold jobs; rewrite length_app; simpl; lia).
    unfold actions, jobs. by rewrite run_jobs_stops.
  - unfold actions.
    rewrite fetched_cons_printed, !fetched_app, fetched_calls,
      fetched_cons_printed, fetched_printed, app_nil_r. f_equal.
    clear. unfold all_calls. induction before as [|[f o] before IH]; [done|].
    cbn [fmap list_fmap concat fst snd]. by rewrite fetched_app, fetched_calls, IH.
Qed.

(** When every job goes through, [main] returns and prints no end
    message, with or without [--recover]. *)
Theorem no_end_message_on_success recover jobs :
  jobs ≠ [] → Forall (λ j, j.2 = None) jobs →
  main recover jobs
  = (Printed ("Running " +:+ counted (length jobs) "job") :: all_calls jobs, None).
Proof.
  intros Hjobs Hok. unfold main.
  rewrite bool_decide_eq_false_2 by (by destruct jobs).
  assert (Hrun : ∀ c f, run_jobs recover jobs c f = (all_calls jobs, None)).
  { clear Hjobs. induction Hok as [|[file o] jobs Ho _ IH]; intros c f; [done|].
    simpl in *. subst o. by rewrite IH. }
  by rewrite Hrun.
Qed.

End RunnerFacts.

(* ===================================================================== *)
(** * Properties of the saved files *)
(* ===================================================================== *)

Module SavesFacts.
Import Saves.

Lemma append_nil_l s : EmptyString +:+ s = s.
Proof. reflexivity. Qed.

Lemma append_cons c a s : String c a +:+ s = String c (a +:+ s).
Proof. reflexivity. Qed.

Lemma append_assoc a b c : (a +:+ b) +:+ c = a +:+ b +:+ c.
Proof. induction a as [|x a IH]; [done|]. by rewrite !append_cons, IH. Qed.

Lemma append_nil_r s : s +:+ EmptyString = s.
Proof. induction s as [|x s IH]; [done|]. by rewrite append_cons, IH. Qed.

Lemma append_inv_l a b c : a +:+ b = a +:+ c → b = c.
Proof.
  induction a as [|x a IH]; [done|]. rewrite !append_cons. intros [= H]. by apply IH.
Qed.

Lemma ends_with_spec suffix s :
  ends_with suffix s = true ↔ ∃ a, s = a +:+ suffix.
Proof.
  induction s as [|c s IH]; simpl.
  - rewrite orb_false_r, String.eqb_eq. split.
    + intros ->. by exists EmptyString.
    + intros [[|a0 a] Ha]; [done|]. rewrite append_cons in Ha. discriminate.
  - rewrite orb_true_iff, String.eqb_eq, IH. split.
    + intros [-> | [a ->]]; [by exists EmptyString|]. by exists (String c a).
    + intros [[|a0 a] Ha]; [by left|]. rewrite append_cons in Ha.
      injection Ha as -> ->. right. by exists a.
Qed.

Lemma strip_prefix_spec prefix s rest :
  strip_prefix prefix s = Some rest ↔ s = prefix +:+ rest.
Proof.
  revert s. induction prefix as [|a prefix IH]; intros s; simpl.
  - rewrite append_nil_l. split; congruence.
  - rewrite append_cons. destruct s as [|b s]; [split; discriminate|].
    destruct (Ascii.eqb_spec a b) as [->|Hne].
    + rewrite IH. split; congruence.
    + split; [discriminate|]. congruence.
Qed.

Lemma starts_with_dot_append a b :
  a ≠ EmptyString → starts_with_dot (a +:+ b) = starts_with_dot a.
Proof.
  destruct a as [|c a]; [done|]. intros _. rewrite append_cons.
  unfold starts_with_dot. cbn [String.prefix].
  destruct (Ascii.ascii_dec _ c); [|done]. by destruct b, a.
Qed.

(** A name that the pattern matches is made of the prefix, anything, and
    the suffix. *)
Lemma glob_match_inv prefix suffix name :
  glob_match prefix suffix name = true →
  ∃ middle, name = prefix +:+ middle +:+ suffix.
Proof.
  unfold glob_match. destruct (strip_prefix prefix name) as [rest|] eqn:Hstrip; [|done].
  apply strip_prefix_spec in Hstrip as ->.
  intros [[a ->]%ends_with_spec _]%andb_true_iff. by exists a.
Qed.

(** For a prefix that is not empty these are all the names it matches. *)
Lemma glob_match_spec prefix suffix name :
  prefix ≠ EmptyString →
  glob_match prefix suffix name = true
  ↔ ∃ middle, name = prefix +:+ middle +:+ suffix.
Proof.
  intros Hprefix. split; [apply glob_match_inv|].
  intros [middle ->]. unfold glob_match.
  assert (strip_prefix prefix (prefix +:+ middle +:+ suffix) = Some (middle +:+ suffix))
    as -> by by apply strip_prefix_spec.
  rewrite starts_with_dot_append by done.
  apply andb_true_iff. split.
  - apply ends_with_spec. by exists middle.
  - by destruct (starts_with_dot prefix).
Qed.

Lemma append_not_empty a b : b ≠ EmptyString → a +:+ b ≠ EmptyString.
Proof. destruct a; [done|]. by rewrite append_cons. Qed.

Lemma last_char_append a b :
  b ≠ EmptyString → last_char (a +:+ b) = last_char b.
Proof.
  intros Hb. induction a as [|c a IH]; [done|].
  rewrite append_cons. simpl. rewrite IH.
  destruct b as [|d b]; [done|]. simpl. by destruct (last_char b).
Qed.

(** Names with different last characters are not matched by the same
    suffix. *)
Lemma glob_match_last_char prefix suffix name :
  suffix ≠ EmptyString → last_char name ≠ last_char suffix →
  glob_match prefix suffix name = false.
Proof.
  intros Hsuffix Hlast. apply not_true_is_false. intros Hmatch.
  apply glob_match_inv in Hmatch as [middle ->]. apply Hlast.
  rewrite <- append_assoc. by apply last_char_append.
Qed.

(** The names under which [save] writes, and the patterns that look for
    them, for a job whose name holds no wildcard character (a pattern
    made of another name is not read literally by [glob]).  A step save
    of the job is matched by the clean-up pattern of the job; the final
    save, which has no step number, is not, but the final save of a
    network saved under the name [f"{job}_LoRA"] is; the pattern of the
    resume lookup matches every save of a name that is not empty. *)
Theorem save_names_and_patterns job step :
  has_wildcard job = false →
  glob_match (job +:+ "_") ".safetensors" (save_file_name job (Some step)) = true
  ∧ glob_match (job +:+ "_") ".safetensors" (save_file_name job None) = false
  ∧ glob_match (job +:+ "_") ".safetensors"
      (save_file_name (job +:+ "_LoRA") None) = true
  ∧ (job ≠ EmptyString →
     ∀ step', glob_match job (EmptyString +:+ ".safetensors")
                (save_file_name job step') = true).
Proof.
  intros _.
  assert (Hprefix : job +:+ "_" ≠ EmptyString) by by apply append_not_empty.
  unfold save_file_name. split; [|split; [|split]].
  - apply glob_match_spec; [done|]. exists (zfill 9 (pretty step)).
    simpl. by rewrite !append_assoc.
  - apply not_true_is_false. intros Hmatch.
    apply glob_match_inv in Hmatch as [middle Heq].
    simpl in Heq. rewrite append_nil_l, !append_assoc in Heq.
    apply append_inv_l in Heq. discriminate Heq.
  - apply glob_match_spec; [done|]. exists "LoRA". simpl.
    by rewrite !append_assoc.
  - intros Hjob step'. apply glob_match_spec; [done|]. exists (step_num step').
    by rewrite append_nil_l.
Qed.

(** ** Sorting by creation time *)

Lemma insert_by_ctime_perm x l : insert_by_ctime x l ≡ₚ x :: l.
Proof.
  induction l as [|y l IH]; [done|]. simpl. case_bool_decide; [done|].
  rewrite IH. apply Permutation_swap.
Qed.

Lemma insert_by_ctime_sorted x l :
  StronglySorted older l → StronglySorted older (insert_by_ctime x l).
Proof.
  induction 1 as [|y l Hl IH Hy]; simpl.
  - by repeat constructor.
  - case_bool_decide as Hxy.
    + constructor; [by constructor|]. constructor; [done|].
      eapply Forall_impl; [exact Hy|]. unfold older. intros z Hz. lia.
    + constructor; [done|]. rewrite insert_by_ctime_perm.
      constructor; [|done]. unfold older. lia.
Qed.

Lemma sort_by_ctime_perm l : sort_by_ctime l ≡ₚ l.
Proof.
  induction l as [|x l IH]; [done|]. simpl.
  by rewrite insert_by_ctime_perm, IH.
Qed.

Lemma sort_by_ctime_sorted l : StronglySorted older (sort_by_ctime l).
Proof.
  induction l as [|x l IH]; [constructor|]. simpl. by apply insert_by_ctime_sorted.
Qed.

(** ** What the clean-up removes *)

Lemma elem_of_remove g p dir : g ∈ remove p dir ↔ g ∈ dir ∧ path g ≠ p.
Proof. unfold remove. rewrite list_elem_of_filter. tauto. Qed.

Lemma elem_of_removed g dir old :
  g ∈ foldl (λ dir f, remove (yaml_of (path f)) (remove (path f) dir)) dir old
  ↔ g ∈ dir ∧ ∀ f, f ∈ old → path g ≠ path f ∧ path g ≠ yaml_of (path f).
Proof.
  revert dir. induction old as [|f old IH]; intros dir; simpl.
  - split; [|tauto]. intros Hg. split; [done|]. intros f Hf. by apply elem_of_nil in Hf.
  - rewrite IH, !elem_of_remove. split.
    + intros [[[Hg Hp] Hy] Hold]. split; [done|]. intros f' Hf'.
      apply elem_of_cons in Hf' as [-> | Hf']; [done|]. by apply Hold.
    + intros [Hg Hold]. destruct (Hold f) as [Hp Hy]; [by left|].
      split; [done|]. intros f' Hf'. apply Hold. by right.
Qed.

Lemma NoDup_removed dir old :
  NoDup dir →
  NoDup (foldl (λ dir f, remove (yaml_of (path f)) (remove (path f) dir)) dir old).
Proof.
  revert dir. induction old as [|f old IH]; intros dir Hdir; [done|].
  simpl. apply IH. unfold remove. by do 2 apply NoDup_filter.
Qed.

Lemma same_path_same_file (dir : list file) f g :
  NoDup (path <$> dir) → f ∈ dir → g ∈ dir → path f = path g → f = g.
Proof.
  induction dir as [|h dir IH]; [intros _ Hf; by apply elem_of_nil in Hf|].
  rewrite fmap_cons, NoDup_cons. intros [Hh Hdir] Hf Hg Hpath.
  apply elem_of_cons in Hf as [-> | Hf]; apply elem_of_cons in Hg as [-> | Hg].
  - done.
  - destruct Hh. rewrite list_elem_of_fmap. by exists g.
  - destruct Hh. rewrite list_elem_of_fmap. by exists f.
  - by apply IH.
Qed.

Lemma yaml_is_no_step_save job p :
  glob_match (job +:+ "_") ".safetensors" (yaml_of p) = false.
Proof.
  apply glob_match_last_char; [done|]. unfold yaml_of.
  by rewrite last_char_append.
Qed.

(** The slice [files[:-k]] leaves the last [k] files. *)
Lemma slice_to_neg {A} (k : nat) (l : list A) :
  (1 ≤ k)%nat → slice_to (- Z.of_nat k) l = take (length l - k) l.
Proof.
  intros Hk. unfold slice_to. rewrite bool_decide_eq_false_2 by lia.
  f_equal. lia.
Qed.

(** The clean-up in one formula: some of the step saves, the oldest
    ones, are removed with their [.yaml] files. *)
Lemma clean_up_saves_removes job k dir :
  let files := sort_by_ctime (filter (λ f, is_step_save job f = true) dir) in
  ∃ old,
    old = (if bool_decide (k < length files)%nat
           then slice_to (- Z.of_nat k) files else [])
    ∧ clean_up_saves job k (Some dir)
      = (Some (foldl (λ dir f, remove (yaml_of (path f)) (remove (path f) dir))
                 dir old),
         (λ f, "Removing old save: " +:+ path f) <$> old).
Proof.
  intros files. eexists. split; [reflexivity|]. unfold clean_up_saves.
  unfold files. rewrite (Permutation_length (sort_by_ctime_perm _)).
  by case_bool_decide.
Qed.

(** With room for [k >= 1] step saves and more than [k] of them in the
    folder, the clean-up leaves exactly [k] step saves, and no step save
    that it removes is newer than one that it leaves. *)
Theorem clean_up_keeps_newest job k dir :
  NoDup (path <$> dir) → (1 ≤ k)%nat →
  (k < length (filter (λ f, is_step_save job f = true) dir))%nat →
  ∃ dir',
    (clean_up_saves job k (Some dir)).1 = Some dir'
    ∧ length (filter (λ f, is_step_save job f = true) dir') = k
    ∧ (∀ f, f ∈ dir' → f ∈ dir)
    ∧ (∀ f g, f ∈ dir → is_step_save job f = true → f ∉ dir' →
              g ∈ dir' → is_step_save job g = true → (ctime f ≤ ctime g)%Z).
Proof.
  intros Hpaths Hk Hmany.
  destruct (clean_up_saves_removes job k dir) as (old & Hold & ->).
  set (saves := filter (λ f, is_step_save job f = true) dir) in *.
  set (files := sort_by_ctime saves) in *.
  assert (Hperm : files ≡ₚ saves) by apply sort_by_ctime_perm.
  assert (Hlen : length files = length saves) by by rewrite Hperm.
  rewrite bool_decide_eq_true_2, slice_to_neg in Hold by lia.
  set (n := (length files - k)%nat) in *.
  assert (Hsplit : files = old ++ drop n files) by (by rewrite Hold, take_drop).
  assert (Hdir : NoDup dir) by by eapply NoDup_fmap_1.
  assert (Hfiles : NoDup files).
  { rewrite Hperm. by apply NoDup_filter. }
  assert (Hin : ∀ f, f ∈ files ↔ f ∈ dir ∧ is_step_save job f = true).
  { intros f. rewrite Hperm. unfold saves. by rewrite list_elem_of_filter, (comm and). }
  assert (Hkept : ∀ g,
            g ∈ filter (λ f, is_step_save job f = true)
                  (foldl (λ dir f, remove (yaml_of (path f)) (remove (path f) dir))
                     dir old)
            ↔ g ∈ drop n files).
  { intros g. rewrite list_elem_of_filter, elem_of_removed. split.
    - intros (Hsave & Hg & Hnot).
      assert (Hgf : g ∈ files) by by apply Hin.
      rewrite Hsplit in Hgf. apply elem_of_app in Hgf as [Hgo | Hgd]; [|done].
      by destruct (Hnot g Hgo).
    - intros Hg.
      assert (Hgf : g ∈ files) by (rewrite Hsplit; apply elem_of_app; by right).
      apply Hin in Hgf as [Hgdir Hsave]. split; [done|]. split; [done|].
      intros f Hf. split.
      + intros Hpath.
        assert (Hff : f ∈ files) by (rewrite Hsplit; apply elem_of_app; by left).
        apply Hin in Hff as [Hfdir _].
        assert (g = f) as -> by by eapply same_path_same_file.
        rewrite Hsplit in Hfiles. apply NoDup_app in Hfiles as (_ & Hdisj & _).
        by apply (Hdisj f).
      + intros Hpath. unfold is_step_save in Hsave.
        by rewrite Hpath, yaml_is_no_step_save in Hsave. }
  eexists. split; [reflexivity|]. split; [|split].
  - rewrite (Permutation_length (l' := drop n files)).
    + rewrite length_drop. unfold n. lia.
    + apply NoDup_Permutation; [| |exact Hkept].
      2: { rewrite Hsplit in Hfiles. by apply NoDup_app in Hfiles as (_ & _ & ?). }
      apply NoDup_filter. by apply NoDup_removed.
  - intros f Hf. by apply elem_of_removed in Hf as [Hf _].
  - intros f g Hf Hfsave Hgone Hg Hgsave.
    assert (Hgd : g ∈ drop n files) by (apply Hkept, list_elem_of_filter; by split).
    assert (Hff : f ∈ files) by by apply Hin.
    rewrite Hsplit in Hff. apply elem_of_app in Hff as [Hfo | Hfd].
    + pose proof (sort_by_ctime_sorted saves) as Hsorted. fold files in Hsorted.
      rewrite Hsplit in Hsorted.
      by apply (StronglySorted_app_1_elem_of older _ _ _ _ Hsorted Hfo Hgd).
    + destruct Hgone. apply Hkept in Hfd.
      by apply list_elem_of_filter in Hfd as [_ Hfd].
Qed.

(** With [max_step_saves_to_keep = 0] the clean-up removes nothing (the
    slice [files[:-0]] is empty), and neither does it when the step saves
    are at most [max_step_saves_to_keep]. *)
Theorem clean_up_keeps_all job k dir :
  k = 0%nat ∨ (length (filter (λ f, is_step_save job f = true) dir) ≤ k)%nat →
  clean_up_saves job k (Some dir) = (Some dir, []).
Proof.
  intros Hk. destruct (clean_up_saves_removes job k dir) as (old & Hold & ->).
  rewrite (Permutation_length (sort_by_ctime_perm _)) in Hold.
  assert (old = []) as ->; [|done]. subst old.
  destruct Hk as [-> | Hk].
  - by case_bool_decide.
  - by rewrite bool_decide_eq_false_2 by lia.
Qed.

(** The clean-up only removes step saves of the job and [.yaml] files:
    every other file of the folder is still there afterwards, for
    instance the final save of the job. *)
Theorem clean_up_spares_other_files job k dir f :
  f ∈ dir → is_step_save job f = false → ends_with ".yaml" (path f) = false →
  ∃ dir', (clean_up_saves job k (Some dir)).1 = Some dir' ∧ f ∈ dir'.
Proof.
  intros Hf Hsave Hyaml.
  destruct (clean_up_saves_removes job k dir) as (old & Hold & ->).
  eexists. split; [reflexivity|]. apply elem_of_removed. split; [done|].
  intros g Hg.
  assert (Hgsave : is_step_save job g = true).
  { assert (g ∈ sort_by_ctime (filter (λ f, is_step_save job f = true) dir)) as Hgs.
    { subst old. case_bool_decide; [|by apply elem_of_nil in Hg].
      unfold slice_to in Hg.
      case_bool_decide;
        by apply elem_of_take in Hg as (? & ?%list_elem_of_lookup_2 & _). }
    rewrite sort_by_ctime_perm in Hgs. by apply list_elem_of_filter in Hgs as [? _]. }
  split.
  - intros Hpath. unfold is_step_save in *. congruence.
  - intros Hpath. rewrite Hpath in Hyaml.
    assert (ends_with ".yaml" (yaml_of (path g)) = true); [|congruence].
    apply ends_with_spec. by eexists.
Qed.

Lemma newest_spec files :
  match newest files with
  | None => files = []
  | Some f => f ∈ files ∧ ∀ g, g ∈ files → (ctime g ≤ ctime f)%Z
  end.
Proof.
  destruct files as [|f files]; [done|]. simpl.
  assert (Hgen : ∀ best,
            let r := foldl (λ best g, if bool_decide (ctime best < ctime g)%Z
                                      then g else best) best files in
            (r = best ∨ r ∈ files) ∧ (ctime best ≤ ctime r)%Z
            ∧ ∀ g, g ∈ files → (ctime g ≤ ctime r)%Z).
  { induction files as [|h files IH]; intros best; simpl.
    - split; [by left|]. split; [lia|]. intros g Hg. by apply elem_of_nil in Hg.
    - destruct (IH (if bool_decide (ctime best < ctime h)%Z then h else best))
        as (Hmem & Hge & Hall).
      split; [|split].
      + destruct Hmem as [-> | Hmem]; [|right; by right].
        case_bool_decide; [right; by left|by left].
      + case_bool_decide; lia.
      + intros g Hg. apply elem_of_cons in Hg as [-> | Hg]; [|by apply Hall].
        case_bool_decide; lia. }
  destruct (Hgen f) as (Hmem & Hge & Hall). split.
  - destruct Hmem as [-> | Hmem]; [by left|by right].
  - intros g Hg. apply elem_of_cons in Hg as [-> | Hg]; [done|by apply Hall].
Qed.

(** The resume lookup returns a newest file among its candidates, which
    are the [.pt] files of the name when there is one, whatever their age,
    and the [.safetensors] files of the name otherwise; it returns [None]
    exactly when there is no candidate. *)
Theorem latest_save_is_newest name post dir :
  let saves :=
    filter (λ f, glob_match name (post +:+ ".safetensors") (path f) = true) dir in
  let pts := filter (λ f, glob_match name ".pt" (path f) = true) dir in
  let candidates := if bool_decide (pts = []) then saves else pts in
  match get_latest_save_path name post (Some dir) with
  | None => candidates = []
  | Some p =>
      ∃ f, f ∈ candidates ∧ path f = p
           ∧ ∀ g, g ∈ candidates → (ctime g ≤ ctime f)%Z
  end.
Proof.
  intros saves pts candidates. unfold get_latest_save_path.
  fold saves. fold pts. unfold candidates. clearbody saves pts.
  pose proof (newest_spec pts) as Hpts. pose proof (newest_spec saves) as Hsaves.
  destruct pts as [|p pts'] eqn:Hp.
  - rewrite (bool_decide_eq_true_2 ([] = [])) by done.
    rewrite (bool_decide_eq_false_2 (0 < length [])%nat) by (simpl; lia).
    destruct saves as [|f saves'] eqn:Hs.
    { by rewrite bool_decide_eq_false_2 by (simpl; lia). }
    rewrite bool_decide_eq_true_2 by (simpl; lia).
    destruct (newest (f :: saves')) as [best|]; [|done]. simpl.
    exists best. by destruct Hsaves.
  - rewrite (bool_decide_eq_false_2 (p :: pts' = [])) by done.
    rewrite (bool_decide_eq_true_2 (0 < length (p :: pts'))%nat) by (simpl; lia).
    destruct (newest (p :: pts')) as [best|]; [|done]. simpl.
    exists best. by destruct Hpts.
Qed.

End SavesFacts.

(* ===================================================================== *)
(** * Properties of the training loop *)
(* ===================================================================== *)

Module ScheduleFacts.
Import Schedule.

(** After its first iteration the loop sees, in the iteration for
    [step + 1], the step number [step]. *)
Lemma iterations_lagging cfg start a m :
  iterations cfg start (seq (S a) m) a
  = (concat ((λ j, iteration cfg start (S j) j) <$> seq a m),
     (if m is O then a else a + m)%nat).
Proof.
  revert a. induction m as [|m IH]; intros a; [done|].
  cbn [seq iterations]. rewrite IH. simpl. f_equal.
  destruct m; lia.
Qed.

Lemma iterations_from cfg start a m :
  iterations cfg start (seq a (S m)) a
  = (iteration cfg start a a
       ++ concat ((λ j, iteration cfg start (S j) j) <$> seq a m),
     (if m is O then a else a + m)%nat).
Proof. cbn [seq iterations]. by rewrite iterations_lagging. Qed.

Lemma elem_of_concat {A} (x : A) (ls : list (list A)) :
  x ∈ concat ls ↔ ∃ l, x ∈ l ∧ l ∈ ls.
Proof.
  induction ls as [|l' ls IH]; simpl.
  - split; [by intros ?%elem_of_nil|]. by intros (l & _ & ?%elem_of_nil).
  - rewrite elem_of_app, IH. split.
    + intros [Hx | (l & Hx & Hl)]; [exists l'; split; [done|by left]|].
      exists l. split; [done|by right].
    + intros (l & Hx & Hl). apply elem_of_cons in Hl as [-> | Hl]; [by left|].
      right. by exists l.
Qed.

(** Membership in a short explicit list that does not hold the element. *)
Ltac not_in_list H :=
  repeat (apply elem_of_cons in H as [H|H]; [discriminate H|]);
  by apply elem_of_nil in H.

Lemma save_in_iteration cfg start step step_num n :
  Save (Some n) ∈ iteration cfg start step step_num
  ↔ n = step_num ∧ step_num ≠ start ∧ is_every (save_every cfg) step_num = true.
Proof.
  unfold iteration. cbn [app]. rewrite elem_of_cons. split.
  - intros [? | Hin]; [done|].
    case_bool_decide as Hne; [|by apply elem_of_nil in Hin].
    apply elem_of_app in Hin as [Hin|Hin].
    + destruct (is_every (sample_every cfg) step_num); not_in_list Hin.
    + destruct (is_every (save_every cfg) step_num); [|not_in_list Hin].
      apply list_elem_of_singleton in Hin as [= ->]. done.
  - intros (-> & Hne & Hsave). right. rewrite bool_decide_eq_true_2 by done.
    rewrite Hsave. apply elem_of_app. right. by apply list_elem_of_singleton.
Qed.

Lemma save_not_in_first_samples (b1 b2 : bool) n :
  Save (Some n) ∉ (if b1 then [FirstSample true] else [])
                  ++ (if b2 then [] else [FirstSample false]).
Proof. intros Hin. destruct b1, b2; simpl in Hin; not_in_list Hin. Qed.

(** A run that starts at step [start] saves under the step number [n]
    exactly when [n] is a multiple of [save_every] with
    [start < n <= steps - 2]: never under the step number it starts from,
    and never under the last two step numbers. *)
Theorem step_saves_of_a_run cfg start n :
  Save (Some n) ∈ train_loop cfg start start
  ↔ (start < n)%nat ∧ (n + 2 ≤ steps cfg)%nat
    ∧ is_every (save_every cfg) n = true.
Proof.
  unfold train_loop.
  destruct (steps cfg - start)%nat as [|m] eqn:Hm.
  - cbn [seq iterations]. rewrite !elem_of_app. split.
    + intros [Hfirst | [Hnone | Hlast]].
      * exfalso. by eapply save_not_in_first_samples, elem_of_app, Hfirst.
      * by apply elem_of_nil in Hnone.
      * not_in_list Hlast.
    + lia.
  - rewrite iterations_from. rewrite !elem_of_app, save_in_iteration.
    rewrite elem_of_concat.
    split.
    + intros [Hfirst | [[[_ [? _]] | (l & Hn & Hl)] | Hlast]].
      * exfalso. by eapply save_not_in_first_samples, elem_of_app, Hfirst.
      * done.
      * apply list_elem_of_fmap in Hl as (j & -> & Hj).
        apply elem_of_seq in Hj. apply save_in_iteration in Hn as (-> & Hne & Hsave).
        repeat split; [lia|lia|done].
      * not_in_list Hlast.
    + intros (Hlt & Hle & Hsave). right. left. right.
      exists (iteration cfg start (S n) n). split.
      * apply save_in_iteration. repeat split; [lia|done].
      * apply list_elem_of_fmap. exists n. split; [done|]. apply elem_of_seq. lia.
Qed.

Lemma trained_steps_app a b :
  trained_steps (a ++ b) = trained_steps a ++ trained_steps b.
Proof. apply omap_app. Qed.

Lemma trained_steps_iteration cfg start step step_num :
  trained_steps (iteration cfg start step step_num) = [step].
Proof.
  unfold iteration, trained_steps. cbn [app omap list_omap]. f_equal.
  case_bool_decide; [|done].
  by destruct (is_every (sample_every cfg) step_num),
    (is_every (save_every cfg) step_num).
Qed.

Lemma trained_steps_first (b1 b2 : bool) :
  trained_steps (if b1 then [FirstSample true] else [])
  ++ trained_steps (if b2 then [] else [FirstSample false]) = [].
Proof. by destruct b1, b2. Qed.

Lemma trained_steps_lagging cfg start a m :
  trained_steps (concat ((λ j, iteration cfg start (S j) j) <$> seq a m))
  = seq (S a) m.
Proof.
  revert a. induction m as [|m IH]; intros a; [done|].
  cbn [seq fmap list_fmap concat].
  by rewrite trained_steps_app, trained_steps_iteration, IH.
Qed.

Lemma trained_steps_train_loop cfg start :
  trained_steps (train_loop cfg start start) = seq start (steps cfg - start).
Proof.
  unfold train_loop.
  destruct (steps cfg - start)%nat as [|m] eqn:Hm.
  - cbn [seq iterations]. by rewrite !trained_steps_app, trained_steps_first.
  - rewrite iterations_from.
    rewrite !trained_steps_app, trained_steps_first, trained_steps_iteration,
      trained_steps_lagging. cbn [app seq]. by rewrite app_nil_r.
Qed.

(** A run that starts at step [start] trains on the steps
    [start, ..., steps - 1], once each and in this order, and ends with a
    sample and the final save, which has no step number; the last sample
    is numbered [steps], or [start + 1] when there was nothing to train. *)
Theorem training_steps_of_a_run cfg start :
  trained_steps (train_loop cfg start start) = seq start (steps cfg - start)
  ∧ ∃ actions,
      train_loop cfg start start
      = actions ++ [Sample (if bool_decide (start < steps cfg)%nat
                            then steps cfg else start + 1)%nat;
                    Save None].
Proof.
  split; [apply trained_steps_train_loop|]. unfold train_loop.
  destruct (steps cfg - start)%nat as [|m] eqn:Hm.
  - cbn [seq iterations].
    rewrite bool_decide_eq_false_2 by lia. eexists. by rewrite app_nil_l.
  - rewrite iterations_from.
    rewrite bool_decide_eq_true_2 by lia. eexists. rewrite app_assoc.
    f_equal. f_equal. f_equal. destruct m; lia.
Qed.

Lemma reg_in_iteration cfg start step step_num n :
  Train FromReg n ∈ iteration cfg start step step_num
  ↔ n = step ∧ (step `mod` 2 = 0)%nat ∧ has_reg_loader cfg = true
    ∧ is_every (save_every cfg) step_num = false
    ∧ is_every (sample_every cfg) step_num = false.
Proof.
  unfold iteration. cbn [app]. rewrite elem_of_cons. split.
  - intros [Heq | Hin].
    + destruct (bool_decide (step `mod` 2 = 0)%nat) eqn:Heven;
        destruct (has_reg_loader cfg), (is_every (save_every cfg) step_num),
          (is_every (sample_every cfg) step_num), (has_loader cfg);
        simpl in Heq; try discriminate Heq.
      all: injection Heq as ->; apply bool_decide_eq_true_1 in Heven; done.
    + case_bool_decide; [|by apply elem_of_nil in Hin].
      apply elem_of_app in Hin as [Hin|Hin].
      * destruct (is_every (sample_every cfg) step_num); not_in_list Hin.
      * destruct (is_every (save_every cfg) step_num); not_in_list Hin.
  - intros (-> & Heven & Hreg & Hsave & Hsample). left.
    by rewrite bool_decide_eq_true_2, Hreg, Hsave, Hsample by done.
Qed.

Lemma reg_not_in_first_samples (b1 b2 : bool) n :
  Train FromReg n ∉ (if b1 then [FirstSample true] else [])
                    ++ (if b2 then [] else [FirstSample false]).
Proof. intros Hin. destruct b1, b2; simpl in Hin; not_in_list Hin. Qed.

(** The steps of a run that train on a regularization batch: the even
    steps, when there is a regularization loader, for which neither a save
    nor a sample is due at the step number that the loop holds at that
    moment, which is the number of the step before (of the step itself in
    the first iteration). *)
Theorem regularization_steps_of_a_run cfg start step :
  Train FromReg step ∈ train_loop cfg start start
  ↔ (start ≤ step)%nat ∧ (step < steps cfg)%nat
    ∧ (step `mod` 2 = 0)%nat ∧ has_reg_loader cfg = true
    ∧ let seen := if bool_decide (step = start) then start else (step - 1)%nat in
      is_every (save_every cfg) seen = false
      ∧ is_every (sample_every cfg) seen = false.
Proof.
  unfold train_loop.
  destruct (steps cfg - start)%nat as [|m] eqn:Hm.
  - cbn [seq iterations]. rewrite !elem_of_app. split.
    + intros [Hfirst | [Hnone | Hlast]].
      * exfalso. by eapply reg_not_in_first_samples, elem_of_app, Hfirst.
      * by apply elem_of_nil in Hnone.
      * not_in_list Hlast.
    + lia.
  - rewrite iterations_from. rewrite !elem_of_app, reg_in_iteration.
    rewrite elem_of_concat. split.
    + intros [Hfirst | [[(-> & Heven & Hreg & Hsave & Hsample) | (l & Hn & Hl)] | Hlast]].
      * exfalso. by eapply reg_not_in_first_samples, elem_of_app, Hfirst.
      * rewrite bool_decide_eq_true_2 by done. repeat split; try done; lia.
      * apply list_elem_of_fmap in Hl as (j & -> & Hj). apply elem_of_seq in Hj.
        apply reg_in_iteration in Hn as (-> & Heven & Hreg & Hsave & Hsample).
        rewrite bool_decide_eq_false_2 by lia.
        replace (S j - 1)%nat with j by lia. repeat split; try done; lia.
      * not_in_list Hlast.
    + intros (Hge & Hlt & Heven & Hreg & Hseen). right. left.
      destruct (decide (step = start)) as [-> | Hne].
      * left. by rewrite bool_decide_eq_true_2 in Hseen by done.
      * right. rewrite bool_decide_eq_false_2 in Hseen by done.
        exists (iteration cfg start (S (step - 1)) (step - 1)). split.
        -- apply reg_in_iteration. replace (S (step - 1)) with step by lia.
           by destruct Hseen.
        -- apply list_elem_of_fmap. exists (step - 1)%nat. split; [done|].
           apply elem_of_seq. lia.
Qed.

Lemma iteration_save cfg start n :
  n ≠ start → is_every (save_every cfg) n = true →
  ∃ source,
    iteration cfg start (S n) n
    = [Train source (S n)]
      ++ (if is_every (sample_every cfg) n then [Sample n] else [])
      ++ [Save (Some n)].
Proof.
  intros Hne Hsave. unfold iteration.
  rewrite (bool_decide_eq_true_2 (n ≠ start)) by done. rewrite Hsave.
  eexists. reflexivity.
Qed.

(** The loop saves under a step number [n] that is a multiple of
    [save_every] with [start < n <= steps - 2].  That save is written in
    the iteration of step [n + 1], after the training call of that step:
    the weights it holds have been trained on the steps
    [start, ..., n + 1].  Its metadata record the step [n + 1], and a run
    resumed from it starts by training step [n + 1] again: the two runs
    together make one training call more than the [steps - start] calls
    of a run that is not interrupted. *)
Theorem resume_repeats_one_step cfg start n :
  (start < n)%nat → (n + 2 ≤ steps cfg)%nat →
  is_every (save_every cfg) n = true →
  let resumed := resumed_step (Some (get_training_info n)) None start in
  ∃ before after,
    train_loop cfg start start = before ++ Save (Some n) :: after
    ∧ trained_steps before = seq start (S n - start + 1)
    ∧ trained_steps (train_loop cfg resumed resumed) = seq (S n) (steps cfg - S n)
    ∧ (length (trained_steps before)
       + length (trained_steps (train_loop cfg resumed resumed))
       = steps cfg - start + 1)%nat.
Proof.
  intros Hlt Hle Hevery resumed.
  assert (Hresumed : resumed = S n) by (unfold resumed, get_training_info; simpl; lia).
  rewrite Hresumed.
  rewrite (trained_steps_train_loop cfg (S n)). unfold train_loop.
  destruct (steps cfg - start)%nat as [|m] eqn:Hm; [lia|].
  assert (∃ m', m = ((n - start) + S m')%nat) as [m' ->]
    by (exists (m - (n - start) - 1)%nat; lia).
  rewrite iterations_from.
  rewrite seq_app, fmap_app, concat_app. cbn [seq fmap list_fmap concat].
  replace (start + (n - start))%nat with n by lia.
  destruct (iteration_save cfg start n) as [source ->]; [lia|done|].
  exists (((if has_first_sample_requested cfg then [FirstSample true] else [])
           ++ (if skip_first_sample cfg then [] else [FirstSample false]))
          ++ iteration cfg start start start
          ++ concat ((λ j, iteration cfg start (S j) j) <$> seq start (n - start))
          ++ [Train source (S n)]
          ++ (if is_every (sample_every cfg) n then [Sample n] else [])).
  eexists.
  split; [|split; [|split]].
  - rewrite <- !app_assoc. cbn [app]. reflexivity.
  - rewrite !trained_steps_app, trained_steps_first, trained_steps_iteration,
      trained_steps_lagging.
    replace (trained_steps (if is_every (sample_every cfg) n then [Sample n] else []))
      with (@nil nat) by (by destruct (is_every (sample_every cfg) n)).
    change (trained_steps [Train source (S n)]) with [S n].
    rewrite app_nil_r, app_nil_l.
    replace (S n - start + 1)%nat with (S ((n - start) + 1)) by lia.
    cbn [seq app]. f_equal. rewrite seq_app. f_equal.
    cbn [seq]. f_equal. lia.
  - reflexivity.
  - rewrite !trained_steps_app, trained_steps_first,
      trained_steps_iteration, trained_steps_lagging.
    replace (trained_steps (if is_every (sample_every cfg) n then [Sample n] else []))
      with (@nil nat) by (by destruct (is_every (sample_every cfg) n)).
    change (trained_steps [Train source (S n)]) with [S n].
    rewrite !length_app, !length_seq. cbn [length]. lia.
Qed.

End ScheduleFacts.

(* ===================================================================== *)
(** * Properties of the instant LoRA module *)
(* ===================================================================== *)

Module ILoraFacts.
Import ILora.

Lemma slices_length {A} start lengths (img_embeds : list (list A)) :
  length (slices start lengths img_embeds) = length lengths.
Proof.
  revert start. induction lengths as [|n lengths IH]; intros start; [done|].
  simpl. by rewrite IH.
Qed.

Lemma slices_lookup {A} start lengths (img_embeds : list (list A)) i n :
  lengths !! i = Some n →
  slices start lengths img_embeds !! i
  = Some ((λ row, take n (drop (start + sum_list (take i lengths)) row))
          <$> img_embeds).
Proof.
  revert start i. induction lengths as [|k lengths IH]; intros start i Hi; [done|].
  destruct i as [|i]; simpl in *.
  - injection Hi as ->. by rewrite Nat.add_0_r.
  - rewrite (IH _ _ Hi). f_equal. apply list_fmap_ext.
    intros _ row _. do 2 f_equal. lia.
Qed.

Lemma sum_list_take_le lengths i :
  (sum_list (take i lengths) ≤ sum_list lengths)%nat.
Proof.
  revert i. induction lengths as [|k lengths IH]; intros [|i]; simpl; try lia.
  specialize (IH i). lia.
Qed.

Lemma sum_list_take_lookup lengths i n :
  lengths !! i = Some n →
  (sum_list (take i lengths) + n ≤ sum_list lengths)%nat.
Proof.
  revert i. induction lengths as [|k lengths IH]; intros [|i] Hi; simpl in *;
    try done.
  - injection Hi as ->. lia.
  - specialize (IH i Hi). lia.
Qed.

Lemma slices_concat {A} start lengths (img_embeds : list (list A)) b row :
  img_embeds !! b = Some row →
  concat ((λ part, default [] (part !! b)) <$> slices start lengths img_embeds)
  = take (sum_list lengths) (drop start row).
Proof.
  intros Hrow. revert start.
  induction lengths as [|n lengths IH]; intros start; [done|].
  simpl. rewrite IH, list_lookup_fmap, Hrow. simpl.
  by rewrite <- drop_drop, <- take_take_drop.
Qed.

(** [forward] cuts each generated row into one slice per module, in the
    order of the modules.  The slices of a row, put end to end, are the
    first [output_size] entries of the row: no generated weight is skipped
    and none is given to two modules; on a row of at least [output_size]
    entries the slice of a module has the size of the module. *)
Theorem slices_partition_the_row {A} modules (img_embeds : list (list A)) b row :
  img_embeds !! b = Some row →
  let parts := slices 0 (embed_lengths modules) img_embeds in
  length parts = length modules
  ∧ concat ((λ part, default [] (part !! b)) <$> parts)
    = take (output_size modules) row
  ∧ ∀ i m, modules !! i = Some m → (output_size modules ≤ length row)%nat →
      ∃ part r, parts !! i = Some part ∧ part !! b = Some r
                ∧ length r = module_size m.
Proof.
  intros Hrow parts. split; [|split].
  - unfold parts, embed_lengths. by rewrite slices_length, length_fmap.
  - unfold parts. by rewrite (slices_concat _ _ _ _ _ Hrow).
  - intros i m Hm Hsize.
    assert (Hlen : embed_lengths modules !! i = Some (module_size m)).
    { unfold embed_lengths. by rewrite list_lookup_fmap, Hm. }
    unfold parts. rewrite (slices_lookup _ _ _ _ _ Hlen).
    eexists _, _. split; [reflexivity|]. rewrite list_lookup_fmap, Hrow. simpl.
    split; [reflexivity|]. rewrite length_take, length_drop.
    pose proof (sum_list_take_lookup _ _ _ Hlen). unfold output_size in Hsize. lia.
Qed.

(** The two weights of a module are the two ends of its slice.  On a row
    of the size of the module, and for an up weight that is not empty,
    they do not overlap and leave nothing out: the down weight followed by
    the up weight is the row. *)
Theorem weights_partition_the_slice {A} (m : shapes) (embed : list (list A)) :
  (1 ≤ prod (up_shape m))%nat →
  Forall (λ row, length row = module_size m) embed →
  zip_with app (down_weight m embed) (up_weight m embed) = embed
  ∧ Forall (λ row, length row = prod (down_shape m)) (down_weight m embed)
  ∧ Forall (λ row, length row = prod (up_shape m)) (up_weight m embed).
Proof.
  intros Hup Hrows. unfold down_weight, up_weight, module_size in *.
  rewrite bool_decide_eq_false_2 by lia.
  induction Hrows as [|row embed Hrow _ (IH1 & IH2 & IH3)]; [done|].
  rewrite !fmap_cons. simpl. split; [|split].
  - rewrite IH1. f_equal.
    replace (length row - prod (up_shape m))%nat with (prod (down_shape m)) by lia.
    apply take_drop.
  - constructor; [|done]. rewrite length_take. lia.
  - constructor; [|done]. rewrite length_drop. lia.
Qed.

(** ** Renaming the modules *)

Lemma inverted_lookup_other (keymap : list (string * string))
    (m0 : gmap string string) key :
  key ∉ keymap.*2 →
  foldl (λ m '(ldm_key, diffusers_key), <[diffusers_key := ldm_key]> m) m0 keymap
    !! key = m0 !! key.
Proof.
  revert m0. induction keymap as [|[l d] keymap IH]; intros m0 Hkey; [done|].
  simpl in *. apply not_elem_of_cons in Hkey as [Hne Hkey].
  rewrite IH by done. by rewrite lookup_insert_ne.
Qed.

Lemma inverted_lookup (keymap : list (string * string))
    (m0 : gmap string string) ldm_key key :
  NoDup keymap.*2 → (ldm_key, key) ∈ keymap →
  foldl (λ m '(ldm_key, diffusers_key), <[diffusers_key := ldm_key]> m) m0 keymap
    !! key = Some ldm_key.
Proof.
  revert m0. induction keymap as [|[l d] keymap IH]; intros m0 Hnd Hin.
  - by apply elem_of_nil in Hin.
  - simpl in *. apply NoDup_cons in Hnd as [Hd Hnd].
    apply elem_of_cons in Hin as [[= -> ->] | Hin].
    + rewrite inverted_lookup_other by done. apply lookup_insert_eq.
    + by apply IH.
Qed.

Lemma inverted_lookup_in (keymap : list (string * string))
    (m0 : gmap string string) key :
  key ∈ keymap.*2 →
  is_Some (foldl (λ m '(ldm_key, diffusers_key), <[diffusers_key := ldm_key]> m)
             m0 keymap !! key).
Proof.
  revert m0. induction keymap as [|[l d] keymap IH]; intros m0 Hin.
  - by apply elem_of_nil in Hin.
  - simpl in *. destruct (decide (key ∈ keymap.*2)) as [Hrest | Hrest].
    + by apply IH.
    + apply elem_of_cons in Hin as [-> | Hin]; [|done].
      rewrite inverted_lookup_other by done. rewrite lookup_insert_eq. by eexists.
Qed.

(** The name under which a module is saved: the key that the keymap has
    for its name, or the name itself when the keymap does not have it. *)
Lemma saved_name_spec keymap :
  (∀ ldm_key key, NoDup keymap.*2 → (ldm_key, key) ∈ keymap →
     saved_name keymap key = ldm_key)
  ∧ (∀ key, key ∉ keymap.*2 → saved_name keymap key = key).
Proof.
  unfold saved_name. split.
  - intros ldm_key key Hnd Hin. by rewrite (inverted_lookup _ _ _ _ Hnd Hin).
  - intros key Hkey. by rewrite inverted_lookup_other.
Qed.

Lemma renamed_lookup keymap (mapping : list (string * shapes))
    (m0 : gmap string shapes) p0 :
  let save_keymap : gmap string string :=
    foldl (λ m '(ldm_key, diffusers_key), <[diffusers_key := ldm_key]> m)
          ∅ keymap in
  let r :=
    foldl (λ '(m, printed) '(key, value),
             match save_keymap !! key with
             | Some ldm_key => (<[ldm_key := value]> m, printed)
             | None =>
                 (<[key := value]> m,
                  printed ++ ["Key " +:+ key +:+ " not found in keymap"])
             end)
          (m0, p0) mapping in
  NoDup (saved_name keymap <$> mapping.*1) →
  (∀ key value, (key, value) ∈ mapping → r.1 !! saved_name keymap key = Some value)
  ∧ (∀ k, k ∉ saved_name keymap <$> mapping.*1 → r.1 !! k = m0 !! k)
  ∧ r.2 = p0 ++ ((λ key, "Key " +:+ key +:+ " not found in keymap")
                 <$> filter (λ key, key ∉ keymap.*2) mapping.*1).
Proof.
  intros save_keymap. revert m0 p0.
  induction mapping as [|[key value] mapping IH]; intros m0 p0 r Hnd.
  - simpl in *. split; [|split]; [|done|by rewrite app_nil_r].
    intros ? ? Hin. by apply elem_of_nil in Hin.
  - simpl in Hnd. apply NoDup_cons in Hnd as [Hkey Hnd].
    assert (Hname : ∀ k, saved_name keymap k = default k (save_keymap !! k)) by done.
    assert (Hnone : ∀ k, save_keymap !! k = None ↔ k ∉ keymap.*2).
    { intros k. unfold save_keymap. split.
      - intros Hk Hin. apply (inverted_lookup_in _ ∅) in Hin as [l Hl]. congruence.
      - intros Hk. by rewrite inverted_lookup_other. }
    unfold r. simpl.
    destruct (save_keymap !! key) as [ldm_key|] eqn:Hsk.
    + destruct (IH (<[ldm_key := value]> m0) p0 Hnd) as (Hin & Hout & Hpr).
      split; [|split].
      * intros k v Hkv. apply elem_of_cons in Hkv as [[= -> ->] | Hkv].
        -- rewrite Hout by done. rewrite Hname, Hsk. simpl. apply lookup_insert_eq.
        -- by apply Hin.
      * intros k Hk. apply not_elem_of_cons in Hk as [Hne Hk].
        rewrite Hout by done. rewrite Hname, Hsk in Hne. simpl in Hne.
        by rewrite lookup_insert_ne.
      * rewrite Hpr. f_equal. f_equal. simpl.
        rewrite filter_cons_False; [done|]. rewrite <- Hnone. by rewrite Hsk.
    + destruct (IH (<[key := value]> m0)
                  (p0 ++ ["Key " +:+ key +:+ " not found in keymap"]) Hnd)
        as (Hin & Hout & Hpr).
      split; [|split].
      * intros k v Hkv. apply elem_of_cons in Hkv as [[= -> ->] | Hkv].
        -- rewrite Hout by done. rewrite Hname, Hsk. simpl. apply lookup_insert_eq.
        -- by apply Hin.
      * intros k Hk. apply not_elem_of_cons in Hk as [Hne Hk].
        rewrite Hout by done. rewrite Hname, Hsk in Hne. simpl in Hne.
        by rewrite lookup_insert_ne.
      * rewrite Hpr, <- app_assoc. f_equal. simpl.
        rewrite filter_cons_True by (by apply Hnone). done.
Qed.

(** With a keymap, every module is filed under its saved name, provided
    the saved names of the modules differ from each other; nothing else is
    filed, and one line is printed for each module whose name the keymap
    does not have.  The saved name of a module is the key that the keymap
    has for its name, or the name itself when the keymap does not have
    it. *)
Theorem migrated_weight_mapping keymap (mapping : list (string * shapes)) :
  NoDup (saved_name keymap <$> mapping.*1) →
  (∀ ldm_key key, NoDup keymap.*2 → (ldm_key, key) ∈ keymap →
     saved_name keymap key = ldm_key)
  ∧ (∀ key, key ∉ keymap.*2 → saved_name keymap key = key)
  ∧ ∃ m,
      migrate_weight_mapping (Some keymap) mapping
      = (ByKey m, (λ key, "Key " +:+ key +:+ " not found in keymap")
                  <$> filter (λ key, key ∉ keymap.*2) mapping.*1)
      ∧ (∀ key value, (key, value) ∈ mapping →
           m !! saved_name keymap key = Some value)
      ∧ (∀ k, is_Some (m !! k) → k ∈ saved_name keymap <$> mapping.*1).
Proof.
  intros Hnd. destruct (saved_name_spec keymap) as [Hin_keymap Hnot_in_keymap].
  split; [exact Hin_keymap|]. split; [exact Hnot_in_keymap|].
  unfold migrate_weight_mapping.
  destruct (renamed_lookup keymap mapping ∅ [] Hnd) as (Hin & Hout & Hpr).
  destruct (foldl _ (∅, []) mapping) as [m printed] eqn:Hfold.
  simpl in *. exists m. split; [by rewrite Hpr|]. split; [exact Hin|].
  intros k [v Hk]. destruct (decide (k ∈ saved_name keymap <$> mapping.*1)); [done|].
  rewrite Hout in Hk by done. by rewrite lookup_empty in Hk.
Qed.

End ILoraFacts.

(* ===================================================================== *)
(** * The added properties on sample inputs *)
(* ===================================================================== *)

(** [step_returns_once_stepped] on the plain step of four items. *)
Lemma step_returns_once_stepped_witness :
  let self := settings_of plain_config in
  let batch := batch_of latents4 None EmptyString in
  let x := whole_batch latents4 noise4 timesteps4 in
  let s := trainer_with [1; 1; 1; 1] in
  let r := @hook_train_loop echo_backend self batch false false false [x] s in
  let v := default NaN (returned r.1) in
  r = (Ok v, r.2)
  ∧ ∃ es, trace r.2 = trace s ++ EvZeroGrad :: es
      ∧ count_events is_optimizer_step es = 1%nat
      ∧ count_events is_scheduler_step es = 1%nat
      ∧ (1 ≤ count_events is_backward es)%nat.
Proof.
  intros self batch x s r v.
  assert (Hrun : r = (Ok v, r.2)) by (vm_compute; reflexivity).
  split; [exact Hrun|].
  exact (@step_returns_once_stepped echo_backend self batch false false false [x] s
           v r.2 Hrun).
Defined.

(** [loss_failure_skips_optimizer] on the same step with a forward pass
    that fails. *)
Lemma loss_failure_skips_optimizer_witness :
  let self := settings_of plain_config in
  let batch := batch_of latents4 None EmptyString in
  let x := whole_batch latents4 noise4 timesteps4 in
  let s := trainer_with [1; 1; 1; 1] in
  let s0 := (set_step_weights (step_weights false batch) s).2 in
  let losses :=
    @train_sub_batches failing_backend self batch false false
      (existsb id (is_reg_list batch)) (step_weights false batch)
      (step_loss_multiplier (train_config self) batch) [x] None s0 in
  losses = (Raise (RuntimeError "CUDA out of memory"), losses.2)
  ∧ @hook_train_loop failing_backend self batch false false false [x] s
    = (Raise (RuntimeError "CUDA out of memory"), losses.2)
  ∧ ∃ es, trace losses.2 = trace s ++ EvZeroGrad :: es
      ∧ Forall inner_event es
      ∧ count_events is_optimizer_step es = 0%nat
      ∧ count_events is_scheduler_step es = 0%nat.
Proof.
  intros self batch x s s0 losses.
  assert (Hrun : losses = (Raise (RuntimeError "CUDA out of memory"), losses.2))
    by (vm_compute; reflexivity).
  split; [exact Hrun|].
  exact (@loss_failure_skips_optimizer failing_backend self batch false false false
           [x] s _ losses.2 Hrun).
Defined.

(** [prior_prediction_forward_pass] on the sample batch of two items. *)
Lemma prior_prediction_forward_pass_witness :
  let self := settings_of divergence_config in
  let batch := batch_of latents2 None EmptyString in
  let s := trainer_with [1; 1] in
  let r := @get_prior_prediction echo_backend self latents2 no_embeds false [1; 1]
             timesteps2 ∅ batch noise2 None s in
  let out := default ([], ∅) (returned r.1) in
  r = (Ok (out.1, out.2), r.2)
  ∧ out.1 = latents2
  ∧ ∃ encodings call,
      trace r.2 = trace s ++ encodings ++ [EvForward call]
      ∧ Forall is_encoding encodings ∧ (length encodings ≤ 1)%nat
      ∧ fc_latents call = latents2 ∧ fc_timestep call = timesteps2
      ∧ fc_kwargs call = ∅
      ∧ fc_grad_enabled call = false ∧ fc_unet_training call = false
      ∧ fc_network call = deactivated <$> network s
      ∧ fc_adapter call = switched_off <$> adapter s
      ∧ @unet_forward echo_backend call = Ok out.1
      ∧ out.2 = strip_residuals false ∅
      ∧ unet_training r.2 = unet_training s ∧ grad_enabled r.2 = grad_enabled s.
Proof.
  intros self batch s r out.
  assert (Hrun : r = (Ok (out.1, out.2), r.2)) by (vm_compute; reflexivity).
  split; [exact Hrun|]. split; [vm_compute; reflexivity|].
  exact (@prior_prediction_forward_pass echo_backend self latents2 no_embeds false
           [1; 1] timesteps2 ∅ batch noise2 None s out.1 out.2 r.2 Hrun).
Defined.

(** [prior_prediction_strips_residuals] when the assistant adapter is
    matched: the residual entry is gone, the other entry is kept. *)
Lemma prior_prediction_strips_residuals_witness :
  let self := settings_of divergence_config in
  let batch := batch_of latents2 None EmptyString in
  let s := trainer_with [1; 1] in
  let r := @get_prior_prediction echo_backend self latents2 no_embeds true [1; 1]
             timesteps2 residual_kwargs batch noise2 None s in
  let out := default ([], ∅) (returned r.1) in
  let residuals := ["down_intrablock_additional_residuals";
                    "down_block_additional_residuals";
                    "mid_block_additional_residual"] in
  r = (Ok (out.1, out.2), r.2)
  ∧ residual_kwargs !! "mid_block_additional_residual" = Some [latents2]
  ∧ (∀ key, key ∈ residuals → out.2 !! key = None)
  ∧ (∀ key, key ∉ residuals → out.2 !! key = residual_kwargs !! key).
Proof.
  intros self batch s r out residuals.
  assert (Hrun : r = (Ok (out.1, out.2), r.2)) by (vm_compute; reflexivity).
  split; [exact Hrun|]. split; [vm_compute; reflexivity|].
  exact (proj1 (@prior_prediction_strips_residuals echo_backend self latents2
                  no_embeds true [1; 1] timesteps2 residual_kwargs batch noise2 None
                  s out.1 out.2 r.2 Hrun) eq_refl).
Defined.

(** [strategy_needs_unconditional_latents] for the polarity strategy on a
    batch without unconditional latents. *)
Lemma strategy_needs_unconditional_latents_witness :
  let batch := batch_of latents2 None "polarity" in
  let s := trainer_with [1; 1] in
  unconditional_latents batch = None
  ∧ @run_strategy echo_backend Polarity latents2 no_embeds false [1; 1] timesteps2
      ∅ batch noise2 s
    = (Raise (AttributeError "'NoneType' object has no attribute 'to'"), s).
Proof.
  intros batch s. split; [reflexivity|].
  exact (@strategy_needs_unconditional_latents echo_backend Polarity latents2
           no_embeds false [1; 1] timesteps2 ∅ batch noise2 s eq_refl).
Defined.

(** [targeted_guidance_passes] on the sample batch of two items. *)
Lemma targeted_guidance_passes_witness :
  let batch := batch_of latents2 (Some unconditional2) "targeted" in
  let s := trainer_with [1; 1] in
  let r := @get_targeted_guidance_loss echo_backend latents2 no_embeds false [1; 1]
             timesteps2 ∅ batch noise2 s in
  let loss :=
    default {| value := NaN; requires_grad := false; attached := false |}
      (returned r.1) in
  r = (Ok loss, r.2)
  ∧ ∃ uncond baseline call baseline_out out,
      unconditional_latents batch = Some uncond
      ∧ trace r.2 = trace s ++ [EvForward baseline; EvForward call;
                                EvBackward (value loss) true]
      ∧ fc_latents baseline = fc_latents call
      ∧ fc_grad_enabled baseline = false ∧ fc_unet_training baseline = false
      ∧ fc_network baseline = deactivated <$> network s
      ∧ fc_grad_enabled call = true ∧ fc_unet_training call = true
      ∧ fc_network call = Some {| is_active := true; multiplier := MList [1; 1] |}
      ∧ @unet_forward echo_backend baseline = Ok baseline_out
      ∧ @unet_forward echo_backend call = Ok out
      ∧ let diff_noise :=
          @add_noise echo_backend (tmap (λ _, Fin 0) uncond)
            (tsub uncond (latents batch)) timesteps2 in
        value loss
        = fmean (mean123 (mse_loss (tsub out noise2)
                            (tadd (tsub baseline_out noise2) diff_noise))).
Proof.
  intros batch s r loss.
  assert (Hrun : r = (Ok loss, r.2)) by (vm_compute; reflexivity).
  split; [exact Hrun|].
  exact (@targeted_guidance_passes echo_backend latents2 no_embeds false [1; 1]
           timesteps2 ∅ batch noise2 s loss r.2 Hrun).
Defined.

(** [unknown_guidance_type_raises] for the guidance type [tnt]: the prior
    prediction is taken, and then the step raises. *)
Lemma unknown_guidance_type_raises_witness :
  let self := settings_of plain_config in
  let batch := batch_of latents2 (Some unconditional2) "tnt" in
  let x := whole_batch latents2 noise2 timesteps2 in
  let s := trainer_with [1; 1] in
  let prior := @get_prior_prediction echo_backend self latents2 no_embeds false
                 [1; 1] timesteps2 ∅ batch noise2 None s in
  let out := default ([], ∅) (returned prior.1) in
  unconditional_latents batch = Some unconditional2
  ∧ (guidance_type batch ∉ ["targeted"; "polarity"; "targeted_polarity"])
  ∧ wants_prior self batch false false false s = true
  ∧ prior = (Ok (out.1, out.2), prior.2)
  ∧ @sub_batch_loss echo_backend self batch false false false [1; 1] x s
    = (Raise (NotImplementedError "Guidance type tnt is not implemented"), prior.2).
Proof.
  intros self batch x s prior out.
  assert (Htype : guidance_type batch ∉ ["targeted"; "polarity"; "targeted_polarity"])
    by by_decide.
  assert (Hprior : prior = (Ok (out.1, out.2), prior.2)) by (vm_compute; reflexivity).
  pose proof (@unknown_guidance_type_raises echo_backend self batch false false false
                [1; 1] x s unconditional2 eq_refl Htype) as (_ & Hafter & Hwants).
  split; [reflexivity|]. split; [exact Htype|].
  split; [exact (Hwants eq_refl)|]. split; [exact Hprior|].
  exact (Hafter out.1 out.2 prior.2 (Hwants eq_refl) Hprior).
Defined.

(** [calculate_loss_state] on a trainer whose adapter carries an
    additional loss: the loss is consumed. *)
Lemma calculate_loss_state_witness :
  let self := settings_of plain_config in
  let pred := {| pred_data := latents4; pred_tracked := true |} in
  let batch := batch_of latents4 None EmptyString in
  let s := trainer_with_adapter [1; 1; 1; 1] in
  let r := @calculate_loss echo_backend self pred noise4 latents4 timesteps4 batch
             (ones 4) None s in
  let loss :=
    default {| value := NaN; requires_grad := false; attached := false |}
      (returned r.1) in
  r = (Ok loss, r.2)
  ∧ (additional_loss <$> adapter s) = Some (Some [Fin 1; Fin (Q2Qc 3)])
  ∧ network r.2 = network s
  ∧ unet_training r.2 = unet_training s ∧ grad_enabled r.2 = grad_enabled s
  ∧ adapter r.2
    = Some {| kind := ClipVisionAdapter; adapter_is_active := true;
              additional_loss := None |}.
Proof.
  intros self pred batch s r loss.
  assert (Hrun : r = (Ok loss, r.2)) by (vm_compute; reflexivity).
  split; [exact Hrun|]. split; [reflexivity|].
  exact (@calculate_loss_state echo_backend self pred noise4 latents4 timesteps4
           batch (ones 4) None s loss r.2 Hrun).
Defined.

Lemma prior4_shape : has_shape 4 1 1 prior4.
Proof. split; [reflexivity|]. repeat constructor. Qed.

(** [prior_divergence_loss] on the four-item sample: the loss is
    5/2 - 4 = -3/2. *)
Lemma prior_divergence_loss_witness :
  let self := settings_of divergence_config in
  let pred := {| pred_data := latents4; pred_tracked := true |} in
  let batch := batch_of latents4 None EmptyString in
  let s := trainer_with [1; 1; 1; 1] in
  let loss := fsub (mean_all (mse_loss latents4 noise4))
                   (mean_all (mse_loss latents4 prior4)) in
  plain_settings self
  ∧ has_shape 4 1 1 latents4 ∧ has_shape 4 1 1 noise4 ∧ has_shape 4 1 1 prior4
  ∧ loss = Fin (Q2Qc (- 3 # 2))
  ∧ @calculate_loss echo_backend self pred noise4 latents4 timesteps4 batch (ones 4)
      (Some prior4) s
    = (Ok {| value := loss; requires_grad := true; attached := true |}, s).
Proof.
  intros self pred batch s loss.
  split; [exact divergence_config_plain|].
  split; [exact latents4_shape|]. split; [exact noise4_shape|].
  split; [exact prior4_shape|]. split; [by_decide|].
  exact (@prior_divergence_loss echo_backend self pred noise4 latents4 timesteps4
           batch s 4 1 1 prior4 divergence_config_plain eq_refl eq_refl
           latents4_shape noise4_shape prior4_shape
           (le_S _ _ (le_S _ _ (le_S _ _ (le_n 1)))) (le_n 1) eq_refl).
Defined.

(** [step_multiplier_is_mean_weight] on a batch of four items, two of them
    regularization items, with [reg_weight] 1. *)
Lemma step_multiplier_is_mean_weight_witness :
  let batch := with_reg [true; false; true; false] (batch_of latents4 None EmptyString) in
  reg_weight plain_config = 1
  ∧ (1 ≤ length (is_reg_list batch))%nat
  ∧ mean_all (step_loss_multiplier plain_config batch) = Fin 1.
Proof.
  intros batch. split; [reflexivity|].
  split; [exact (le_S _ _ (le_S _ _ (le_S _ _ (le_n 1))))|].
  exact (proj2 (step_multiplier_is_mean_weight plain_config batch) eq_refl
           (le_S _ _ (le_S _ _ (le_S _ _ (le_n 1))))).
Defined.

Module SamplerEdgeExamples.
Import Sampler SamplerEdge.

(** [narrow_range_timesteps] on the range from 10 to 11: every timestep
    is 10, which is below [min_denoising_steps + 1]. *)
Lemma narrow_range_timesteps_witness :
  (max_denoising_steps narrow_config ≤ min_denoising_steps narrow_config + 2)%Z
  ∧ content_or_style narrow_config ∈ ["style"; "content"]
  ∧ sample_timesteps narrow_config (grid 3) [] = Ok [10; 10; 10]%Z.
Proof.
  assert (H1 : (max_denoising_steps narrow_config
                ≤ min_denoising_steps narrow_config + 2)%Z) by (vm_compute; discriminate).
  assert (H2 : content_or_style narrow_config ∈ ["style"; "content"]) by by_decide.
  split; [exact H1|]. split; [exact H2|].
  exact (narrow_range_timesteps narrow_config (grid 3) [] H1 H2).
Defined.

End SamplerEdgeExamples.

Module RunnerExamples.
Import Runner RunnerFacts.

Lemma recover_runs_every_job_witness :
  sample_jobs ≠ []
  ∧ ∃ actions,
      main true sample_jobs = (actions, None)
      ∧ fetched actions = ["first"; "second"; "third"]
      ∧ length (List.filter is_error_line actions) = 1%nat
      ∧ existsb is_result_line actions = false.
Proof.
  assert (Hjobs : sample_jobs ≠ []) by discriminate.
  split; [exact Hjobs|]. exact (recover_runs_every_job sample_jobs Hjobs).
Defined.

Lemma stops_at_first_failure_witness :
  Forall (λ j : string * outcome, j.2 = None) [("first", None)]
  ∧ main false sample_jobs
    = ([Printed "Running 3 jobs";
        Called GetJob "first"; Called RunJob "first"; Called CleanupJob "first";
        Called GetJob "second"; Called RunJob "second";
        Printed "Error running job: CUDA out of memory";
        Printed EmptyString;
        Printed "========================================";
        Printed "Result:";
        Printed " - 1 completed job";
        Printed " - 1 failure";
        Printed "========================================"],
       Some (JobError (RuntimeError "CUDA out of memory"))).
Proof.
  assert (Hbefore : Forall (λ j : string * outcome, j.2 = None) [("first", None)])
    by (repeat constructor).
  split; [exact Hbefore|].
  exact (proj1 (stops_at_first_failure [("first", None)] "second" RunJob
                  (RuntimeError "CUDA out of memory") [("third", None)] Hbefore)).
Defined.

Lemma no_end_message_on_success_witness :
  [("only", None)] ≠ ([] : list (string * outcome))
  ∧ Forall (λ j : string * outcome, j.2 = None) [("only", None)]
  ∧ main false [("only", None)]
    = ([Printed "Running 1 job";
        Called GetJob "only"; Called RunJob "only"; Called CleanupJob "only"],
       None).
Proof.
  assert (Hjobs : [("only", None)] ≠ ([] : list (string * outcome))) by discriminate.
  assert (Hok : Forall (λ j : string * outcome, j.2 = None) [("only", None)])
    by (repeat constructor).
  split; [exact Hjobs|]. split; [exact Hok|].
  exact (no_end_message_on_success false [("only", None)] Hjobs Hok).
Defined.

End RunnerExamples.

Module SavesExamples.
Import Saves SavesFacts.

(** [save_names_and_patterns] for the job [cat]. *)
Lemma save_names_and_patterns_witness :
  has_wildcard "cat" = false
  ∧ "cat" ≠ EmptyString
  ∧ save_file_name "cat" (Some 100%nat) = "cat_000000100.safetensors"
  ∧ glob_match "cat_" ".safetensors" "cat_000000100.safetensors" = true
  ∧ glob_match "cat_" ".safetensors" "cat.safetensors" = false
  ∧ glob_match "cat_" ".safetensors" "cat_LoRA.safetensors" = true
  ∧ ∀ step', glob_match "cat" (EmptyString +:+ ".safetensors")
               (save_file_name "cat" step') = true.
Proof.
  assert (Hplain : has_wildcard "cat" = false) by reflexivity.
  assert (Hjob : "cat" ≠ EmptyString) by discriminate.
  pose proof (save_names_and_patterns "cat" 100 Hplain) as (H1 & H2 & H3 & H4).
  split; [exact Hplain|]. split; [exact Hjob|]. split; [vm_compute; reflexivity|].
  split; [exact H1|]. split; [exact H2|]. split; [exact H3|]. exact (H4 Hjob).
Defined.

(** [clean_up_keeps_newest] on the sample folder, with room for two step
    saves: the oldest step save goes, with its [.yaml] file. *)
Lemma clean_up_keeps_newest_witness :
  NoDup (path <$> sample_folder)
  ∧ (1 ≤ 2)%nat
  ∧ (2 < length (filter (λ f, is_step_save "cat" f = true) sample_folder))%nat
  ∧ clean_up_saves "cat" 2 (Some sample_folder)
    = (Some [ {| path := "cat_000000200.safetensors"; ctime := 200 |};
              {| path := "cat.safetensors"; ctime := 400 |};
              {| path := "dog_000000100.safetensors"; ctime := 50 |};
              {| path := "cat_000000300.safetensors"; ctime := 300 |} ],
       ["Removing old save: cat_000000100.safetensors"])
  ∧ ∃ dir',
      (clean_up_saves "cat" 2 (Some sample_folder)).1 = Some dir'
      ∧ length (filter (λ f, is_step_save "cat" f = true) dir') = 2%nat
      ∧ (∀ f, f ∈ dir' → f ∈ sample_folder)
      ∧ (∀ f g, f ∈ sample_folder → is_step_save "cat" f = true → f ∉ dir' →
                g ∈ dir' → is_step_save "cat" g = true → (ctime f ≤ ctime g)%Z).
Proof.
  assert (H1 : NoDup (path <$> sample_folder)) by by_decide.
  assert (H2 : (1 ≤ 2)%nat) by lia.
  assert (H3 : (2 < length (filter (λ f, is_step_save "cat" f = true)
                              sample_folder))%nat) by (vm_compute; lia).
  split; [exact H1|]. split; [exact H2|]. split; [exact H3|].
  split; [vm_compute; reflexivity|].
  exact (clean_up_keeps_newest "cat" 2 sample_folder H1 H2 H3).
Defined.

Lemma clean_up_keeps_all_witness :
  (0 = 0 ∨ length (filter (λ f, is_step_save "cat" f = true) sample_folder) ≤ 0)%nat
  ∧ clean_up_saves "cat" 0 (Some sample_folder) = (Some sample_folder, []).
Proof.
  assert (H : (0 = 0 ∨ length (filter (λ f, is_step_save "cat" f = true)
                                 sample_folder) ≤ 0)%nat) by (left; reflexivity).
  split; [exact H|]. exact (clean_up_keeps_all "cat" 0 sample_folder H).
Defined.

Lemma clean_up_spares_other_files_witness :
  let final := {| path := "cat.safetensors"; ctime := 400 |} in
  final ∈ sample_folder
  ∧ is_step_save "cat" final = false
  ∧ ends_with ".yaml" (path final) = false
  ∧ ∃ dir', (clean_up_saves "cat" 1 (Some sample_folder)).1 = Some dir'
            ∧ final ∈ dir'.
Proof.
  intros final.
  assert (H1 : final ∈ sample_folder) by (right; left).
  assert (H2 : is_step_save "cat" final = false) by reflexivity.
  assert (H3 : ends_with ".yaml" (path final) = false) by reflexivity.
  split; [exact H1|]. split; [exact H2|]. split; [exact H3|].
  exact (clean_up_spares_other_files "cat" 1 sample_folder final H1 H2 H3).
Defined.

End SavesExamples.

Module ScheduleExamples.
Import Schedule ScheduleFacts.

(** [resume_repeats_one_step] on the run of ten steps, for the save under
    the step number 3: steps 0 to 4 are trained before it, and the resumed
    run trains the steps 4 to 9. *)
Lemma resume_repeats_one_step_witness :
  (0 < 3)%nat ∧ (3 + 2 ≤ steps sample_loop)%nat
  ∧ is_every (save_every sample_loop) 3 = true
  ∧ ∃ before after,
      train_loop sample_loop 0 0 = before ++ Save (Some 3%nat) :: after
      ∧ trained_steps before = [0; 1; 2; 3; 4]%nat
      ∧ trained_steps (train_loop sample_loop 4 4) = [4; 5; 6; 7; 8; 9]%nat
      ∧ (length (trained_steps before)
         + length (trained_steps (train_loop sample_loop 4 4)) = 11)%nat.
Proof.
  assert (H1 : (0 < 3)%nat) by lia.
  assert (H2 : (3 + 2 ≤ steps sample_loop)%nat) by (vm_compute; lia).
  assert (H3 : is_every (save_every sample_loop) 3 = true) by reflexivity.
  split; [exact H1|]. split; [exact H2|]. split; [exact H3|].
  exact (resume_repeats_one_step sample_loop 0 3 H1 H2 H3).
Defined.

End ScheduleExamples.

Module ILoraExamples.
Import ILora ILoraFacts.

Lemma slices_partition_the_row_witness :
  sample_rows !! 1%nat = Some (seq 100 16)
  ∧ slices 0 (embed_lengths sample_modules) sample_rows
    = [[seq 0 12; seq 100 12]; [seq 12 4; seq 112 4]]
  ∧ let parts := slices 0 (embed_lengths sample_modules) sample_rows in
    length parts = 2%nat
    ∧ concat ((λ part, default [] (part !! 1%nat)) <$> parts)
      = take (output_size sample_modules) (seq 100 16)
    ∧ ∀ i m, sample_modules !! i = Some m →
        (output_size sample_modules ≤ length (seq 100 16))%nat →
        ∃ part r, parts !! i = Some part ∧ part !! 1%nat = Some r
                  ∧ length r = module_size m.
Proof.
  assert (H : sample_rows !! 1%nat = Some (seq 100 16)) by reflexivity.
  split; [exact H|]. split; [reflexivity|].
  exact (slices_partition_the_row sample_modules sample_rows 1 (seq 100 16) H).
Defined.

Lemma weights_partition_the_slice_witness :
  let m := {| down_shape := [2; 3]%nat; up_shape := [3; 2]%nat |} in
  let embed := [seq 0 12; seq 100 12] in
  (1 ≤ prod (up_shape m))%nat
  ∧ Forall (λ row, length row = module_size m) embed
  ∧ down_weight m embed = [seq 0 6; seq 100 6]
  ∧ up_weight m embed = [seq 6 6; seq 106 6]
  ∧ zip_with app (down_weight m embed) (up_weight m embed) = embed.
Proof.
  intros m embed.
  assert (H1 : (1 ≤ prod (up_shape m))%nat) by (vm_compute; lia).
  assert (H2 : Forall (λ row, length row = module_size m) embed)
    by (repeat constructor).
  split; [exact H1|]. split; [exact H2|]. split; [reflexivity|].
  split; [reflexivity|].
  exact (proj1 (weights_partition_the_slice m embed H1 H2)).
Defined.

Lemma migrated_weight_mapping_witness :
  NoDup (saved_name sample_keymap <$> sample_mapping.*1)
  ∧ saved_name sample_keymap <$> sample_mapping.*1
    = ["model.attn1.to_q"; "lora_te_mlp_fc1"]
  ∧ ∃ m,
      migrate_weight_mapping (Some sample_keymap) sample_mapping
      = (ByKey m, ["Key lora_te_mlp_fc1 not found in keymap"])
      ∧ (∀ key value, (key, value) ∈ sample_mapping →
           m !! saved_name sample_keymap key = Some value)
      ∧ (∀ k, is_Some (m !! k) →
           k ∈ saved_name sample_keymap <$> sample_mapping.*1).
Proof.
  assert (H : NoDup (saved_name sample_keymap <$> sample_mapping.*1)) by by_decide.
  split; [exact H|]. split; [vm_compute; reflexivity|].
  exact (proj2 (proj2 (migrated_weight_mapping sample_keymap sample_mapping H))).
Defined.

End ILoraExamples.
